(** * Lighthouse: action history, status reconciler, webhook front door, launcher

    A shallow embedding of the Go sources of lighthouse
    (package [history], package [foghorn], package [webhook],
    package [launcher], package [scmprovider]) together with the properties
    the design document states about them and further properties of the
    same code.

    Conventions.
    - A Go [int] is a [Z] in the 64-bit range; every arithmetic operation the
      sources perform on one is followed by [wrap].  [%] is Go's truncated
      remainder ([Z.rem]) and panics on a zero divisor.
    - A Go [string] is a [string] (a byte sequence); [len] is [String.length].
    - A run-time panic is the [Panic] outcome of the [Res] monad.
    - Calls that leave the process (SCM provider, cluster API, environment,
      clock) are fields of an environment record, so that every function is
      executable on concrete inputs. *)

From Stdlib Require Import ZArith String Ascii List Lia Bool Permutation Sorted.
From Stdlib Require Import DecimalString DecimalPos.
From stdpp Require Import base option list sorting gmap strings fin_maps.

Local Open Scope string_scope.
Local Open Scope Z_scope.

(** ** Go run-time conventions *)

Module Go.

Inductive panic : Type :=
  | DivideByZero
  | IndexOutOfRange
  | NilDereference
  | NilMapAssignment.

Inductive Res (A : Type) : Type :=
  | Ok (a : A)
  | Panic (p : panic).
Arguments Ok {A} a.
Arguments Panic {A} p.

Definition bind {A B : Type} (m : Res A) (f : A -> Res B) : Res B :=
  match m with
  | Ok a => f a
  | Panic p => Panic p
  end.

Definition is_Ok {A : Type} (m : Res A) : bool :=
  match m with Ok _ => true | Panic _ => false end.

Definition int_min : Z := - 2 ^ 63.
Definition int_max : Z := 2 ^ 63 - 1.

(** Two's-complement wrap-around of a 64-bit signed [int]. *)
Definition wrap (z : Z) : Z := (z + 2 ^ 63) mod 2 ^ 64 - 2 ^ 63.

(** [a % b] on [int]. *)
Definition rem (a b : Z) : Res Z :=
  if b =? 0 then Panic DivideByZero else Ok (wrap (Z.rem a b)).

(** [s[i]] on a slice. *)
Definition index {A : Type} (s : list A) (i : Z) : Res A :=
  if (0 <=? i) && (i <? Z.of_nat (length s)) then
    match s !! Z.to_nat i with
    | Some a => Ok a
    | None => Panic IndexOutOfRange
    end
  else Panic IndexOutOfRange.

(** [s[i] = a] on a slice. *)
Definition assign {A : Type} (s : list A) (i : Z) (a : A) : Res (list A) :=
  if (0 <=? i) && (i <? Z.of_nat (length s)) then Ok (<[Z.to_nat i := a]> s)
  else Panic IndexOutOfRange.

(** [strings.Join]. *)
Definition Join (elems : list string) (sep : string) : string :=
  String.concat sep elems.

(** [strings.HasPrefix]. *)
Definition HasPrefix (s pre : string) : bool := String.prefix pre s.

(** [strings.Contains]. *)
Fixpoint Contains (s substr : string) : bool :=
  String.prefix substr s
  || match s with
     | EmptyString => false
     | String _ s' => Contains s' substr
     end.

(** [s[:n]] on a string, for [n <= len(s)]. *)
Definition slice_to (s : string) (n : nat) : string := String.substring 0 n s.

(** Decimal rendering of an [int], as [strconv.Itoa] and the [%v] verb do. *)
Definition Itoa (n : Z) : string := NilZero.string_of_int (Z.to_int n).

(** [strings.TrimPrefix]. *)
Definition TrimPrefix (s pre : string) : string :=
  if String.prefix pre s
  then String.substring (String.length pre)
         (String.length s - String.length pre) s
  else s.

(** The value of a run of decimal digits after the value [acc] of the
    digits before it; [None] when a byte is not a digit. *)
Fixpoint digits (s : string) (acc : Z) : option Z :=
  match s with
  | EmptyString => Some acc
  | String ch s' =>
      let d := Z.of_nat (nat_of_ascii ch) - 48 in
      if (0 <=? d) && (d <=? 9) then digits s' (10 * acc + d) else None
  end.

(** [strconv.Atoi]: an optional sign and at least one decimal digit; [None]
    for its syntax error and for its range error. *)
Definition Atoi (s : string) : option Z :=
  let '(neg, body) :=
    match s with
    | String ch s' =>
        if Ascii.eqb ch "-" then (true, s')
        else if Ascii.eqb ch "+" then (false, s')
        else (false, s)
    | EmptyString => (false, s)
    end in
  match body with
  | EmptyString => None
  | _ =>
      match digits body 0 with
      | None => None
      | Some v =>
          let n := if neg then - v else v in
          if (int_min <=? n) && (n <=? int_max) then Some n else None
      end
  end.

End Go.

Notation "'let!' x ':=' m 'in' k" := (Go.bind m (fun x => k))
  (at level 10, x pattern, m at level 100, k at level 200).

Import Go.


(** ** Types of package [v1alpha1] used by the sources *)

Module v1alpha1.

(** Modelled from the spec: the declaration of [Pull] is not part of the
    sources at hand; the fields are the ones the design document lists for
    an element of [refs.pulls]. *)
Record Pull : Type := mkPull {
  Number : Z;
  SHA : string;
  Title : string;
  Ref : string;
  Link : string;
  AuthorLogin : string;
  CommitLink : string
}.

#[global] Instance Pull_eq_dec : EqDecision Pull.
Proof. solve_decision. Defined.

(** Modelled from the spec: [ByNum] is the [sort.Interface] over [[]Pull]
    whose [Less] compares pull-request numbers. *)
Definition ByNum_Less (a b : Pull) : bool := Number a <? Number b.

(** Modelled from the spec: [PipelineState] is a string type; its values are
    the states the design document lists for [status.state]. *)
Definition PipelineState : Type := string.
Definition TriggeredState : PipelineState := "triggered".
Definition PendingState : PipelineState := "pending".
Definition RunningState : PipelineState := "running".
Definition SuccessState : PipelineState := "success".
Definition FailureState : PipelineState := "failure".
Definition AbortedState : PipelineState := "aborted".
Definition ErrorState : PipelineState := "error".

(** The terminal states of the design document. *)
Definition terminal (s : PipelineState) : bool :=
  bool_decide (s = SuccessState) || bool_decide (s = FailureState)
  || bool_decide (s = AbortedState) || bool_decide (s = ErrorState).

(** Modelled from the spec: the job types; [PipelineKind] of the
    configuration package is a string type. *)
Definition PresubmitJob : string := "presubmit".
Definition PostsubmitJob : string := "postsubmit".
Definition PeriodicJob : string := "periodic".
Definition BatchJob : string := "batch".

(** [metav1.Time], as the instant in nanoseconds. *)
Definition Time : Type := Z.

Module ActivityStageOrStep.
Record t : Type := mk { Name : string; Status : PipelineState }.
End ActivityStageOrStep.

#[global] Instance ActivityStageOrStep_eq_dec : EqDecision ActivityStageOrStep.t.
Proof. solve_decision. Defined.

(** Modelled from the spec: the fields of an activity record. *)
Module ActivityRecord.
Record t : Type := mk {
  Name : string;
  Owner : string;
  Repo : string;
  Branch : string;
  BuildIdentifier : string;
  Context : string;
  GitURL : string;
  LastCommitSHA : string;
  Status : PipelineState;
  StartTime : option Time;
  CompletionTime : option Time;
  Stages : list ActivityStageOrStep.t
}.
End ActivityRecord.

#[global] Instance ActivityRecord_eq_dec : EqDecision ActivityRecord.t.
Proof. solve_decision. Defined.

(** Modelled from the spec: the status of a job, with the [Activity] the
    reconciler reads ([None] for a nil pointer). *)
Module LighthouseJobStatus.
Record t : Type := mk {
  State : PipelineState;
  ActivityName : string;
  StartTime : option Time;
  CompletionTime : option Time;
  LastCommitSHA : string;
  LastReportState : string;
  Description : string;
  ReportURL : string;
  Activity : option ActivityRecord.t
}.
End LighthouseJobStatus.

#[global] Instance LighthouseJobStatus_eq_dec : EqDecision LighthouseJobStatus.t.
Proof. solve_decision. Defined.

Module Refs.
Record t : Type := mk {
  Org : string;
  Repo : string;
  RepoLink : string;
  BaseRef : string;
  BaseSHA : string;
  Pulls : list Pull
}.
End Refs.

(** [Refs] is a pointer in the job spec: [None] is nil. *)
Module LighthouseJobSpec.
Record t : Type := mk {
  Type_ : string;
  Namespace : string;
  Job : string;
  Refs : option Refs.t;
  Context : string;
  RerunCommand : string;
  MaxConcurrency : Z
}.
End LighthouseJobSpec.

(** [Labels] is a Go map: [None] is the nil map. *)
Module LighthouseJob.
Record t : Type := mk {
  Name : string;
  Labels : option (gmap string string);
  Spec : LighthouseJobSpec.t;
  Status : LighthouseJobStatus.t
}.
End LighthouseJob.

End v1alpha1.

(** ** Types of the SCM client library *)

Module scm.

(** The commit-status states of the client library. *)
Inductive State : Type :=
  | StateUnknown
  | StatePending
  | StateRunning
  | StateSuccess
  | StateFailure
  | StateCanceled
  | StateError
  | StateExpected.

#[global] Instance State_eq_dec : EqDecision State.
Proof. solve_decision. Defined.

Module StatusInput.
Record t : Type := mk {
  State : scm.State;
  Label : string;
  Desc : string;
  Target : string
}.
End StatusInput.

Module Repository.
Record t : Type := mk {
  ID : string;
  Namespace : string;
  Name : string;
  FullName : string;
  Branch : string;
  Clone : string;
  Link : string
}.
End Repository.

End scm.

(** ** Package [history] *)

Module history.
Import v1alpha1.

(** [time.Time], as the instant in nanoseconds. *)
Definition Time : Type := Z.

Record Record_ : Type := mkRecord {
  Time_ : Time;
  Action : string;
  BaseSHA : string;
  Target : list Pull;
  Err : string
}.

#[global] Instance Record_eq_dec : EqDecision Record_.
Proof. solve_decision. Defined.

(** [recordLog]: [cachedSlice] is [None] for Go's [nil]. *)
Record recordLog : Type := mkRecordLog {
  buff : list Record_;
  head : Z;
  limit : Z;
  cachedSlice : option (list Record_)
}.

Definition newRecordLog (sizeLimit : Z) : recordLog :=
  {| buff := []; head := -1; limit := sizeLimit; cachedSlice := None |}.

(** [recordLog.add]. *)
Definition add (rl : recordLog) (rec : Record_) : Res recordLog :=
  let! h := rem (wrap (head rl + 1)) (limit rl) in
  if Z.of_nat (length (buff rl)) <? limit rl then
    Ok {| buff := buff rl ++ [rec]; head := h; limit := limit rl;
          cachedSlice := None |}
  else
    let! b := assign (buff rl) h rec in
    Ok {| buff := b; head := h; limit := limit rl; cachedSlice := None |}.

(** The loop body of [recordLog.toSlice], for the values [idxs] of [i]. *)
Fixpoint toSlice_loop (rl : recordLog) (idxs : list nat) (res : list Record_)
  : Res (list Record_) :=
  match idxs with
  | [] => Ok res
  | i :: idxs' =>
      let! ix := rem (wrap (wrap (limit rl + head rl) - Z.of_nat i)) (limit rl) in
      let! r := index (buff rl) ix in
      toSlice_loop rl idxs' (res ++ [r])
  end.

(** [recordLog.toSlice]: the snapshot and the log with its cache filled. *)
Definition toSlice (rl : recordLog) : Res (list Record_ * recordLog) :=
  match cachedSlice rl with
  | Some c => Ok (c, rl)
  | None =>
      let! res := toSlice_loop rl (seq 0 (length (buff rl))) [] in
      Ok (res, {| buff := buff rl; head := head rl; limit := limit rl;
                  cachedSlice := Some res |})
  end.

(** [History]; the mutex is not modelled, calls are taken one at a time. *)
Record History : Type := mkHistory {
  logs : gmap string recordLog;
  logSizeLimit : Z;
  path : string
}.

(** [readHistory] is a stub that yields an empty map. *)
Definition readHistory (maxRecordsPerKey : Z) (path : string)
  : gmap string recordLog := ∅.

Definition New (maxRecordsPerKey : Z) (path : string) : History :=
  let hist := {| logs := ∅; logSizeLimit := maxRecordsPerKey; path := path |} in
  if decide (path = "") then hist
  else {| logs := readHistory maxRecordsPerKey path;
          logSizeLimit := maxRecordsPerKey; path := path |}.

(** [History.addRecord]. *)
Definition addRecord (h : History) (poolKey : string) (rec : Record_)
  : Res History :=
  let rl := default (newRecordLog (logSizeLimit h)) (logs h !! poolKey) in
  let! rl' := add rl rec in
  Ok {| logs := <[poolKey := rl']> (logs h); logSizeLimit := logSizeLimit h;
        path := path h |}.

Section Record.

(** [sort.Sort] of the Go library, applied to [ByNum]: taken by its
    contract (an ascending rearrangement of the slice, not promised stable). *)
Variable sort_Sort : list Pull -> list Pull.

(** [History.Record]; [t] is the value of [now()].  The caller's slice is
    sorted in place and the record shares it; the record's view is kept. *)
Definition Record (h : History) (t : Time) (poolKey action baseSHA err : string)
  (targets : list Pull) : Res History :=
  let targets := sort_Sort targets in
  addRecord h poolKey
    {| Time_ := t; Action := action; BaseSHA := baseSHA; Target := targets;
       Err := err |}.

End Record.

(** The first panic among the outcomes of a map, if any. *)
Definition first_panic {A : Type} (m : gmap string (Res A)) : option panic :=
  hd_error (omap (fun kr => match kr.2 with Panic p => Some p | Ok _ => None end)
             (map_to_list m)).

(** [History.AllRecords]: the snapshot of every pool, and the history with
    the caches of its logs filled. *)
Definition AllRecords (h : History)
  : Res (gmap string (list Record_) * History) :=
  let rs := toSlice <$> logs h in
  match first_panic rs with
  | Some p => Panic p
  | None =>
      Ok (omap (fun r => match r with Ok (s, _) => Some s | Panic _ => None end) rs,
          {| logs := omap (fun r => match r with Ok (_, rl) => Some rl
                                            | Panic _ => None end) rs;
             logSizeLimit := logSizeLimit h; path := path h |})
  end.

(** [insertionSort] of the Go library over [ByNum]: the procedure [sort.Sort]
    runs on a slice of fewer than seven elements. *)
(** Its inner loop: [x] travels left while it is less than its left
    neighbour; [before] is the part of the slice left of [x], nearest
    element first. *)
Fixpoint sink (x : Pull) (before : list Pull) : list Pull :=
  match before with
  | [] => [x]
  | y :: rest => if ByNum_Less x y then y :: sink x rest else x :: y :: rest
  end.

Definition insertionSort (data : list Pull) : list Pull :=
  rev (fold_left (fun before x => sink x before) data []).

(** *** Runs of calls *)

(** A call on one log: an [add] or a [toSlice]. *)
Inductive log_call : Type :=
  | call_add (rec : Record_)
  | call_toSlice.

Fixpoint run_log (rl : recordLog) (calls : list log_call) : Res recordLog :=
  match calls with
  | [] => Ok rl
  | call_add rec :: calls' => let! rl' := add rl rec in run_log rl' calls'
  | call_toSlice :: calls' => let! r := toSlice rl in run_log r.2 calls'
  end.

(** The records a run adds, oldest first. *)
Definition added (calls : list log_call) : list Record_ :=
  omap (fun c => match c with call_add rec => Some rec | call_toSlice => None end)
       calls.

(** A call on the history: a [Record] with its arguments and the value of
    the clock, or an [AllRecords]. *)
Inductive call : Type :=
  | call_Record (t : Time) (poolKey action baseSHA err : string)
      (targets : list Pull)
  | call_AllRecords.

Section Runs.

Variable sort_Sort : list Pull -> list Pull.

Fixpoint run (h : History) (calls : list call) : Res History :=
  match calls with
  | [] => Ok h
  | call_Record t poolKey action baseSHA err targets :: calls' =>
      let! h' := Record sort_Sort h t poolKey action baseSHA err targets in
      run h' calls'
  | call_AllRecords :: calls' =>
      let! r := AllRecords h in run r.2 calls'
  end.

(** The records a run stores under [key], oldest first. *)
Definition recorded (key : string) (calls : list call) : list Record_ :=
  omap (fun c =>
          match c with
          | call_Record t poolKey action baseSHA err targets =>
              if decide (poolKey = key)
              then Some {| Time_ := t; Action := action; BaseSHA := baseSHA;
                           Target := sort_Sort targets; Err := err |}
              else None
          | call_AllRecords => None
          end) calls.

End Runs.

(** *** Invariant of a log *)

(** [rl] holds the last [L] of the records [recs] (oldest first): record
    number [k] sits in slot [k mod L] for as long as it is among the last
    [L], [head] is the slot of the newest, and a filled cache is the current
    snapshot. *)
Definition holds (L : Z) (recs : list Record_) (rl : recordLog) : Prop :=
  limit rl = L
  /\ Z.of_nat (length (buff rl)) = Z.min (Z.of_nat (length recs)) L
  /\ head rl = (if decide (recs = []) then -1
               else (Z.of_nat (length recs) - 1) mod L)
  /\ (forall (k : nat) (r : Record_),
        recs !! k = Some r ->
        Z.of_nat (length recs) - Z.of_nat k <= L ->
        buff rl !! Z.to_nat (Z.of_nat k mod L) = Some r)
  /\ (cachedSlice rl = None
      \/ cachedSlice rl = Some (take (Z.to_nat L) (rev recs))).

(** [h] is the history after the calls [calls]: every pool that was
    recorded to has a log holding its records, and no other pool has one. *)
Definition tracks (sort_Sort : list Pull -> list Pull) (L : Z)
  (calls : list call) (h : History) : Prop :=
  logSizeLimit h = L
  /\ forall key : string,
       match logs h !! key with
       | Some rl => holds L (recorded sort_Sort key calls) rl
                    /\ recorded sort_Sort key calls <> []
       | None => recorded sort_Sort key calls = []
       end.

(** The ascending order [sort.Sort] leaves a [ByNum] slice in. *)
Definition ascending (l : list Pull) : Prop :=
  Sorted (fun a b => Number a <= Number b) l.

(** *** Merging and flushing *)

(** The inner loop of [History.Merge]: the records of one pool, added in
    the order of the slice. *)
Fixpoint addRecords (h : History) (key : string) (logs : list Record_)
  : Res History :=
  match logs with
  | [] => Ok h
  | log :: logs' => let! h' := addRecord h key log in addRecords h' key logs'
  end.

(** The outer loop of [History.Merge] over the pools of the other history.
    Go visits the keys of a map in no fixed order; the pools are independent,
    and the order of [map_to_list] is taken. *)
Fixpoint mergePools (h : History) (pools : list (string * list Record_))
  : Res History :=
  match pools with
  | [] => Ok h
  | (key, logs) :: pools' =>
      let! h' := addRecords h key logs in mergePools h' pools'
  end.

(** [History.Merge]: the history merged into, and the other history with
    the caches of its logs filled by its [AllRecords]. *)
Definition Merge (h other : History) : Res (History * History) :=
  let! r := AllRecords other in
  let! h' := mergePools h (map_to_list r.1) in
  Ok (h', r.2).

(** [writeHistory] is a stub that writes nothing and returns nil. *)
Definition writeHistory (path : string) (hist : gmap string (list Record_))
  : option string := None.

(** [History.Flush]. *)
Definition Flush (h : History) : Res History :=
  if decide (path h = "") then Ok h
  else
    let! r := AllRecords h in
    let err := writeHistory (path h) r.1 in
    Ok r.2.

(** What a log holds apart from its cache. *)
Definition kept (rl : recordLog) : list Record_ * Z * Z :=
  (buff rl, head rl, limit rl).

(** [h] keeps, for every pool [key], the records [content key] (oldest
    first) in a log of limit [L], and has no log for a pool without
    records. *)
Definition stores (L : Z) (content : string -> list Record_) (h : History)
  : Prop :=
  logSizeLimit h = L
  /\ forall key : string,
       match logs h !! key with
       | Some rl => holds L (content key) rl /\ content key <> []
       | None => content key = []
       end.

(** The records listed for [key] among [pools], in order. *)
Definition gathered (key : string) (pools : list (string * list Record_))
  : list Record_ :=
  concat (omap (fun kv => if decide (kv.1 = key) then Some kv.2 else None) pools).

End history.

(** ** Package [foghorn]: the status reconciler *)

Module foghorn.
Import v1alpha1.

Definition defaultTargetURLTemplate : string :=
  "{{ .BaseURL }}/teams/{{ .Team }}/projects/{{ .Owner }}/{{ .Repository }}/{{ .Branch }}/{{ .Build }}".

Record ReportParams : Type := mkReportParams {
  BaseURL : string;
  Owner : string;
  Repository : string;
  Branch : string;
  Build : string;
  Context : string;
  Team : string
}.

Record reportStatusInfo : Type := mkInfo {
  scmStatus : scm.State;
  description : string;
  runningStages : string
}.

(** What a reconciliation does outside the process. *)
Inductive Event : Type :=
  | CallExternalPluginsWithActivityRecord
      (external : list string) (activity : ActivityRecord.t)
  | CreateStatus (owner repo sha : string) (input : scm.StatusInput.t)
  | Report (template : string) (job : LighthouseJob.t)
  | UpdateStatus (namespace : string) (job : LighthouseJob.t).

Definition is_CreateStatus (e : Event) : bool :=
  match e with CreateStatus _ _ _ _ => true | _ => false end.

(** What the controller reads from outside the process.  [os.Getenv]
    results are fields named after the variable; the others are named after
    the call they answer, with [None] or [false] for a returned error. *)
Record Env : Type := mkEnv {
  GIT_KIND : string;
  GIT_SERVER : string;
  GIT_TOKEN : string;
  GIT_USER : string;
  LIGHTHOUSE_REPORT_URL_BASE : string;
  LIGHTHOUSE_REPORT_URL_TEAM : string;
  GetGitHubAppSecretDir : string;
  FindToken : string -> option string;
  NewClient : string -> string -> string -> bool;
  ExternalPluginsForEvent : string -> string -> list string;
  executeTemplate : string -> ReportParams -> option string;
  CreateStatus_ok : string -> string -> string -> scm.StatusInput.t -> bool;
  (** [c.jobConfig.Config()]: [None] before the first configuration load;
      the value is [Plank.ReportTemplate]. *)
  jobConfig_Config : option string;
  UpdateStatus_ok : LighthouseJob.t -> bool
}.

Definition LighthousePayloadTypeActivity : string := "activity".

Section Controller.

(** [scm.ToState] of the client library. *)
Variable ToState : string -> scm.State.
(** [scm.State.String] of the client library. *)
Variable State_String : scm.State -> string.
(** [ActivityRecord.RunningStages] of package [v1alpha1]. *)
Variable RunningStages : ActivityRecord.t -> list string.
(** [strings.TrimRight] of the Go library. *)
Variable TrimRight : string -> string -> string.

Variable c : Env.

Definition gitKind : string :=
  if decide (GIT_KIND c = "") then "github" else GIT_KIND c.

Definition getReportURLBase : string := LIGHTHOUSE_REPORT_URL_BASE c.
Definition getReportURLTeam : string := LIGHTHOUSE_REPORT_URL_TEAM c.

(** [createSCMToken]: [None] for the error. *)
Definition createSCMToken (gitKind : string) : option string :=
  if decide (GIT_TOKEN c = "") then None else Some (GIT_TOKEN c).

(** [createSCMClient]: [true] when a client comes back without error. *)
Definition createSCMClient (owner : string) : bool :=
  let kind := gitKind in
  let serverURL := GIT_SERVER c in
  let ghaSecretDir := GetGitHubAppSecretDir c in
  let token :=
    if decide (ghaSecretDir <> "") then FindToken c owner
    else createSCMToken kind in
  match token with
  | None => false
  | Some token => NewClient c kind serverURL token
  end.

(** [createReportTargetURL]: the template is parsed and run by the Go
    library ([executeTemplate]); every failure yields the empty string. *)
Definition createReportTargetURL (templateText : string) (params : ReportParams)
  : string :=
  match executeTemplate c templateText params with
  | Some url => url
  | None => ""
  end.

(** [toScmStatusDescriptionRunningStages]. *)
Definition toScmStatusDescriptionRunningStages
  (activity : ActivityRecord.t) (gitKind : string) : reportStatusInfo :=
  let st := ActivityRecord.Status activity in
  let info :=
    if decide (st = SuccessState) then
      {| scmStatus := scm.StateSuccess; description := "Pipeline successful";
         runningStages := "" |}
    else if decide (st = RunningState \/ st = PendingState) then
      {| scmStatus := scm.StateRunning; description := "Pipeline running";
         runningStages := "" |}
    else if decide (st = AbortedState) then
      {| scmStatus := scm.StateError; description := "Error executing pipeline";
         runningStages := "" |}
    else if decide (st = FailureState) then
      {| scmStatus := scm.StateFailure; description := "Pipeline failed";
         runningStages := "" |}
    else
      {| scmStatus := scm.StateUnknown; description := "Pipeline in unknown state";
         runningStages := "" |} in
  let running := RunningStages activity in
  if (0 <? Z.of_nat (length running)) && negb (bool_decide (gitKind = "gitlab")) then
    let d := ("Pipeline running stage(s): " ++ Join running ", ")%string in
    let d := if 63 <? Z.of_nat (String.length d)
             then (slice_to d 59 ++ "...")%string else d in
    {| scmStatus := scmStatus info; description := d;
       runningStages := Join running "," |}
  else info.

(** [updateJobStatusForActivity].  [CompletionTime] is a pointer: the job
    takes the activity's when that one is not nil. *)
Definition updateJobStatusForActivity
  (activity : ActivityRecord.t) (job : LighthouseJob.t) : LighthouseJob.t :=
  let s := LighthouseJob.Status job in
  let state :=
    if decide (ActivityRecord.Status activity <> LighthouseJobStatus.State s)
    then ActivityRecord.Status activity else LighthouseJobStatus.State s in
  let sha :=
    if decide (ActivityRecord.LastCommitSHA activity
               <> LighthouseJobStatus.LastCommitSHA s)
    then ActivityRecord.LastCommitSHA activity
    else LighthouseJobStatus.LastCommitSHA s in
  let done :=
    match ActivityRecord.CompletionTime activity with
    | Some t => Some t
    | None => LighthouseJobStatus.CompletionTime s
    end in
  LighthouseJob.mk (LighthouseJob.Name job) (LighthouseJob.Labels job)
    (LighthouseJob.Spec job)
    (LighthouseJobStatus.mk state (LighthouseJobStatus.ActivityName s)
       (LighthouseJobStatus.StartTime s) done sha
       (LighthouseJobStatus.LastReportState s)
       (LighthouseJobStatus.Description s) (LighthouseJobStatus.ReportURL s)
       (LighthouseJobStatus.Activity s)).

(** The states after which [reportStatus] reports nothing more. *)
Definition completed (st : scm.State) : bool :=
  match st with
  | scm.StateFailure | scm.StateError | scm.StateSuccess | scm.StateCanceled => true
  | _ => false
  end.

(** The assignments that end [reportStatus]. *)
Definition recordReport (job : LighthouseJob.t) (target : string)
  (info : reportStatusInfo) : LighthouseJob.t :=
  let s := LighthouseJob.Status job in
  LighthouseJob.mk (LighthouseJob.Name job) (LighthouseJob.Labels job)
    (LighthouseJob.Spec job)
    (LighthouseJobStatus.mk (LighthouseJobStatus.State s)
       (LighthouseJobStatus.ActivityName s) (LighthouseJobStatus.StartTime s)
       (LighthouseJobStatus.CompletionTime s) (LighthouseJobStatus.LastCommitSHA s)
       (State_String (scmStatus info)) (description info)
       (if decide (target <> "") then target else LighthouseJobStatus.ReportURL s)
       (LighthouseJobStatus.Activity s)).

(** [reportStatus]: the calls it makes, in order, and the job it leaves;
    the job is a [Panic] when the configuration is still nil at the point
    where the report template is read. *)
Definition reportStatus (ns : string) (activity : ActivityRecord.t)
  (job : LighthouseJob.t) : list Event * Res LighthouseJob.t :=
  let sha := ActivityRecord.LastCommitSHA activity in
  let owner := ActivityRecord.Owner activity in
  let repo := ActivityRecord.Repo activity in
  let gitURL := ActivityRecord.GitURL activity in
  let statusInfo := toScmStatusDescriptionRunningStages activity gitKind in
  let s := LighthouseJob.Status job in
  if decide (gitURL = "") then ([], Ok job)
  else if decide (sha = "") then ([], Ok job)
  else if decide (owner = "") then ([], Ok job)
  else if decide (repo = "") then ([], Ok job)
  else if decide (scmStatus statusInfo = scm.StateUnknown) then ([], Ok job)
  else if completed (ToState (LighthouseJobStatus.LastReportState s))
  then ([], Ok job)
  else if decide (ToState (LighthouseJobStatus.LastReportState s)
                    = scmStatus statusInfo
                  /\ LighthouseJobStatus.Description s = description statusInfo)
  then ([], Ok job)
  else
    let external :=
      ExternalPluginsForEvent c LighthousePayloadTypeActivity
        (owner ++ "/" ++ repo)%string in
    let ev_external :=
      if 0 <? Z.of_nat (length external)
      then [CallExternalPluginsWithActivityRecord external activity] else [] in
    let pipelineContext :=
      if decide (ActivityRecord.Context activity = "") then "jenkins-x"
      else ActivityRecord.Context activity in
    let urlBase := getReportURLBase in
    let target :=
      if decide (urlBase <> "") then
        let urlTeam := getReportURLTeam in
        let team := if decide (urlTeam <> "") then urlTeam else ns in
        let targetURL :=
          createReportTargetURL defaultTargetURLTemplate
            {| Owner := owner; Repository := repo;
               Branch := ActivityRecord.Branch activity;
               Build := ActivityRecord.BuildIdentifier activity;
               Context := pipelineContext;
               BaseURL := TrimRight urlBase "/"; Team := team |} in
        if HasPrefix targetURL "http://" || HasPrefix targetURL "https://"
        then targetURL else ""
      else "" in
    let gitRepoStatus :=
      scm.StatusInput.mk (scmStatus statusInfo) pipelineContext
        (description statusInfo) target in
    if negb (createSCMClient owner) then (ev_external, Ok job)
    else
      let ev_status :=
        (ev_external ++ [CreateStatus owner repo sha gitRepoStatus])%list in
      if negb (CreateStatus_ok c owner repo sha gitRepoStatus)
      then (ev_status, Ok job)
      else
        match jobConfig_Config c with
        | None => (ev_status, Panic NilDereference)
        | Some template =>
            ((ev_status ++ [Report template job])%list,
             Ok (recordReport job target statusInfo))
        end.

(** [cache.SplitMetaNamespaceKey] of the cluster client library: [None]
    for a key it rejects. *)
Variable SplitMetaNamespaceKey : string -> option (string * string).

(** [syncHandler] over the informer cache, a map from (namespace, name) to
    the cached job.  A lookup that misses is the lister's not-found error.
    The result is the calls made, the cache, and the error returned ([None]
    for nil).  [currentJob] points into the cache, so the assignment to its
    [Status] changes the cache whether or not [UpdateStatus] succeeds. *)
Definition syncHandler (cache : gmap (string * string) LighthouseJob.t)
  (key : string)
  : list Event * Res (gmap (string * string) LighthouseJob.t * option string) :=
  match SplitMetaNamespaceKey key with
  | None => ([], Ok (cache, None))
  | Some (namespace, name) =>
      match cache !! (namespace, name) with
      | None => ([], Ok (cache, None))
      | Some job =>
          match LighthouseJobStatus.Activity (LighthouseJob.Status job) with
          | None => ([], Ok (cache, None))
          | Some activityRecord =>
              let jobCopy := updateJobStatusForActivity activityRecord job in
              match reportStatus namespace activityRecord jobCopy with
              | (evs, Panic p) => (evs, Panic p)
              | (evs, Ok jobCopy) =>
                  match cache !! (namespace, LighthouseJob.Name jobCopy) with
                  | None => (evs, Ok (cache, Some "not found"))
                  | Some currentJob =>
                      if decide (LighthouseJob.Status currentJob
                                 <> LighthouseJob.Status jobCopy) then
                        let currentJob :=
                          LighthouseJob.mk (LighthouseJob.Name currentJob)
                            (LighthouseJob.Labels currentJob)
                            (LighthouseJob.Spec currentJob)
                            (LighthouseJob.Status jobCopy) in
                        let cache :=
                          <[(namespace, LighthouseJob.Name jobCopy) := currentJob]>
                            cache in
                        ((evs ++ [UpdateStatus namespace currentJob])%list,
                         Ok (cache,
                             if UpdateStatus_ok c currentJob then None
                             else Some "update failed"))
                      else (evs, Ok (cache, None))
                  end
              end
          end
      end
  end.

End Controller.

(** *** Runs of reconciliations of one job *)

Section Reconciliations.

Variable ToState : string -> scm.State.
Variable State_String : scm.State -> string.
Variable RunningStages : ActivityRecord.t -> list string.
Variable TrimRight : string -> string -> string.

(** What [syncHandler] does to its copy of the job: the projection of the
    activity, then the report. *)
Definition reconcile (c : Env) (ns : string) (activity : ActivityRecord.t)
  (job : LighthouseJob.t) : list Event * Res LighthouseJob.t :=
  reportStatus ToState State_String RunningStages TrimRight c ns activity
    (updateJobStatusForActivity activity job).

(** The values [LastReportState] takes along a run of reconciliations, each
    with its environment, namespace and activity, up to a panic. *)
Fixpoint report_states (steps : list (Env * string * ActivityRecord.t))
  (job : LighthouseJob.t) : list string :=
  match steps with
  | [] => []
  | (c, ns, activity) :: steps' =>
      match reconcile c ns activity job with
      | (_, Ok job') =>
          LighthouseJobStatus.LastReportState (LighthouseJob.Status job')
          :: report_states steps' job'
      | (_, Panic _) => []
      end
  end.

(** The calls made along the run. *)
Fixpoint report_events (steps : list (Env * string * ActivityRecord.t))
  (job : LighthouseJob.t) : list Event :=
  match steps with
  | [] => []
  | (c, ns, activity) :: steps' =>
      match reconcile c ns activity job with
      | (evs, Ok job') => (evs ++ report_events steps' job')%list
      | (evs, Panic _) => evs
      end
  end.

(** How often the value changes to one that reads as completed. *)
Fixpoint arrivals (prev : string) (states : list string) : nat :=
  match states with
  | [] => 0%nat
  | s :: states' =>
      ((if negb (bool_decide (s = prev)) && completed (ToState s)
        then 1 else 0) + arrivals s states')%nat
  end.

End Reconciliations.

(** *** The worker *)

(** An item off the work queue: a key, or something that is no string. *)
Inductive Item : Type :=
  | item_key (key : string)
  | item_other.

(** The calls made on the work queue. *)
Inductive QueueOp : Type :=
  | queue_Done (obj : Item)
  | queue_Forget (obj : Item)
  | queue_AddRateLimited (key : string).

Definition done_of (op : QueueOp) : option Item :=
  match op with queue_Done obj => Some obj | _ => None end.

(** The items taken off the queue before it shuts down, for the answers
    [gets] of [c.queue.Get()] ([None] for a queue that is shut down). *)
Fixpoint before_shutdown (gets : list (option Item)) : list Item :=
  match gets with
  | Some obj :: gets' => obj :: before_shutdown gets'
  | _ => []
  end.

Section Worker.

Variable ToState : string -> scm.State.
Variable State_String : scm.State -> string.
Variable RunningStages : ActivityRecord.t -> list string.
Variable TrimRight : string -> string -> string.
Variable c : Env.
Variable SplitMetaNamespaceKey : string -> option (string * string).

(** [processNextWorkItem]; [got] is the answer of [c.queue.Get()].  The
    result is the calls of the reconciliation, the calls on the queue, and
    the cache with the value returned.  [Done] is deferred, so it is called
    last, also when [syncHandler] panics. *)
Definition processNextWorkItem (cache : gmap (string * string) LighthouseJob.t)
  (got : option Item)
  : list Event * list QueueOp
    * Res (gmap (string * string) LighthouseJob.t * bool) :=
  match got with
  | None => ([], [], Ok (cache, false))
  | Some obj =>
      match obj with
      | item_other => ([], [queue_Forget obj; queue_Done obj], Ok (cache, true))
      | item_key key =>
          match
            syncHandler ToState State_String RunningStages TrimRight c
              SplitMetaNamespaceKey cache key
          with
          | (evs, Panic p) => (evs, [queue_Done obj], Panic p)
          | (evs, Ok (cache', Some err)) =>
              (evs, [queue_AddRateLimited key; queue_Done obj], Ok (cache', true))
          | (evs, Ok (cache', None)) =>
              (evs, [queue_Forget obj; queue_Done obj], Ok (cache', true))
          end
      end
  end.

(** [runWorker], for the answers [gets] of the queue; the worker waits when
    they are used up. *)
Fixpoint runWorker (cache : gmap (string * string) LighthouseJob.t)
  (gets : list (option Item))
  : list Event * list QueueOp * Res (gmap (string * string) LighthouseJob.t) :=
  match gets with
  | [] => ([], [], Ok cache)
  | got :: gets' =>
      match processNextWorkItem cache got with
      | (evs, ops, Panic p) => (evs, ops, Panic p)
      | (evs, ops, Ok (cache', false)) => (evs, ops, Ok cache')
      | (evs, ops, Ok (cache', true)) =>
          let '(evs', ops', r) := runWorker cache' gets' in
          ((evs ++ evs')%list, (ops ++ ops')%list, r)
      end
  end.

End Worker.

End foghorn.

(** ** Package [webhook]: the HTTP front door *)

Module webhook.

Definition HealthPath : string := "/health".
Definition ReadyPath : string := "/ready".

Definition StatusOK : Z := 200.
Definition StatusNoContent : Z := 204.
Definition StatusInternalServerError : Z := 500.
Definition StatusServiceUnavailable : Z := 503.

(** [http.ResponseWriter]: [code] is [None] until the header is written. *)
Record ResponseWriter : Type := mkResponse {
  code : option Z;
  body : string
}.

Definition fresh : ResponseWriter := {| code := None; body := "" |}.

(** The first [WriteHeader] wins. *)
Definition WriteHeader (w : ResponseWriter) (statusCode : Z) : ResponseWriter :=
  match code w with
  | None => {| code := Some statusCode; body := body w |}
  | Some _ => w
  end.

(** [Write] sends the header with 200 when none was written. *)
Definition Write (w : ResponseWriter) (data : string) : ResponseWriter :=
  let w := WriteHeader w StatusOK in
  {| code := code w; body := (body w ++ data)%string |}.

(** [http.Error]: the status line, then the message and a newline. *)
Definition http_Error (w : ResponseWriter) (error : string) (statusCode : Z)
  : ResponseWriter :=
  Write (WriteHeader w statusCode) (error ++ String "010"%char "")%string.

(** The status the client sees once the handler has returned. *)
Definition status (w : ResponseWriter) : Z := default StatusOK (code w).

(** The dynamic type of a parsed [scm.Webhook]. *)
Inductive Hook : Type :=
  | PingHook
  | PushHook
  | PullRequestHook
  | BranchHook
  | IssueCommentHook
  | PullRequestCommentHook
  | ReviewHook
  | OtherHook.

Record Webhook : Type := mkWebhook {
  hook : Hook;
  Repository : scm.Repository.t;
  Kind : string
}.

(** The parts of the core configuration the front door reads. *)
Record Config : Type := mkConfig {
  GetPostsubmits : scm.Repository.t -> list string;
  GetPresubmits : scm.Repository.t -> list string
}.

(** [Server]: [ConfigAgent] is [None] for a nil agent and [Some None] for an
    agent whose [Config()] is still nil; [Plugins] holds the plugin
    configuration once one was loaded. *)
Record Server (PluginConfiguration : Type) : Type := mkServer {
  ConfigAgent : option (option Config);
  Plugins : option PluginConfiguration
}.
Arguments ConfigAgent {PluginConfiguration} _.
Arguments Plugins {PluginConfiguration} _.

Inductive ParseResult : Type :=
  | ParseError (err : string)
  | ParseNil
  | Parsed (webhook : Webhook).

Record Request : Type := mkRequest {
  Method : string;
  URL_Path : string;
  (** [ioutil.ReadAll(r.Body)] and [r.Body.Close()]: the error, if any. *)
  ReadAll_err : option string;
  Close_err : option string;
  Body : string
}.

(** What the handlers of [Server] do with an event. *)
Inductive Effect : Type :=
  | PluginHandler (name : string)
  | CreateLighthouseJob (job : string).

Inductive Event : Type :=
  | SetCredentials (user token : string)
  | HandleEvent (webhook : Webhook)
  | Internal (e : Effect)
  | CallExternalPluginsWithWebhook
      (external : list string) (webhook : Webhook) (hmacToken : string).

Definition is_internal (e : Event) : bool :=
  match e with HandleEvent _ | Internal _ => true | _ => false end.

(** What the front door reads from outside the process; the error of a call
    is [Some] text or [inl] text. *)
Record Env : Type := mkEnv {
  GIT_KIND : string;
  GIT_SERVER : string;
  GIT_TOKEN : string;
  GIT_USER : string;
  HMAC_TOKEN : string;
  GetGitHubAppSecretDir : string;
  GetGitHubAppAPIUser : string + string;
  (** The constant [util.GitHubAppGitRemoteUsername]. *)
  GitHubAppGitRemoteUsername : string;
  NewClient_err : string -> string -> string -> option string;
  Webhooks_Parse : Request -> string -> ParseResult;
  FindToken : string -> string + string;
  GetAPIClients_err : option string;
  version_Version : string
}.

Section Options.

Variable PluginConfiguration : Type.

(** [util.ExternalPluginsForEvent]: the external plugins of the plugin
    configuration that subscribe to an event kind for a repository. *)
Variable ExternalPluginsForEvent :
  option PluginConfiguration -> string -> string -> list string.

(** The handlers [HandlePushEvent], [HandlePullRequestEvent], ... of
    [Server]: the internal plugins they run and the jobs those launch. *)
Variable serverHandle : Webhook -> list Effect.

Variable e : Env.

Record Options : Type := mkOptions {
  Path : string;
  namespace : string;
  server : Server PluginConfiguration
}.

(** [health]. *)
Definition health (o : Options) (w : ResponseWriter) (r : Request)
  : ResponseWriter :=
  WriteHeader w StatusNoContent.

(** [isReady]. *)
Definition isReady (o : Options) : bool := true.

(** [ready]. *)
Definition ready (o : Options) (w : ResponseWriter) (r : Request)
  : ResponseWriter :=
  if isReady o then WriteHeader w StatusNoContent
  else WriteHeader w StatusServiceUnavailable.

Definition gitKind : string :=
  if decide (GIT_KIND e = "") then "github" else GIT_KIND e.

Definition hmacToken : string := HMAC_TOKEN e.

Definition GetBotName : string :=
  let fallback := if decide (GIT_USER e = "") then "jenkins-x-bot" else GIT_USER e in
  if decide (GetGitHubAppSecretDir e <> "") then
    match GetGitHubAppAPIUser e with
    | inr ghaBotName => if decide (ghaBotName <> "") then ghaBotName else fallback
    | inl _ => fallback
    end
  else fallback.

Definition createSCMToken (gitKind : string) : string + string :=
  if decide (GIT_TOKEN e = "") then
    inl ("No token available for git kind " ++ gitKind
         ++ " at environment variable $GIT_TOKEN")%string
  else inr (GIT_TOKEN e).

(** [createSCMClient]: the server URL, or the error. *)
Definition createSCMClient : string + string :=
  match NewClient_err e gitKind (GIT_SERVER e) "" with
  | Some err => inl err
  | None => inr (GIT_SERVER e)
  end.

Definition responseHTTPError (w : ResponseWriter) (statusCode : Z)
  (response : string) : ResponseWriter :=
  http_Error w response statusCode.

Definition dispatch (webhook : Webhook) : list Event :=
  HandleEvent webhook :: map Internal (serverHandle webhook).

(** [ProcessWebHook]: the calls made, the output, and the error. *)
Definition ProcessWebHook (o : Options) (webhook : Webhook)
  : list Event * string * option string :=
  let repository := Repository webhook in
  match hook webhook with
  | PingHook => ([], ("pong from lighthouse " ++ version_Version e)%string, None)
  | h =>
      let unconfigured :=
        if decide (GetGitHubAppSecretDir e <> "") then
          match ConfigAgent (server o) with
          | Some (Some cfg) =>
              (Z.of_nat (length (GetPostsubmits cfg repository)) =? 0)
              && (Z.of_nat (length (GetPresubmits cfg repository)) =? 0)
          | _ => false
          end
        else false in
      if unconfigured then
        ([], "",
         Some ("repository not configured: " ++ scm.Repository.Link repository)%string)
      else
        match h with
        | PushHook => (dispatch webhook, "processed push hook", None)
        | PullRequestHook => (dispatch webhook, "processed PR hook", None)
        | BranchHook => (dispatch webhook, "processed branch hook", None)
        | IssueCommentHook =>
            (dispatch webhook, "processed issue comment hook", None)
        | PullRequestCommentHook =>
            (dispatch webhook, "processed PR comment hook", None)
        | ReviewHook => (dispatch webhook, "processed PR review hook", None)
        | _ => ([], ("unknown hook " ++ Kind webhook)%string, None)
        end
  end.

(** [handleWebHookRequests].  When [GetAPIClients] fails the handler writes
    the 500 and goes on; the clients are nil then, and the use of
    [lhClient] panics. *)
Definition handleWebHookRequests (o : Options) (w : ResponseWriter)
  (r : Request) : list Event * Res ResponseWriter :=
  let ise := "500 Internal Server Error: " in
  if decide (Method r <> "POST") then ([], Ok w)
  else
    match ReadAll_err r with
    | Some err =>
        ([], Ok (responseHTTPError w StatusInternalServerError
                   (ise ++ "Read Body: " ++ err)%string))
    | None =>
    match Close_err r with
    | Some err =>
        ([], Ok (responseHTTPError w StatusInternalServerError
                   (ise ++ "Read Close: " ++ err)%string))
    | None =>
    match createSCMClient with
    | inl err =>
        ([], Ok (responseHTTPError w StatusInternalServerError
                   (ise ++ "Failed to parse webhook: " ++ err)%string))
    | inr serverURL =>
    match Webhooks_Parse e r hmacToken with
    | ParseError err =>
        ([], Ok (responseHTTPError w StatusInternalServerError
                   (ise ++ "Failed to parse webhook: " ++ err)%string))
    | ParseNil =>
        ([], Ok (responseHTTPError w StatusInternalServerError
                   (ise ++ "No webhook could be parsed")%string))
    | Parsed webhook =>
    let ghaSecretDir := GetGitHubAppSecretDir e in
    let credentials :=
      if decide (ghaSecretDir <> "") then
        match FindToken e (scm.Repository.Namespace (Repository webhook)) with
        | inl err => inl (ise ++ "failed to read owner token: " ++ err)%string
        | inr token => inr (GitHubAppGitRemoteUsername e, token)
        end
      else
        match createSCMToken gitKind with
        | inl err => inl (ise ++ "no scm token specified: " ++ err)%string
        | inr token => inr (GetBotName, token)
        end in
    match credentials with
    | inl response =>
        ([], Ok (responseHTTPError w StatusInternalServerError response))
    | inr (gitCloneUser, token) =>
    match GetAPIClients_err e with
    | Some err => ([SetCredentials gitCloneUser token], Panic NilDereference)
    | None =>
        let '(evs, output, err) := ProcessWebHook o webhook in
        let w :=
          match err with
          | Some err =>
              responseHTTPError w StatusInternalServerError (ise ++ err)%string
          | None => w
          end in
        let external :=
          ExternalPluginsForEvent (Plugins (server o)) (Kind webhook)
            (scm.Repository.FullName (Repository webhook)) in
        let ev_external :=
          if 0 <? Z.of_nat (length external)
          then [CallExternalPluginsWithWebhook external webhook hmacToken]
          else [] in
        ((SetCredentials gitCloneUser token :: evs ++ ev_external)%list,
         Ok (Write w output))
    end end end end end end.

(** [defaultHandler]. *)
Definition defaultHandler (o : Options) (w : ResponseWriter) (r : Request)
  : list Event * Res ResponseWriter :=
  let path := URL_Path r in
  if bool_decide (path = Path o) || HasPrefix path (Path o ++ "/")%string then
    handleWebHookRequests o w r
  else
    let path := TrimPrefix path "/" in
    if bool_decide (path = "") || bool_decide (path = "index.html") then
      ([], Ok w)
    else ([], Ok (http_Error w ("unknown path " ++ path)%string 404)).

End Options.

Arguments defaultHandler {PluginConfiguration} _ _ _ _ _ _.
Arguments mkOptions {PluginConfiguration} _ _ _.
Arguments Path {PluginConfiguration} _.
Arguments namespace {PluginConfiguration} _.
Arguments server {PluginConfiguration} _.
Arguments health {PluginConfiguration} _ _ _.
Arguments isReady {PluginConfiguration} _.
Arguments ready {PluginConfiguration} _ _ _.
Arguments ProcessWebHook {PluginConfiguration} _ _ _ _.
Arguments handleWebHookRequests {PluginConfiguration} _ _ _ _ _ _.

End webhook.

(** ** Package [launcher] *)

Module launcher.
Import v1alpha1.

(** [metapipeline.PipelineKind] of the pipeline engine client. *)
Inductive PipelineKind : Type :=
  | ReleasePipeline
  | PullRequestPipeline.

Record PullRequestRef : Type := mkPullRequestRef {
  ID : string;
  MergeSHA : string
}.

(** [metapipeline.PullRef], as its two constructors fill it. *)
Record PullRef : Type := mkPullRef {
  sourceURL : string;
  baseBranch : string;
  baseSHA : string;
  pullRequests : list PullRequestRef
}.

Definition NewPullRef (sourceURL baseBranch baseSHA : string) : PullRef :=
  {| sourceURL := sourceURL; baseBranch := baseBranch; baseSHA := baseSHA;
     pullRequests := [] |}.

Definition NewPullRefWithPullRequest (sourceURL baseBranch baseSHA : string)
  (prs : list PullRequestRef) : PullRef :=
  {| sourceURL := sourceURL; baseBranch := baseBranch; baseSHA := baseSHA;
     pullRequests := prs |}.

Record PipelineCreateParam : Type := mkParam {
  PullRef_ : PullRef;
  PipelineKind_ : PipelineKind;
  Context : string;
  ServiceAccount : string;
  DefaultImage : string;
  EnvVariables : gmap string string
}.

(** The fields of the log entry written before the pipeline is created. *)
Record LogFields : Type := mkLogFields {
  Owner : string;
  Name : string;
  SourceURL : string;
  Branch : string;
  PullRefs : string;
  Job : string
}.

Record PipelineActivityKey : Type := mkKey {
  KeyName : string;
  KeyBuild : string
}.

Inductive Event : Type :=
  | Info (fields : LogFields)
  | metapipeline_Create (param : PipelineCreateParam)
  | WriteFile (filename : string) (job : LighthouseJob.t)
  | LighthouseJobs_Create (namespace : string) (job : LighthouseJob.t)
  | metapipeline_Apply (key : PipelineActivityKey).

(** What the launcher reads from outside the process; the result of a call
    is [inl] the error text when it fails. *)
Record Env : Type := mkEnv {
  JX_SERVICE_ACCOUNT : string;
  Now : Time;
  Create : PipelineCreateParam -> string + PipelineActivityKey;
  Create_job : LighthouseJob.t -> string + LighthouseJob.t;
  Apply_err : PipelineActivityKey -> option string
}.

Section Launcher.

(** [PullRef.String] of the pipeline engine client. *)
Variable PullRef_String : PullRef -> string.
(** [LighthouseJobSpec.GetEnvVars] of package [v1alpha1]. *)
Variable GetEnvVars : LighthouseJobSpec.t -> gmap string string.
(** [util.ToValidName] and the constant [util.BuildNumLabel]. *)
Variable ToValidName : string -> string.
Variable BuildNumLabel : string.

Variable e : Env.

(** The launcher's own [namespace]. *)
Variable namespace : string.

(** [getBranch], for a spec whose [Refs] is [refs]. *)
Definition getBranch (spec : LighthouseJobSpec.t) (refs : Refs.t) : string :=
  let branch := Refs.BaseRef refs in
  if decide (LighthouseJobSpec.Type_ spec = PostsubmitJob) then branch
  else if decide (LighthouseJobSpec.Type_ spec = BatchJob) then "batch"
  else
    match Refs.Pulls refs with
    | p :: _ => ("PR-" ++ Itoa (Number p))%string
    | [] => branch
    end.

(** [getPullRefs], for a spec whose [Refs] is [refs]. *)
Definition getPullRefs (sourceURL : string) (spec : LighthouseJobSpec.t)
  (refs : Refs.t) : PullRef :=
  if 0 <? Z.of_nat (length (Refs.Pulls refs)) then
    let prs :=
      map (fun pull => {| ID := Itoa (Number pull); MergeSHA := SHA pull |})
          (Refs.Pulls refs) in
    NewPullRefWithPullRequest sourceURL (Refs.BaseRef refs) (Refs.BaseSHA refs) prs
  else NewPullRef sourceURL (Refs.BaseRef refs) (Refs.BaseSHA refs).

(** The branch [Launch] settles on. *)
Definition launchBranch (spec : LighthouseJobSpec.t) (refs : Refs.t)
  (repository : scm.Repository.t) : string :=
  let branch := getBranch spec refs in
  let branch :=
    if decide (branch = "") then scm.Repository.Branch repository else branch in
  if decide (branch = "") then "master" else branch.

(** The pipeline kind [Launch] settles on. *)
Definition launchKind (refs : Refs.t) : PipelineKind :=
  if 0 <? Z.of_nat (length (Refs.Pulls refs)) then PullRequestPipeline
  else ReleasePipeline.

(** [Launch]: the calls made, then the job and the error returned.  A nil
    [Refs] panics at the first read of [spec.Refs.Pulls], a nil [Labels] at
    the assignment of the build number. *)
Definition Launch (request : LighthouseJob.t) (repository : scm.Repository.t)
  : list Event * Res (option LighthouseJob.t * option string) :=
  let spec := LighthouseJob.Spec request in
  match LighthouseJobSpec.Refs spec with
  | None => ([], Panic NilDereference)
  | Some refs =>
      let name := scm.Repository.Name repository in
      let owner := scm.Repository.Namespace repository in
      let sourceURL := scm.Repository.Clone repository in
      let pullRefData := getPullRefs sourceURL spec refs in
      let pullRefs :=
        if 0 <? Z.of_nat (length (Refs.Pulls refs))
        then PullRef_String pullRefData else "" in
      let branch := launchBranch spec refs repository in
      let pullRefs :=
        if decide (pullRefs = "") then (branch ++ ":")%string else pullRefs in
      let job := LighthouseJobSpec.Job spec in
      let kind := launchKind refs in
      let l :=
        Info {| Owner := owner; Name := name; SourceURL := sourceURL;
                Branch := branch; PullRefs := pullRefs; Job := job |} in
      let sa :=
        if decide (JX_SERVICE_ACCOUNT e = "") then "tekton-bot"
        else JX_SERVICE_ACCOUNT e in
      let pipelineCreateParam :=
        {| PullRef_ := pullRefData; PipelineKind_ := kind;
           Context := LighthouseJobSpec.Context spec; ServiceAccount := sa;
           DefaultImage := ""; EnvVariables := GetEnvVars spec |} in
      let evs := [l; metapipeline_Create pipelineCreateParam] in
      match Create e pipelineCreateParam with
      | inl err =>
          (evs, Ok (None, Some ("unable to create Tekton CRDs: " ++ err)%string))
      | inr activityKey =>
          match LighthouseJob.Labels request with
          | None => (evs, Panic NilMapAssignment)
          | Some labels =>
              let request :=
                LighthouseJob.mk (LighthouseJob.Name request)
                  (Some (<[BuildNumLabel := KeyBuild activityKey]> labels))
                  spec
                  (LighthouseJobStatus.mk PendingState
                     (ToValidName (KeyName activityKey)) (Some (Now e)) None
                     "" "" "" "" None) in
              let evs :=
                (evs ++ [WriteFile ("/tmp/lhj-" ++ LighthouseJob.Name request
                                    ++ "-no-status.yaml")%string request;
                         LighthouseJobs_Create namespace request])%list in
              match Create_job e request with
              | inl err =>
                  (evs, Ok (None, Some ("unable to apply LighthouseJob: " ++ err)%string))
              | inr appliedJob =>
                  let evs := (evs ++ [metapipeline_Apply activityKey])%list in
                  match Apply_err e activityKey with
                  | Some err =>
                      (evs, Ok (None, Some ("unable to apply Tekton CRDs: " ++ err)%string))
                  | None => (evs, Ok (Some appliedJob, None))
                  end
              end
          end
      end
  end.

End Launcher.

(** The fields of a [PipelineActivity] of the pipeline engine that
    [ToLighthouseJob] reads; [ObjectMeta] is its name and labels. *)
Record PipelineActivity : Type := mkActivity {
  ObjectMeta_Name : string;
  ObjectMeta_Labels : option (gmap string string);
  Namespace : string;
  GitOwner : string;
  GitRepository : string;
  GitURL : string;
  BaseSHA : string;
  GitBranch : string;
  ComprisingPulLRequests : list string;
  LastCommitSHA : string;
  LastCommitURL : string;
  PullTitle : string;
  Pipeline : string;
  Context_ : string;
  Status : string
}.

Section Conversion.

(** [v1alpha1.ToPipelineState]. *)
Variable ToPipelineState : string -> PipelineState.

(** [ToLighthouseJob]. *)
Definition ToLighthouseJob (activity : PipelineActivity) : LighthouseJob.t :=
  let baseRef := "master" in
  let kind :=
    if decide (GitBranch activity = "master") then PostsubmitJob
    else if 0 <? Z.of_nat (length (ComprisingPulLRequests activity))
         then BatchJob
         else PresubmitJob in
  let pulls :=
    if HasPrefix (GitBranch activity) "PR-" then
      let nt := TrimPrefix (GitBranch activity) "PR-" in
      if decide (nt <> "") then
        match Atoi nt with
        | Some n =>
            [ {| Number := n; SHA := LastCommitSHA activity;
                 Title := PullTitle activity;
                 Ref := ("pull/" ++ nt ++ "/head")%string;
                 Link := ""; AuthorLogin := "";
                 CommitLink := LastCommitURL activity |} ]
        | None => []
        end
      else []
    else [] in
  let ref :=
    {| Refs.Org := GitOwner activity; Refs.Repo := GitRepository activity;
       Refs.RepoLink := GitURL activity; Refs.BaseRef := baseRef;
       Refs.BaseSHA := BaseSHA activity; Refs.Pulls := pulls |} in
  {| LighthouseJob.Name := ObjectMeta_Name activity;
     LighthouseJob.Labels := ObjectMeta_Labels activity;
     LighthouseJob.Spec :=
       {| LighthouseJobSpec.Type_ := kind;
          LighthouseJobSpec.Namespace := Namespace activity;
          LighthouseJobSpec.Job := Pipeline activity;
          LighthouseJobSpec.Refs := Some ref;
          LighthouseJobSpec.Context := Context_ activity;
          LighthouseJobSpec.RerunCommand := "";
          LighthouseJobSpec.MaxConcurrency := 0 |};
     LighthouseJob.Status :=
       LighthouseJobStatus.mk (ToPipelineState (Status activity)) "" None None
         "" "" "" "" None |}.

(** The outcome of listing the activities of the namespace: the items, the
    not-found error, or another error. *)
Inductive ListResult : Type :=
  | Items (items : list PipelineActivity)
  | NotFound
  | Failed (err : string).

(** [List]: the jobs ([None] for a nil list) and the error. *)
Definition List_ (listed : ListResult)
  : option (list LighthouseJob.t) * option string :=
  match listed with
  | NotFound => (None, None)
  | Failed err => (None, Some err)
  | Items items => (Some (map ToLighthouseJob items), None)
  end.

End Conversion.

End launcher.

(** ** Package [scmprovider]: paged listings *)

Module scmprovider.

(** What the listings read of a [scm.Response]: [resp.Page.Last]. *)
Record Response : Type := mkResponse { Page_Last : Z }.

Section Paged.

Variable A : Type.

(** The list call of the SCM client for a page: the error, or the items of
    the page and the response ([None] for nil). *)
Variable list_page : Z -> string + (list A * option Response).

(** The loop of [ListReviews], entered with the page to ask for, [firstRun],
    the last response and the reviews so far.  [fuel] bounds the number of
    turns; [None] is a loop that has not ended within it. *)
Fixpoint ListReviews_loop (fuel : nat) (page : Z) (firstRun : bool)
  (resp : option Response) (allReviews : list A) : option (string + list A) :=
  if negb firstRun
     || match resp with
        | Some r => page <=? Page_Last r
        | None => false
        end
  then
    match fuel with
    | O => None
    | S fuel' =>
        match list_page page with
        | inl err => Some (inl err)
        | inr (reviews, resp') =>
            ListReviews_loop fuel' (wrap (page + 1)) true resp'
              (allReviews ++ reviews)
        end
    end
  else Some (inr allReviews).

(** [ListReviews]. *)
Definition ListReviews (fuel : nat) : option (string + list A) :=
  ListReviews_loop fuel 1 false None [].

(** The loop of [ListAllPullRequestsForFullNameRepo]. *)
Fixpoint ListAllPullRequests_loop (fuel : nat) (page : Z)
  (resp : option Response) (allPRs : list A) : option (string + list A) :=
  if match resp with
     | None => true
     | Some r => page <=? Page_Last r
     end
  then
    match fuel with
    | O => None
    | S fuel' =>
        match list_page page with
        | inl err => Some (inl err)
        | inr (pagePRs, resp') =>
            ListAllPullRequests_loop fuel' (wrap (page + 1)) resp'
              (allPRs ++ pagePRs)
        end
    end
  else Some (inr allPRs).

(** [ListAllPullRequestsForFullNameRepo], for the page [opts.Page] the
    caller passes. *)
Definition ListAllPullRequestsForFullNameRepo (fuel : nat) (page : Z)
  : option (string + list A) :=
  ListAllPullRequests_loop fuel page None [].

End Paged.

End scmprovider.

(** ** Sample inputs *)

Module Samples.
Import v1alpha1.

Definition pull (n : Z) (sha : string) : Pull :=
  {| Number := n; SHA := sha; Title := ""; Ref := ""; Link := "";
     AuthorLogin := ""; CommitLink := "" |}.

(** Three merges recorded for one pool and a trigger for another, read
    twice, in a history that keeps two records per pool. *)
Definition calls : list history.call :=
  [ history.call_Record 1 "org/repo:master" "MERGE" "d0" "" [pull 2 "b"; pull 1 "a"];
    history.call_AllRecords;
    history.call_Record 2 "org/repo:master" "MERGE" "d1" "" [pull 3 "c"];
    history.call_Record 3 "org/other:main" "TRIGGER" "e0" "" [pull 9 "z"];
    history.call_Record 4 "org/repo:master" "MERGE_BATCH" "d2" ""
      [pull 7 "g"; pull 5 "e"; pull 6 "f"];
    history.call_AllRecords ].

Definition record (t : Z) : history.Record_ :=
  {| history.Time_ := t; history.Action := "MERGE"; history.BaseSHA := "";
     history.Target := []; history.Err := "" |}.

(** A table for [scm.ToState] and one for [scm.State.String], to run the
    reconciler on. *)
Definition ToState (s : string) : scm.State :=
  if decide (s = "pending") then scm.StatePending
  else if decide (s = "running") then scm.StateRunning
  else if decide (s = "success") then scm.StateSuccess
  else if decide (s = "failure") then scm.StateFailure
  else if decide (s = "cancelled") then scm.StateCanceled
  else if decide (s = "error") then scm.StateError
  else if decide (s = "expected") then scm.StateExpected
  else scm.StateUnknown.

Definition State_String (s : scm.State) : string :=
  match s with
  | scm.StateUnknown => "unknown"
  | scm.StatePending => "pending"
  | scm.StateRunning => "running"
  | scm.StateSuccess => "success"
  | scm.StateFailure => "failure"
  | scm.StateCanceled => "cancelled"
  | scm.StateError => "error"
  | scm.StateExpected => "expected"
  end.

(** The names of the stages that are running. *)
Definition RunningStages (a : ActivityRecord.t) : list string :=
  map ActivityStageOrStep.Name
    (filter (fun st => ActivityStageOrStep.Status st = RunningState)
            (ActivityRecord.Stages a)).

(** No trailing cut set occurs in the sample URLs. *)
Definition TrimRight (s cutset : string) : string := s.

Definition stages (names : list string) : list ActivityStageOrStep.t :=
  map (fun n => ActivityStageOrStep.mk n RunningState) names.

Definition activity (st : PipelineState) (names : list string)
  : ActivityRecord.t :=
  {| ActivityRecord.Name := "org-repo-pr-7-1";
     ActivityRecord.Owner := "org";
     ActivityRecord.Repo := "repo";
     ActivityRecord.Branch := "PR-7";
     ActivityRecord.BuildIdentifier := "1";
     ActivityRecord.Context := "unit";
     ActivityRecord.GitURL := "https://github.com/org/repo.git";
     ActivityRecord.LastCommitSHA := "abc";
     ActivityRecord.Status := st;
     ActivityRecord.StartTime := Some 10;
     ActivityRecord.CompletionTime := None;
     ActivityRecord.Stages := stages names |}.

Definition spec : LighthouseJobSpec.t :=
  {| LighthouseJobSpec.Type_ := PresubmitJob;
     LighthouseJobSpec.Namespace := "jx";
     LighthouseJobSpec.Job := "unit";
     LighthouseJobSpec.Refs :=
       Some {| Refs.Org := "org"; Refs.Repo := "repo"; Refs.RepoLink := "";
               Refs.BaseRef := "master"; Refs.BaseSHA := "def";
               Refs.Pulls := [pull 7 "abc"] |};
     LighthouseJobSpec.Context := "unit";
     LighthouseJobSpec.RerunCommand := "/test unit";
     LighthouseJobSpec.MaxConcurrency := 0 |}.

(** A job in state [st] whose last report was [reported], carrying the
    activity [a]. *)
Definition job (st : PipelineState) (reported : string) (a : ActivityRecord.t)
  : LighthouseJob.t :=
  {| LighthouseJob.Name := "unit-1";
     LighthouseJob.Labels := Some ∅;
     LighthouseJob.Spec := spec;
     LighthouseJob.Status :=
       {| LighthouseJobStatus.State := st;
          LighthouseJobStatus.ActivityName := "org-repo-pr-7-1";
          LighthouseJobStatus.StartTime := Some 10;
          LighthouseJobStatus.CompletionTime := None;
          LighthouseJobStatus.LastCommitSHA := "abc";
          LighthouseJobStatus.LastReportState := reported;
          LighthouseJobStatus.Description := "";
          LighthouseJobStatus.ReportURL := "";
          LighthouseJobStatus.Activity := Some a |} |}.

(** A controller with a token, a loaded configuration, and an SCM provider
    that accepts every status. *)
Definition controller : foghorn.Env :=
  {| foghorn.GIT_KIND := "";
     foghorn.GIT_SERVER := "https://github.com";
     foghorn.GIT_TOKEN := "t0ken";
     foghorn.GIT_USER := "";
     foghorn.LIGHTHOUSE_REPORT_URL_BASE := "";
     foghorn.LIGHTHOUSE_REPORT_URL_TEAM := "";
     foghorn.GetGitHubAppSecretDir := "";
     foghorn.FindToken := fun _ => None;
     foghorn.NewClient := fun _ _ _ => true;
     foghorn.ExternalPluginsForEvent := fun _ _ => [];
     foghorn.executeTemplate := fun _ _ => None;
     foghorn.CreateStatus_ok := fun _ _ _ _ => true;
     foghorn.jobConfig_Config := Some "";
     foghorn.UpdateStatus_ok := fun _ => true |}.

(** The same controller in front of a cluster that refuses every update.
    *)
Definition refused : foghorn.Env :=
  {| foghorn.GIT_KIND := "";
     foghorn.GIT_SERVER := "https://github.com";
     foghorn.GIT_TOKEN := "t0ken";
     foghorn.GIT_USER := "";
     foghorn.LIGHTHOUSE_REPORT_URL_BASE := "";
     foghorn.LIGHTHOUSE_REPORT_URL_TEAM := "";
     foghorn.GetGitHubAppSecretDir := "";
     foghorn.FindToken := fun _ => None;
     foghorn.NewClient := fun _ _ _ => true;
     foghorn.ExternalPluginsForEvent := fun _ _ => [];
     foghorn.executeTemplate := fun _ _ => None;
     foghorn.CreateStatus_ok := fun _ _ _ _ => true;
     foghorn.jobConfig_Config := Some "";
     foghorn.UpdateStatus_ok := fun _ => false |}.

(** Keys of the form namespace/name, here for the one sample job. *)
Definition SplitMetaNamespaceKey (key : string) : option (string * string) :=
  if decide (key = "jx/unit-1") then Some ("jx", "unit-1") else None.

Definition repository (name : string) : scm.Repository.t :=
  {| scm.Repository.ID := "1";
     scm.Repository.Namespace := "org";
     scm.Repository.Name := name;
     scm.Repository.FullName := ("org/" ++ name)%string;
     scm.Repository.Branch := "main";
     scm.Repository.Clone := ("https://github.com/org/" ++ name ++ ".git")%string;
     scm.Repository.Link := ("https://github.com/org/" ++ name)%string |}.

(** A configuration with jobs for org/repo only. *)
Definition config : webhook.Config :=
  {| webhook.GetPostsubmits :=
       fun r => if decide (scm.Repository.FullName r = "org/repo")
                then ["release"] else [];
     webhook.GetPresubmits :=
       fun r => if decide (scm.Repository.FullName r = "org/repo")
                then ["unit"] else [] |}.

(** The external plugins of a plugin configuration, here subscribed to
    every event of every repository. *)
Definition ExternalPluginsForEvent (plugins : option (list string))
  (kind fullName : string) : list string :=
  default [] plugins.

(** Every handler runs the trigger plugin, which launches one job. *)
Definition serverHandle (w : webhook.Webhook) : list webhook.Effect :=
  [webhook.PluginHandler "trigger"; webhook.CreateLighthouseJob "unit"].

Definition ping : webhook.Webhook :=
  {| webhook.hook := webhook.PingHook;
     webhook.Repository := repository "unknown";
     webhook.Kind := "ping" |}.

Definition push (name : string) : webhook.Webhook :=
  {| webhook.hook := webhook.PushHook;
     webhook.Repository := repository name;
     webhook.Kind := "push" |}.

(** A front door in GitHub-App mode; the body of a request is "ping" for a
    ping of org/unknown, and otherwise the name of the repository pushed
    to. *)
Definition app : webhook.Env :=
  {| webhook.GIT_KIND := "";
     webhook.GIT_SERVER := "https://github.com";
     webhook.GIT_TOKEN := "";
     webhook.GIT_USER := "";
     webhook.HMAC_TOKEN := "s3cret";
     webhook.GetGitHubAppSecretDir := "/secrets/github-app";
     webhook.GetGitHubAppAPIUser := inr "lighthouse[bot]";
     webhook.GitHubAppGitRemoteUsername := "x-access-token";
     webhook.NewClient_err := fun _ _ _ => None;
     webhook.Webhooks_Parse :=
       fun r _ => if decide (webhook.Body r = "ping") then webhook.Parsed ping
                  else webhook.Parsed (push (webhook.Body r));
     webhook.FindToken := fun _ => inr "t0ken";
     webhook.GetAPIClients_err := None;
     webhook.version_Version := "0.0.1" |}.

Definition post (body : string) : webhook.Request :=
  {| webhook.Method := "POST"; webhook.URL_Path := "/hook";
     webhook.ReadAll_err := None; webhook.Close_err := None;
     webhook.Body := body |}.

(** Options before any configuration was loaded, and after both were. *)
Definition unloaded : webhook.Options (list string) :=
  webhook.mkOptions "/hook" "jx"
    {| webhook.ConfigAgent := Some None; webhook.Plugins := None |}.

Definition loaded (external : list string) : webhook.Options (list string) :=
  webhook.mkOptions "/hook" "jx"
    {| webhook.ConfigAgent := Some (Some config);
       webhook.Plugins := Some external |}.

Definition refs (baseRef : string) (pulls : list Pull) : Refs.t :=
  {| Refs.Org := "org"; Refs.Repo := "repo"; Refs.RepoLink := "";
     Refs.BaseRef := baseRef; Refs.BaseSHA := "def"; Refs.Pulls := pulls |}.

Definition spec_of (type : string) (r : Refs.t) : LighthouseJobSpec.t :=
  {| LighthouseJobSpec.Type_ := type;
     LighthouseJobSpec.Namespace := "jx";
     LighthouseJobSpec.Job := "unit";
     LighthouseJobSpec.Refs := Some r;
     LighthouseJobSpec.Context := "unit";
     LighthouseJobSpec.RerunCommand := "";
     LighthouseJobSpec.MaxConcurrency := 0 |}.

Definition request (type : string) (r : Refs.t) : LighthouseJob.t :=
  {| LighthouseJob.Name := "unit-1";
     LighthouseJob.Labels := Some ∅;
     LighthouseJob.Spec := spec_of type r;
     LighthouseJob.Status :=
       LighthouseJobStatus.mk "" "" None None "" "" "" "" None |}.

(** A pipeline engine and a cluster that accept everything. *)
Definition engine : launcher.Env :=
  {| launcher.JX_SERVICE_ACCOUNT := "";
     launcher.Now := 42;
     launcher.Create := fun _ => inr (launcher.mkKey "org-repo-pr-7-1" "1");
     launcher.Create_job := fun j => inr j;
     launcher.Apply_err := fun _ => None |}.

(** The pull refs in the form baseRef:baseSHA,id:sha,... *)
Definition PullRef_String (r : launcher.PullRef) : string :=
  Join ((launcher.baseBranch r ++ ":" ++ launcher.baseSHA r)%string
        :: map (fun pr => (launcher.ID pr ++ ":" ++ launcher.MergeSHA pr)%string)
               (launcher.pullRequests r)) ",".

Definition GetEnvVars (s : LighthouseJobSpec.t) : gmap string string :=
  {[ "JOB_NAME" := LighthouseJobSpec.Job s ]}.

Definition ToValidName (s : string) : string := s.

(** A front door outside GitHub-App mode, with a token and no bot name. *)
Definition bot : webhook.Env :=
  {| webhook.GIT_KIND := "";
     webhook.GIT_SERVER := "https://github.com";
     webhook.GIT_TOKEN := "t0ken";
     webhook.GIT_USER := "";
     webhook.HMAC_TOKEN := "s3cret";
     webhook.GetGitHubAppSecretDir := "";
     webhook.GetGitHubAppAPIUser := inl "no app";
     webhook.GitHubAppGitRemoteUsername := "x-access-token";
     webhook.NewClient_err := fun _ _ _ => None;
     webhook.Webhooks_Parse :=
       fun r _ => if decide (webhook.Body r = "ping") then webhook.Parsed ping
                  else webhook.Parsed (push (webhook.Body r));
     webhook.FindToken := fun _ => inl "no app";
     webhook.GetAPIClients_err := None;
     webhook.version_Version := "0.0.1" |}.

Definition get (path : string) : webhook.Request :=
  {| webhook.Method := "GET"; webhook.URL_Path := path;
     webhook.ReadAll_err := None; webhook.Close_err := None;
     webhook.Body := "" |}.

(** The activity of build 1 of a pipeline of org/repo on [branch]. *)
Definition pipelineActivity (branch : string) : launcher.PipelineActivity :=
  {| launcher.ObjectMeta_Name := "org-repo-1";
     launcher.ObjectMeta_Labels := Some ∅;
     launcher.Namespace := "jx";
     launcher.GitOwner := "org";
     launcher.GitRepository := "repo";
     launcher.GitURL := "https://github.com/org/repo.git";
     launcher.BaseSHA := "def";
     launcher.GitBranch := branch;
     launcher.ComprisingPulLRequests := [];
     launcher.LastCommitSHA := "abc";
     launcher.LastCommitURL := "https://github.com/org/repo/commit/abc";
     launcher.PullTitle := "a change";
     launcher.Pipeline := "org/repo/" ++ branch;
     launcher.Context_ := "unit";
     launcher.Status := "Running" |}%string.

Definition ToPipelineState (s : string) : PipelineState :=
  if decide (s = "Running") then RunningState else PendingState.

(** A pipeline engine that creates the pipeline and then fails to apply
    it. *)
Definition stalled : launcher.Env :=
  {| launcher.JX_SERVICE_ACCOUNT := "";
     launcher.Now := 42;
     launcher.Create := fun _ => inr (launcher.mkKey "org-repo-pr-7-1" "1");
     launcher.Create_job := fun j => inr j;
     launcher.Apply_err := fun _ => Some "timeout" |}.

(** A listing of three pages, one item a page; [broken] fails at page 2,
    [unpaged] answers every page without a response. *)
Definition pages (page : Z) : string + (list Z * option scmprovider.Response) :=
  inr ([page], Some {| scmprovider.Page_Last := 3 |}).

Definition broken (page : Z) : string + (list Z * option scmprovider.Response) :=
  if decide (page = 2) then inl "timeout" else pages page.

Definition unpaged (page : Z) : string + (list Z * option scmprovider.Response) :=
  inr ([page], None).

End Samples.

(** * Properties *)

(** ** Go run-time conventions *)

Module GoFacts.

Example wrap_max_succ : wrap (int_max + 1) = int_min.
Proof. reflexivity. Qed.

Example Itoa_samples :
  Itoa 7 = "7" /\ Itoa 0 = "0" /\ Itoa (-12) = "-12" /\ Itoa 340 = "340".
Proof. repeat split; reflexivity. Qed.

Lemma wrap_id (z : Z) : int_min <= z <= int_max -> wrap z = z.
Proof.
  unfold wrap, int_min, int_max. intros Hz.
  rewrite Z.mod_small; lia.
Qed.

Lemma rem_nonneg (a b : Z) :
  0 <= a <= int_max -> 0 < b -> rem a b = Ok (a mod b).
Proof.
  intros Ha Hb. unfold rem.
  destruct (Z.eqb_spec b 0) as [->|_]; [lia|].
  rewrite Z.rem_mod_nonneg by lia.
  pose proof (Z.mod_pos_bound a b Hb) as Hm.
  assert (a mod b <= a) by (apply Z.mod_le; lia).
  rewrite wrap_id; [reflexivity|]. unfold int_min, int_max in *. lia.
Qed.

Lemma index_lookup {A : Type} (s : list A) (i : nat) (a : A) :
  s !! i = Some a -> index s (Z.of_nat i) = Ok a.
Proof.
  intros Hi. unfold index.
  pose proof (lookup_lt_Some _ _ _ Hi) as Hlt.
  destruct (Z.leb_spec 0 (Z.of_nat i)); [|lia].
  destruct (Z.ltb_spec (Z.of_nat i) (Z.of_nat (length s))); [|lia].
  simpl. rewrite Nat2Z.id, Hi. reflexivity.
Qed.

Lemma assign_insert {A : Type} (s : list A) (i : nat) (a : A) :
  (i < length s)%nat -> assign s (Z.of_nat i) a = Ok (<[i := a]> s).
Proof.
  intros Hlt. unfold assign.
  destruct (Z.leb_spec 0 (Z.of_nat i)); [|lia].
  destruct (Z.ltb_spec (Z.of_nat i) (Z.of_nat (length s))); [|lia].
  simpl. rewrite Nat2Z.id. reflexivity.
Qed.

End GoFacts.

(** ** Package [history] *)

Module HistoryFacts.
Import v1alpha1 history GoFacts.
Local Open Scope list_scope.

Lemma slot_distinct (L n k : Z) :
  0 < L -> 0 <= k < n -> n - k < L -> k mod L <> n mod L.
Proof.
  intros HL Hk Hd Heq.
  assert (Hz : (n - k) mod L = 0).
  { rewrite Zminus_mod, Heq, Z.sub_diag. apply Z.mod_0_l. lia. }
  rewrite Z.mod_small in Hz; lia.
Qed.

Lemma holds_new (L : Z) : 1 <= L -> holds L [] (newRecordLog L).
Proof.
  intros HL. unfold holds, newRecordLog; simpl.
  repeat split; try lia; auto;
    intros k r Hk; rewrite lookup_nil in Hk; discriminate.
Qed.

Lemma holds_head_succ (L : Z) (recs : list Record_) (rl : recordLog) :
  1 <= L <= int_max -> holds L recs rl ->
  rem (wrap (head rl + 1)) (limit rl) = Ok (Z.of_nat (length recs) mod L).
Proof.
  intros HL (Hlim & _ & Hhead & _). rewrite Hlim, Hhead.
  destruct (decide (recs = [])) as [->|Hne].
  - simpl. rewrite wrap_id by (unfold int_min, int_max; lia).
    apply rem_nonneg; unfold int_max in *; lia.
  - pose proof (Z.mod_pos_bound (Z.of_nat (length recs) - 1) L ltac:(lia)) as Hb.
    rewrite wrap_id by (unfold int_min, int_max in *; lia).
    rewrite rem_nonneg by (unfold int_max in *; lia).
    rewrite Zplus_mod_idemp_l. do 2 f_equal. lia.
Qed.

Lemma holds_add (L : Z) (recs : list Record_) (rl : recordLog) (r : Record_) :
  1 <= L <= int_max -> holds L recs rl ->
  exists rl', add rl r = Ok rl' /\ holds L (recs ++ [r]) rl'.
Proof.
  intros HL Hh. pose proof (holds_head_succ L recs rl HL Hh) as Hrem.
  destruct Hh as (Hlim & Hlen & Hhead & Hslots & _).
  unfold add. rewrite Hrem. cbn [bind]. rewrite Hlim.
  set (n := length recs) in *.
  assert (Hne : recs ++ [r] <> []) by (destruct recs; discriminate).
  assert (Hn' : Z.of_nat (length (recs ++ [r])) = Z.of_nat n + 1)
    by (rewrite length_app; simpl; lia).
  pose proof (Z.mod_pos_bound (Z.of_nat n) L ltac:(lia)) as Hb.
  destruct (Z.ltb_spec (Z.of_nat (length (buff rl))) L) as [Hlt|Hge].
  - (* the log is not yet full *)
    assert (Hbn : length (buff rl) = n) by lia.
    eexists; split; [reflexivity|].
    unfold holds; cbn [buff head limit cachedSlice].
    split; [reflexivity|]. split; [rewrite length_app, Hn'; simpl; lia|].
    split; [rewrite decide_False by exact Hne; f_equal; lia|].
    split; [|left; reflexivity].
    intros k r0 Hk Hwin.
    pose proof (lookup_lt_Some _ _ _ Hk) as Hkl.
    rewrite length_app in Hkl; simpl in Hkl.
    rewrite Z.mod_small by lia. rewrite Nat2Z.id.
    destruct (decide (k < n)%nat) as [Hkn|Hkn].
    + rewrite lookup_app_l in Hk by (fold n; lia).
      rewrite lookup_app_l by lia.
      specialize (Hslots k r0 Hk ltac:(lia)).
      rewrite Z.mod_small, Nat2Z.id in Hslots by lia. exact Hslots.
    + assert (k = n) by lia; subst k.
      rewrite lookup_app_r in Hk by (fold n; lia).
      rewrite lookup_app_r by lia.
      fold n in Hk. rewrite Hbn. exact Hk.
  - (* the log is full *)
    assert (Hbn : Z.of_nat (length (buff rl)) = L) by lia.
    rewrite <- (Z2Nat.id (Z.of_nat n mod L)) by lia.
    rewrite assign_insert by lia. cbn [bind].
    eexists; split; [reflexivity|].
    unfold holds; cbn [buff head limit cachedSlice].
    split; [reflexivity|]. split; [rewrite length_insert, Hn'; lia|].
    split; [rewrite decide_False by exact Hne; rewrite Z2Nat.id by lia; f_equal; lia|].
    split; [|left; reflexivity].
    intros k r0 Hk Hwin.
    pose proof (lookup_lt_Some _ _ _ Hk) as Hkl.
    rewrite length_app in Hkl; simpl in Hkl.
    destruct (decide (k < n)%nat) as [Hkn|Hkn].
    + rewrite lookup_app_l in Hk by (fold n; lia).
      rewrite list_lookup_insert_ne.
      * apply Hslots; [exact Hk|lia].
      * pose proof (slot_distinct L (Z.of_nat n) (Z.of_nat k) ltac:(lia) ltac:(lia) ltac:(lia)).
        pose proof (Z.mod_pos_bound (Z.of_nat k) L ltac:(lia)).
        lia.
    + assert (k = n) by lia; subst k.
      rewrite lookup_app_r in Hk by (fold n; lia).
      fold n in Hk. rewrite Nat.sub_diag in Hk. simpl in Hk.
      injection Hk as <-.
      apply list_lookup_insert_eq. lia.
Qed.

Lemma rev_lookup {A : Type} (l : list A) (i : nat) :
  (i < length l)%nat -> rev l !! i = l !! (length l - S i)%nat.
Proof.
  intros Hi. rewrite rev_alt. change (rev_append l []) with (reverse l).
  apply reverse_lookup. exact Hi.
Qed.

(** One turn of the loop of [toSlice]: the [i]-th slot read, counting back
    from [head], holds the [i]-th most recent record. *)
Lemma holds_slot (L : Z) (recs : list Record_) (rl : recordLog) (i : nat) :
  1 <= L <= 2 ^ 62 -> holds L recs rl -> (i < length (buff rl))%nat ->
  exists r, rev recs !! i = Some r
    /\ rem (wrap (wrap (limit rl + head rl) - Z.of_nat i)) (limit rl)
       = Ok (Z.of_nat (Z.to_nat ((Z.of_nat (length recs) - 1 - Z.of_nat i) mod L)))
    /\ buff rl !! Z.to_nat ((Z.of_nat (length recs) - 1 - Z.of_nat i) mod L)
       = Some r.
Proof.
  intros HL (Hlim & Hlen & Hhead & Hslots & _) Hi.
  set (n := length recs) in *.
  assert (Hin : (i < n)%nat) by lia.
  assert (HiL : Z.of_nat i < L) by lia.
  assert (Hne : recs <> []) by (intros ->; simpl in *; lia).
  rewrite decide_False in Hhead by exact Hne.
  destruct (lookup_lt_is_Some_2 recs (n - S i)%nat ltac:(fold n; lia)) as [r Hr].
  exists r. split; [rewrite rev_lookup by (fold n; lia); exact Hr|].
  pose proof (Z.mod_pos_bound (Z.of_nat n - 1) L ltac:(lia)) as Hb.
  pose proof (Z.mod_pos_bound (Z.of_nat n - 1 - Z.of_nat i) L ltac:(lia)) as Hb'.
  assert (H62 : 2 ^ 62 + 2 ^ 62 = 2 ^ 63) by reflexivity.
  split.
  - rewrite Hlim, Hhead.
    rewrite (wrap_id (L + _)) by (unfold int_min, int_max; lia).
    rewrite wrap_id by (unfold int_min, int_max; lia).
    rewrite rem_nonneg by (unfold int_max; lia).
    rewrite Z2Nat.id by lia. f_equal.
    replace (L + (Z.of_nat n - 1) mod L - Z.of_nat i)
      with ((Z.of_nat n - 1) mod L + (L - Z.of_nat i)) by lia.
    rewrite Zplus_mod_idemp_l.
    replace (Z.of_nat n - 1 + (L - Z.of_nat i))
      with (Z.of_nat n - 1 - Z.of_nat i + 1 * L) by lia.
    apply Z_mod_plus_full.
  - specialize (Hslots (n - S i)%nat r Hr ltac:(lia)).
    replace (Z.of_nat n - 1 - Z.of_nat i) with (Z.of_nat (n - S i)) by lia.
    exact Hslots.
Qed.

Lemma toSlice_loop_holds (L : Z) (recs : list Record_) (rl : recordLog) :
  1 <= L <= 2 ^ 62 -> holds L recs rl ->
  forall (m a : nat) (res : list Record_),
    (a + m <= length (buff rl))%nat ->
    toSlice_loop rl (seq a m) res = Ok (res ++ take m (drop a (rev recs))).
Proof.
  intros HL Hh m. induction m as [|m IH]; intros a res Hle; simpl.
  - rewrite take_0, app_nil_r. reflexivity.
  - destruct (holds_slot L recs rl a HL Hh ltac:(lia)) as (r & Hrev & Hrem & Hbuf).
    rewrite Hrem. cbn [bind]. rewrite (index_lookup _ _ _ Hbuf). cbn [bind].
    rewrite IH by lia. rewrite (drop_S _ _ _ Hrev). simpl.
    rewrite <- app_assoc. reflexivity.
Qed.

Lemma holds_toSlice (L : Z) (recs : list Record_) (rl : recordLog) :
  1 <= L <= 2 ^ 62 -> holds L recs rl ->
  exists rl', toSlice rl = Ok (take (Z.to_nat L) (rev recs), rl')
    /\ holds L recs rl'.
Proof.
  intros HL Hh. pose proof Hh as (Hlim & Hlen & Hhead & Hslots & Hcache).
  unfold toSlice. destruct Hcache as [Hc|Hc]; rewrite Hc.
  - rewrite (toSlice_loop_holds L recs rl HL Hh _ 0%nat []) by lia.
    cbn [bind]. simpl app. rewrite drop_0.
    assert (Heq : take (length (buff rl)) (rev recs)
                  = take (Z.to_nat L) (rev recs)).
    { destruct (decide (Z.of_nat (length recs) <= L)).
      - rewrite !take_ge by (rewrite length_rev; lia). reflexivity.
      - f_equal. lia. }
    rewrite Heq. eexists; split; [reflexivity|].
    unfold holds; cbn [buff head limit cachedSlice].
    repeat split; auto.
  - eexists; split; [reflexivity|]. exact Hh.
Qed.

Lemma holds_bounded (L : Z) (recs : list Record_) (rl : recordLog) :
  holds L recs rl -> Z.of_nat (length (buff rl)) <= L.
Proof. intros (_ & Hlen & _). lia. Qed.

(** A run of [add] and [toSlice] calls on a log keeps the invariant. *)
Lemma holds_run_log (L : Z) (calls : list log_call) :
  1 <= L <= 2 ^ 62 ->
  forall (recs : list Record_) (rl : recordLog),
    holds L recs rl ->
    exists rl', run_log rl calls = Ok rl' /\ holds L (recs ++ added calls) rl'.
Proof.
  intros HL. induction calls as [|[rec|] calls IH]; intros recs rl Hh.
  - exists rl. simpl. rewrite app_nil_r. auto.
  - destruct (holds_add L recs rl rec ltac:(unfold int_max; lia) Hh)
      as (rl1 & Hadd & Hh1).
    destruct (IH _ _ Hh1) as (rl' & Hrun & Hh').
    exists rl'. simpl. rewrite Hadd. cbn [bind]. split; [exact Hrun|].
    unfold added in *. simpl. rewrite <- app_assoc in Hh'. exact Hh'.
  - destruct (holds_toSlice L recs rl HL Hh) as (rl1 & Hts & Hh1).
    destruct (IH _ _ Hh1) as (rl' & Hrun & Hh').
    exists rl'. simpl. rewrite Hts. cbn [bind]. auto.
Qed.

Lemma omap_all_None {A B : Type} (g : A -> option B) (l : list A) :
  (forall x, x ∈ l -> g x = None) -> omap g l = [].
Proof.
  induction l as [|x l IH]; intros Hall; simpl; [reflexivity|].
  rewrite (Hall x) by (left; reflexivity).
  apply IH. intros y Hy. apply Hall. right. exact Hy.
Qed.

Lemma first_panic_None {A : Type} (m : gmap string (Res A)) :
  (forall key x, m !! key = Some x -> exists a, x = Ok a) ->
  first_panic m = None.
Proof.
  intros Hall. unfold first_panic. rewrite omap_all_None; [reflexivity|].
  intros [key x] Hin. apply elem_of_map_to_list in Hin.
  destruct (Hall key x Hin) as [a ->]. reflexivity.
Qed.

Section Tracking.

Variable sort_Sort : list Pull -> list Pull.

Lemma recorded_app (key : string) (calls calls' : list call) :
  recorded sort_Sort key (calls ++ calls')
  = recorded sort_Sort key calls ++ recorded sort_Sort key calls'.
Proof. unfold recorded. apply omap_app. Qed.

Lemma tracks_New (L : Z) (path : string) :
  tracks sort_Sort L [] (New L path).
Proof.
  unfold tracks, New, readHistory.
  destruct (decide (path = "")); simpl; (split; [reflexivity|]);
    intros key; rewrite lookup_empty; reflexivity.
Qed.

Lemma tracks_Record (L : Z) (calls : list call) (h : History)
  (t : Time) (poolKey action baseSHA err : string) (targets : list Pull) :
  1 <= L <= 2 ^ 62 -> tracks sort_Sort L calls h ->
  exists h', Record sort_Sort h t poolKey action baseSHA err targets = Ok h'
    /\ tracks sort_Sort L
         (calls ++ [call_Record t poolKey action baseSHA err targets]) h'.
Proof.
  intros HL (Hlim & Hlogs). unfold Record, addRecord.
  set (rec := {| Time_ := t; Action := action; BaseSHA := baseSHA;
                 Target := sort_Sort targets; Err := err |}).
  assert (Hh : holds L (recorded sort_Sort poolKey calls)
                 (default (newRecordLog (logSizeLimit h)) (logs h !! poolKey))).
  { specialize (Hlogs poolKey). destruct (logs h !! poolKey) as [rl|]; simpl.
    - apply Hlogs.
    - rewrite Hlogs, Hlim. apply holds_new. lia. }
  destruct (holds_add L _ _ rec ltac:(unfold int_max; lia) Hh) as (rl' & Hadd & Hh').
  rewrite Hadd. cbn [bind]. eexists; split; [reflexivity|].
  split; [exact Hlim|]. intros key. cbn [logs].
  rewrite recorded_app. unfold recorded at 2 4 6. simpl.
  destruct (decide (poolKey = key)) as [->|Hne].
  - rewrite lookup_insert_eq. fold rec. split; [exact Hh'|].
    destruct (recorded sort_Sort key calls); discriminate.
  - rewrite lookup_insert_ne by exact Hne. rewrite app_nil_r. apply Hlogs.
Qed.

Lemma tracks_AllRecords (L : Z) (calls : list call) (h : History) :
  1 <= L <= 2 ^ 62 -> tracks sort_Sort L calls h ->
  exists snap h', AllRecords h = Ok (snap, h')
    /\ tracks sort_Sort L (calls ++ [call_AllRecords]) h'
    /\ forall key : string,
         snap !! key
         = if decide (recorded sort_Sort key calls = []) then None
           else Some (take (Z.to_nat L) (rev (recorded sort_Sort key calls))).
Proof.
  intros HL (Hlim & Hlogs). unfold AllRecords.
  rewrite first_panic_None.
  2:{ intros key x Hx. rewrite lookup_fmap in Hx.
      specialize (Hlogs key). destruct (logs h !! key) as [rl|]; [|discriminate].
      destruct (holds_toSlice L _ rl HL (proj1 Hlogs)) as (rl' & Hts & _).
      simpl in Hx. injection Hx as <-. eauto. }
  eexists _, _. split; [reflexivity|]. split.
  - split; [exact Hlim|]. intros key. cbn [logs].
    rewrite recorded_app. unfold recorded at 2 4 6. simpl. rewrite app_nil_r.
    rewrite lookup_omap, lookup_fmap.
    specialize (Hlogs key). destruct (logs h !! key) as [rl|]; simpl.
    + destruct (holds_toSlice L _ rl HL (proj1 Hlogs)) as (rl' & Hts & Hh').
      rewrite Hts. simpl. split; [exact Hh'|apply Hlogs].
    + exact Hlogs.
  - intros key. rewrite lookup_omap, lookup_fmap.
    specialize (Hlogs key). destruct (logs h !! key) as [rl|]; simpl.
    + destruct (holds_toSlice L _ rl HL (proj1 Hlogs)) as (rl' & Hts & Hh').
      rewrite Hts. simpl. rewrite decide_False by apply Hlogs. reflexivity.
    + rewrite decide_True by exact Hlogs. reflexivity.
Qed.

Lemma tracks_run (L : Z) (calls : list call) :
  1 <= L <= 2 ^ 62 ->
  forall (before : list call) (h : History),
    tracks sort_Sort L before h ->
    exists h', run sort_Sort h calls = Ok h'
      /\ tracks sort_Sort L (before ++ calls) h'.
Proof.
  intros HL. induction calls as [|[t k a b e ts|] calls IH]; intros before h Ht.
  - exists h. simpl. rewrite app_nil_r. auto.
  - destruct (tracks_Record L before h t k a b e ts HL Ht) as (h1 & Hr & Ht1).
    destruct (IH _ _ Ht1) as (h' & Hrun & Ht').
    exists h'. simpl. rewrite Hr. cbn [bind]. split; [exact Hrun|].
    rewrite <- app_assoc in Ht'. exact Ht'.
  - destruct (tracks_AllRecords L before h HL Ht) as (snap & h1 & Hr & Ht1 & _).
    destruct (IH _ _ Ht1) as (h' & Hrun & Ht').
    exists h'. simpl. rewrite Hr. cbn [bind]. split; [exact Hrun|].
    rewrite <- app_assoc in Ht'. exact Ht'.
Qed.

End Tracking.

(** A log is never longer than its limit, whatever the limit. *)
Lemma add_bounded (rl rl' : recordLog) (rec : Record_) :
  Z.of_nat (length (buff rl)) <= Z.max 0 (limit rl) ->
  add rl rec = Ok rl' ->
  limit rl' = limit rl /\ Z.of_nat (length (buff rl')) <= Z.max 0 (limit rl').
Proof.
  unfold add, rem, assign. intros Hb.
  destruct (Z.eqb_spec (limit rl) 0); [discriminate|]. cbn [bind].
  destruct (Z.ltb_spec (Z.of_nat (length (buff rl))) (limit rl)).
  - intros [= <-]. cbn [buff limit]. rewrite length_app. simpl. lia.
  - destruct (_ && _); [|discriminate]. cbn [bind].
    intros [= <-]. cbn [buff limit]. rewrite length_insert. lia.
Qed.

(** C6 (amended) — For every pool key and every run of [Record] calls
    (with reads in between) on a history whose capacity is at least 1 and at
    most 2^62, no call panics, no log grows beyond the capacity, and
    [AllRecords] returns for each pool the records stored under it, most
    recent first, cut after the capacity: the records dropped on overflow
    are the oldest ones. *)
Theorem history_ring_bounded_newest_first
  (sort_Sort : list Pull -> list Pull) (L : Z) (path : string)
  (calls : list call) :
  1 <= L <= 2 ^ 62 ->
  exists h, run sort_Sort (New L path) calls = Ok h
    /\ (forall key rl, logs h !! key = Some rl ->
          Z.of_nat (length (buff rl)) <= L)
    /\ exists snap h', AllRecords h = Ok (snap, h')
         /\ forall key : string,
              snap !! key
              = if decide (recorded sort_Sort key calls = []) then None
                else Some (take (Z.to_nat L)
                             (rev (recorded sort_Sort key calls))).
Proof.
  intros HL.
  destruct (tracks_run sort_Sort L calls HL [] (New L path)
              (tracks_New sort_Sort L path)) as (h & Hrun & Ht).
  simpl in Ht. exists h. split; [exact Hrun|]. split.
  - intros key rl Hk. destruct Ht as (_ & Hlogs). specialize (Hlogs key).
    rewrite Hk in Hlogs. eapply holds_bounded, Hlogs.
  - destruct (tracks_AllRecords sort_Sort L calls h HL Ht)
      as (snap & h' & Hall & _ & Hsnap).
    exists snap, h'. auto.
Qed.

Lemma history_ring_bounded_newest_first_witness :
  1 <= 2 <= 2 ^ 62
  /\ exists h, run insertionSort (New 2 "") Samples.calls = Ok h
    /\ (forall key rl, logs h !! key = Some rl ->
          Z.of_nat (length (buff rl)) <= 2)
    /\ exists snap h', AllRecords h = Ok (snap, h')
         /\ forall key : string,
              snap !! key
              = if decide (recorded insertionSort key Samples.calls = [])
                then None
                else Some (take (Z.to_nat 2)
                             (rev (recorded insertionSort key Samples.calls))).
Proof.
  split; [lia|].
  apply (history_ring_bounded_newest_first insertionSort 2 "" Samples.calls).
  lia.
Defined.

(** C6, as stated for every history, fails outside that range of
    capacities.  With capacity 0 the first [Record] panics on the division by
    zero.  With the capacity of the largest int, two [Record] calls under
    one pool return, and reading the log then panics: in [toSlice] the sum
    of the limit and the head leaves the range of an int and the index
    computed from it is negative. *)
Lemma history_ring_fails_outside_capacity_range :
  let calls :=
    [ call_Record 1 "org/repo:master" "MERGE" "d0" "" [Samples.pull 1 "a"];
      call_Record 2 "org/repo:master" "MERGE" "d1" "" [Samples.pull 2 "b"] ] in
  run insertionSort (New 0 "") calls = Panic DivideByZero
  /\ is_Ok (run insertionSort (New int_max "") calls) = true
  /\ (let! h := run insertionSort (New int_max "") calls in AllRecords h)
     = Panic IndexOutOfRange.
Proof. repeat split; vm_compute; reflexivity. Qed.

Example history_ring_sample :
  (let! h := run insertionSort (New 2 "") Samples.calls in
   let! r := AllRecords h in
   Ok (map Time_ <$> r.1 !! "org/repo:master",
       map Time_ <$> r.1 !! "org/other:main",
       map Time_ <$> r.1 !! "org/none:main"))
  = Ok (Some [4; 2], Some [3], None).
Proof. vm_compute. reflexivity. Qed.

(** On a full log, [add] writes over the slot of the oldest record kept. *)
Lemma add_overwrites_oldest (L : Z) (recs : list Record_) (rl rl' : recordLog)
  (rec : Record_) :
  1 <= L <= int_max -> holds L recs rl -> L <= Z.of_nat (length recs) ->
  add rl rec = Ok rl' ->
  buff rl !! Z.to_nat (head rl') = recs !! (length recs - Z.to_nat L)%nat
  /\ buff rl' = <[Z.to_nat (head rl') := rec]> (buff rl).
Proof.
  intros HL Hh Hfull. pose proof (holds_head_succ L recs rl HL Hh) as Hrem.
  pose proof Hh as (Hlim & Hlen & Hhead & Hslots & _).
  unfold add. rewrite Hrem. cbn [bind]. rewrite Hlim.
  pose proof (Z.mod_pos_bound (Z.of_nat (length recs)) L ltac:(lia)) as Hb.
  destruct (Z.ltb_spec (Z.of_nat (length (buff rl))) L); [lia|].
  rewrite <- (Z2Nat.id (Z.of_nat (length recs) mod L)) at 1 by lia.
  rewrite assign_insert by lia. cbn [bind]. intros [= <-]. cbn [head buff].
  split; [|reflexivity].
  destruct (lookup_lt_is_Some_2 recs (length recs - Z.to_nat L)%nat ltac:(lia))
    as [r Hr].
  rewrite Hr. rewrite <- (Hslots _ r Hr ltac:(lia)). do 2 f_equal.
  replace (Z.of_nat (length recs - Z.to_nat L))
    with (Z.of_nat (length recs) + (-1) * L) by lia.
  symmetry. apply Z_mod_plus_full.
Qed.

Lemma holds_adds (L : Z) (new : list Record_) :
  1 <= L <= int_max ->
  forall (recs : list Record_) (rl : recordLog),
    holds L recs rl ->
    exists rl', run_log rl (map call_add new) = Ok rl'
      /\ holds L (recs ++ new) rl'.
Proof.
  intros HL. induction new as [|rec new IH]; intros recs rl Hh.
  - exists rl. simpl. rewrite app_nil_r. auto.
  - destruct (holds_add L recs rl rec HL Hh) as (rl1 & Hadd & Hh1).
    destruct (IH _ _ Hh1) as (rl' & Hrun & Hh').
    exists rl'. simpl. rewrite Hadd. cbn [bind]. split; [exact Hrun|].
    rewrite <- app_assoc in Hh'. exact Hh'.
Qed.

(** C10 — [recordLog.add] is total exactly when the size limit is at least
    1: from a new log with a limit of 1 or more, every [add] of every run
    returns; with a limit of 0 the first [add] panics on the division by
    zero (and so does the first [History.Record]); with any limit below 1
    the first [add] panics. *)
Theorem add_total_iff_limit_positive :
  (forall (L : Z) (recs : list Record_),
      1 <= L <= int_max ->
      exists rl, run_log (newRecordLog L) (map call_add recs) = Ok rl)
  /\ (forall rec : Record_, add (newRecordLog 0) rec = Panic DivideByZero)
  /\ (forall (sort_Sort : list Pull -> list Pull) (path : string) (t : Time)
        (poolKey action baseSHA err : string) (targets : list Pull),
        Record sort_Sort (New 0 path) t poolKey action baseSHA err targets
        = Panic DivideByZero)
  /\ (forall (L : Z) (rec : Record_),
        L <= 0 -> is_Ok (add (newRecordLog L) rec) = false).
Proof.
  split; [|split; [|split]].
  - intros L recs HL.
    destruct (holds_adds L recs HL [] (newRecordLog L) (holds_new L ltac:(lia)))
      as (rl & Hrun & _).
    exists rl. exact Hrun.
  - intros rec. reflexivity.
  - intros sort_Sort path t poolKey action baseSHA err targets.
    unfold Record, addRecord, New, readHistory.
    destruct (decide (path = "")); simpl; rewrite lookup_empty; reflexivity.
  - intros L rec HL. unfold add, newRecordLog, rem, assign; cbn [head limit buff].
    destruct (Z.eqb_spec L 0); [reflexivity|].
    change (wrap (-1 + 1)) with 0. rewrite Z.rem_0_l by assumption.
    change (wrap 0) with 0. cbn [bind length].
    destruct (Z.ltb_spec (Z.of_nat 0) L); [lia|]. reflexivity.
Qed.

Lemma add_total_iff_limit_positive_witness :
  1 <= 2 <= int_max
  /\ exists rl,
       run_log (newRecordLog 2)
         (map call_add [Samples.record 1; Samples.record 2; Samples.record 3])
       = Ok rl.
Proof.
  split; [unfold int_max; lia|].
  apply (proj1 add_total_iff_limit_positive 2); unfold int_max; lia.
Defined.

Example add_sample :
  run_log (newRecordLog 2)
    (map call_add [Samples.record 1; Samples.record 2; Samples.record 3])
  = Ok {| buff := [Samples.record 3; Samples.record 2]; head := 0; limit := 2;
          cachedSlice := None |}.
Proof. reflexivity. Qed.

(** *** Sorting of the targets *)

Lemma key_determines {A : Type} (f : A -> Z) (l : list A) (x y : A) :
  NoDup (map f l) -> x ∈ l -> y ∈ l -> f x = f y -> x = y.
Proof.
  induction l as [|a l IH]; intros Hnd Hx Hy Hf; [inversion Hx|].
  simpl in Hnd. apply NoDup_cons in Hnd as [Ha Hnd].
  apply elem_of_cons in Hx as [->|Hx]; apply elem_of_cons in Hy as [->|Hy].
  - reflexivity.
  - exfalso. apply Ha. rewrite Hf. apply (list_elem_of_fmap_2 f). exact Hy.
  - exfalso. apply Ha. rewrite <- Hf. apply (list_elem_of_fmap_2 f). exact Hx.
  - apply IH; assumption.
Qed.

Lemma by_number_trans : Transitive (fun a b : Pull => Number a <= Number b).
Proof. intros a b c. lia. Qed.

#[local] Existing Instance by_number_trans.

Lemma sink_perm (x : Pull) (before : list Pull) :
  Permutation (sink x before) (x :: before).
Proof.
  induction before as [|y rest IH]; simpl; [reflexivity|].
  destruct (ByNum_Less x y); [|reflexivity].
  rewrite IH. apply perm_swap.
Qed.

Lemma sink_descending (x : Pull) (before : list Pull) :
  StronglySorted (fun a b => Number b <= Number a) before ->
  StronglySorted (fun a b => Number b <= Number a) (sink x before).
Proof.
  induction 1 as [|y rest Hrest IH Hy]; simpl.
  - repeat constructor.
  - unfold ByNum_Less. destruct (Z.ltb_spec (Number x) (Number y)).
    + constructor; [exact IH|].
      rewrite (sink_perm x rest). constructor; [lia|exact Hy].
    + constructor; [constructor; assumption|].
      constructor; [lia|]. eapply Forall_impl; [exact Hy|].
      simpl. intros z Hz. lia.
Qed.

Lemma insertionSort_perm (data : list Pull) :
  Permutation (insertionSort data) data.
Proof.
  unfold insertionSort. rewrite <- Permutation_rev.
  assert (H : forall acc,
    Permutation (fold_left (fun before x => sink x before) data acc)
                (data ++ acc)).
  { induction data as [|x data IH]; intros acc; simpl; [reflexivity|].
    rewrite IH, sink_perm. symmetry. apply Permutation_middle. }
  rewrite H, app_nil_r. reflexivity.
Qed.

Lemma insertionSort_ascending (data : list Pull) :
  ascending (insertionSort data).
Proof.
  unfold insertionSort, ascending.
  assert (H : forall acc,
    StronglySorted (fun a b => Number b <= Number a) acc ->
    StronglySorted (fun a b => Number b <= Number a)
      (fold_left (fun before x => sink x before) data acc)).
  { induction data as [|x data IH]; intros acc Hacc; simpl; [exact Hacc|].
    apply IH, sink_descending, Hacc. }
  specialize (H [] (SSorted_nil _)).
  apply StronglySorted_Sorted, (Sorted_reverse _) in H.
  rewrite rev_alt. exact H.
Qed.

Section RecordSorts.

Variable sort_Sort : list Pull -> list Pull.
Hypothesis sort_perm : forall l, Permutation (sort_Sort l) l.
Hypothesis sort_ascending : forall l, ascending (sort_Sort l).

Lemma sorted_numbers_unique (targets targets' : list Pull) :
  Permutation targets targets' ->
  map Number (sort_Sort targets) = map Number (sort_Sort targets').
Proof.
  intros Hp.
  apply (Sorted_unique Z.le).
  - apply (Sorted_fmap Number (fun a b => Number a <= Number b) Z.le); auto.
    apply sort_ascending.
  - apply (Sorted_fmap Number (fun a b => Number a <= Number b) Z.le); auto.
    apply sort_ascending.
  - apply Permutation_map. rewrite !sort_perm. exact Hp.
Qed.

Lemma sorted_targets_unique (targets targets' : list Pull) :
  Permutation targets targets' -> NoDup (map Number targets) ->
  sort_Sort targets = sort_Sort targets'.
Proof.
  intros Hp Hnd.
  apply (Sorted_unique_strong (fun a b => Number a <= Number b)).
  - intros x1 x2 H1 H2 Hle Hge.
    apply (key_determines Number targets); [exact Hnd| | |lia].
    + rewrite <- (sort_perm targets). exact H1.
    + rewrite Hp, <- (sort_perm targets'). exact H2.
  - apply sort_ascending.
  - apply sort_ascending.
  - rewrite !sort_perm. exact Hp.
Qed.

(** C9 (amended) — [History.Record] stores the targets rearranged in
    ascending order of pull-request number.  For two orders of the same
    targets the sequence of numbers stored is the same; when the numbers are
    pairwise distinct the whole stored record is the same, and so is the
    history after any further calls and what [AllRecords] then returns. *)
Theorem Record_sorts_targets_by_number
  (h : History) (t : Time) (poolKey action baseSHA err : string)
  (targets targets' : list Pull) :
  Permutation targets targets' ->
  Record sort_Sort h t poolKey action baseSHA err targets
  = addRecord h poolKey
      {| Time_ := t; Action := action; BaseSHA := baseSHA;
         Target := sort_Sort targets; Err := err |}
  /\ ascending (sort_Sort targets)
  /\ Permutation (sort_Sort targets) targets
  /\ map Number (sort_Sort targets) = map Number (sort_Sort targets')
  /\ (NoDup (map Number targets) ->
      forall later : list call,
        let after ts :=
          run sort_Sort h
            (call_Record t poolKey action baseSHA err ts :: later) in
        after targets = after targets'
        /\ (let! h' := after targets in AllRecords h')
           = (let! h' := after targets' in AllRecords h')).
Proof.
  intros Hp. split; [reflexivity|]. split; [apply sort_ascending|].
  split; [apply sort_perm|]. split; [apply sorted_numbers_unique, Hp|].
  intros Hnd later after. unfold after. simpl. unfold Record.
  rewrite (sorted_targets_unique targets targets' Hp Hnd). auto.
Qed.

End RecordSorts.

Lemma Record_sorts_targets_by_number_witness :
  let targets := [Samples.pull 7 "g"; Samples.pull 5 "e"; Samples.pull 6 "f"] in
  let targets' := [Samples.pull 5 "e"; Samples.pull 6 "f"; Samples.pull 7 "g"] in
  let h := New 2 "" in
  (Permutation targets targets' /\ NoDup (map Number targets))
  /\ Record insertionSort h 4 "org/repo:master" "MERGE" "d2" "" targets
     = addRecord h "org/repo:master"
         {| Time_ := 4; Action := "MERGE"; BaseSHA := "d2";
            Target := insertionSort targets; Err := "" |}
  /\ ascending (insertionSort targets)
  /\ Permutation (insertionSort targets) targets
  /\ map Number (insertionSort targets) = map Number (insertionSort targets')
  /\ forall later : list call,
       let after ts :=
         run insertionSort h
           (call_Record 4 "org/repo:master" "MERGE" "d2" "" ts :: later) in
       after targets = after targets'
       /\ (let! h' := after targets in AllRecords h')
          = (let! h' := after targets' in AllRecords h').
Proof.
  intros targets targets' h.
  assert (Hp : Permutation targets targets')
    by exact (Permutation_cons_append [Samples.pull 5 "e"; Samples.pull 6 "f"]
                (Samples.pull 7 "g")).
  assert (Hnd : NoDup (map Number targets))
    by (apply (bool_decide_unpack _); vm_compute; exact I).
  split; [split; assumption|].
  destruct (Record_sorts_targets_by_number insertionSort
              insertionSort_perm insertionSort_ascending
              h 4 "org/repo:master" "MERGE" "d2" "" targets targets' Hp)
    as (H1 & H2 & H3 & H4 & H5).
  repeat (split; [assumption|]). exact (H5 Hnd).
Defined.

Example Record_sorts_sample :
  map Number (insertionSort
                [Samples.pull 7 "g"; Samples.pull 5 "e"; Samples.pull 6 "f"])
  = [5; 6; 7].
Proof. reflexivity. Qed.

(** C9, as stated, fails on ties: two targets with the same number are
    stored in the order they were passed in. *)
Lemma Record_keeps_order_of_equal_numbers :
  let targets := [Samples.pull 1 "a"; Samples.pull 1 "b"] in
  let targets' := [Samples.pull 1 "b"; Samples.pull 1 "a"] in
  Permutation targets targets'
  /\ insertionSort targets = targets
  /\ insertionSort targets' = targets'
  /\ Record insertionSort (New 2 "") 1 "org/repo:master" "MERGE" "d0" "" targets
     <> Record insertionSort (New 2 "") 1 "org/repo:master" "MERGE" "d0" "" targets'
  /\ (let! h := Record insertionSort (New 2 "") 1 "org/repo:master" "MERGE"
                  "d0" "" targets in
      let! r := AllRecords h in Ok (r.1 !! "org/repo:master"))
     <> (let! h := Record insertionSort (New 2 "") 1 "org/repo:master" "MERGE"
                     "d0" "" targets' in
         let! r := AllRecords h in Ok (r.1 !! "org/repo:master")).
Proof.
  intros targets targets'.
  split; [apply perm_swap|]. split; [reflexivity|]. split; [reflexivity|].
  assert (Hsnap :
    (let! h := Record insertionSort (New 2 "") 1 "org/repo:master" "MERGE"
                 "d0" "" targets in
     let! r := AllRecords h in Ok (r.1 !! "org/repo:master"))
    <> (let! h := Record insertionSort (New 2 "") 1 "org/repo:master" "MERGE"
                    "d0" "" targets' in
        let! r := AllRecords h in Ok (r.1 !! "org/repo:master"))).
  { vm_compute. discriminate. }
  split; [|exact Hsnap].
  intros Heq. apply Hsnap. rewrite Heq. reflexivity.
Qed.

End HistoryFacts.

(** ** Package [foghorn] *)

Module FoghornFacts.
Import v1alpha1 foghorn GoFacts.

Lemma length_substring_0 (n : nat) (s : string) :
  (n <= String.length s)%nat -> String.length (substring 0 n s) = n.
Proof.
  revert s. induction n as [|n IH]; intros [|ch s] Hn; simpl in *;
    try reflexivity; try lia.
  rewrite IH by lia. reflexivity.
Qed.

Lemma length_append (s1 s2 : string) :
  String.length (s1 ++ s2)%string = (String.length s1 + String.length s2)%nat.
Proof. induction s1 as [|ch s1 IH]; simpl; [reflexivity|]. rewrite IH. reflexivity. Qed.

Section Description.

Variable RunningStages : ActivityRecord.t -> list string.

(** The description of the state alone. *)
Lemma static_description (activity : ActivityRecord.t) (gitKind : string) :
  RunningStages activity = [] \/ gitKind = "gitlab" ->
  let out :=
    description (toScmStatusDescriptionRunningStages RunningStages activity gitKind) in
  out ∈ ["Pipeline successful"; "Pipeline running"; "Error executing pipeline";
         "Pipeline failed"; "Pipeline in unknown state"]
  /\ (String.length out <= 63)%nat.
Proof.
  intros Hcase out. subst out. unfold toScmStatusDescriptionRunningStages.
  assert (Hguard :
    (0 <? Z.of_nat (length (RunningStages activity)))
    && negb (bool_decide (gitKind = "gitlab")) = false).
  { destruct Hcase as [-> | ->]; [reflexivity|].
    rewrite bool_decide_eq_true_2 by reflexivity. apply andb_false_r. }
  rewrite Hguard.
  clear Hcase Hguard.
  repeat case_decide; cbn [description];
    (split; [apply list_elem_of_In; simpl; tauto|simpl; lia]).
Qed.

(** C5 — With running stages to report (and an SCM provider other than
    GitLab), a description longer than 63 becomes its first 59 bytes followed
    by three dots, 62 bytes in all, and a description of length at most 63
    is reported unchanged. *)
Theorem description_truncated_beyond_63
  (activity : ActivityRecord.t) (gitKind : string) :
  RunningStages activity <> [] -> gitKind <> "gitlab" ->
  let d :=
    ("Pipeline running stage(s): " ++ Join (RunningStages activity) ", ")%string in
  let out :=
    description (toScmStatusDescriptionRunningStages RunningStages activity gitKind) in
  ((63 < String.length d)%nat ->
     out = (slice_to d 59 ++ "...")%string /\ String.length out = 62%nat)
  /\ ((String.length d <= 63)%nat -> out = d).
Proof.
  intros Hne Hkind d out. subst out. unfold toScmStatusDescriptionRunningStages.
  assert (Hguard :
    (0 <? Z.of_nat (length (RunningStages activity)))
    && negb (bool_decide (gitKind = "gitlab")) = true).
  { rewrite bool_decide_eq_false_2 by exact Hkind.
    destruct (RunningStages activity); [contradiction|reflexivity]. }
  rewrite Hguard. cbn [description]. fold d.
  split; intros Hlen.
  - destruct (Z.ltb_spec 63 (Z.of_nat (String.length d))); [|lia].
    split; [reflexivity|].
    rewrite length_append. unfold slice_to.
    rewrite length_substring_0 by lia. reflexivity.
  - destruct (Z.ltb_spec 63 (Z.of_nat (String.length d))); [lia|reflexivity].
Qed.

End Description.

Lemma description_truncated_beyond_63_witness :
  let a :=
    Samples.activity RunningState
      ["build"; "test"; "package"; "publish"; "notify"; "deploy"] in
  let d :=
    ("Pipeline running stage(s): "
     ++ Join (Samples.RunningStages a) ", ")%string in
  let out :=
    description (toScmStatusDescriptionRunningStages Samples.RunningStages a "github") in
  (Samples.RunningStages a <> [] /\ "github" <> "gitlab"
   /\ (63 < String.length d)%nat)
  /\ out = (slice_to d 59 ++ "...")%string /\ String.length out = 62%nat.
Proof.
  intros a d out.
  assert (H1 : Samples.RunningStages a <> []) by (vm_compute; discriminate).
  assert (H2 : "github" <> "gitlab") by discriminate.
  assert (H3 : (63 < String.length d)%nat) by (vm_compute; lia).
  split; [repeat split; assumption|].
  exact (proj1 (description_truncated_beyond_63 Samples.RunningStages a "github"
                  H1 H2) H3).
Defined.

Example description_samples :
  description
    (toScmStatusDescriptionRunningStages Samples.RunningStages
       (Samples.activity RunningState
          ["build"; "test"; "package"; "publish"]) "github")
  = "Pipeline running stage(s): build, test, package, publish"
  /\ description
       (toScmStatusDescriptionRunningStages Samples.RunningStages
          (Samples.activity RunningState
             ["build"; "test"; "package"; "publish"; "notify"]) "github")
     = "Pipeline running stage(s): build, test, package, publish, n..."
  /\ description
       (toScmStatusDescriptionRunningStages Samples.RunningStages
          (Samples.activity RunningState
             ["build"; "test"; "package"; "publish"; "notify"; "deploy"])
          "github")
     = "Pipeline running stage(s): build, test, package, publish, n..."
  /\ description
       (toScmStatusDescriptionRunningStages Samples.RunningStages
          (Samples.activity RunningState
             ["build"; "test"; "package"; "publish"; "notify"; "deploy"])
          "gitlab")
     = "Pipeline running".
Proof. repeat split; vm_compute; reflexivity. Qed.

(** *** Projection of the activity and reports *)

Lemma updateJobStatusForActivity_state
  (activity : ActivityRecord.t) (job : LighthouseJob.t) :
  LighthouseJobStatus.State
    (LighthouseJob.Status (updateJobStatusForActivity activity job))
  = ActivityRecord.Status activity.
Proof.
  unfold updateJobStatusForActivity. cbn.
  case_decide as Hne; [reflexivity|].
  destruct (decide (ActivityRecord.Status activity
                    = LighthouseJobStatus.State (LighthouseJob.Status job)));
    [congruence|contradiction].
Qed.

Section Reports.

Variable ToState : string -> scm.State.
Variable State_String : scm.State -> string.
Variable RunningStages : ActivityRecord.t -> list string.
Variable TrimRight : string -> string -> string.

Abbreviation reportStatus := (reportStatus ToState State_String RunningStages TrimRight).
Abbreviation reconcile := (reconcile ToState State_String RunningStages TrimRight).
Abbreviation report_states := (report_states ToState State_String RunningStages TrimRight).
Abbreviation report_events := (report_events ToState State_String RunningStages TrimRight).
Abbreviation syncHandler := (syncHandler ToState State_String RunningStages TrimRight).
Abbreviation LastReport job :=
  (LighthouseJobStatus.LastReportState (LighthouseJob.Status job)).

Lemma reportStatus_completed (c : Env) (ns : string)
  (activity : ActivityRecord.t) (job : LighthouseJob.t) :
  completed (ToState (LastReport job)) = true ->
  reportStatus c ns activity job = ([], Ok job).
Proof.
  intros Hdone. unfold foghorn.reportStatus.
  repeat (case_decide; [reflexivity|]).
  rewrite Hdone. reflexivity.
Qed.

(** [reportStatus] touches neither the name nor the state of the job. *)
Lemma reportStatus_keeps (c : Env) (ns : string) (activity : ActivityRecord.t)
  (job job' : LighthouseJob.t) (evs : list Event) :
  reportStatus c ns activity job = (evs, Ok job') ->
  LighthouseJob.Name job' = LighthouseJob.Name job
  /\ LighthouseJobStatus.State (LighthouseJob.Status job')
     = LighthouseJobStatus.State (LighthouseJob.Status job).
Proof.
  unfold foghorn.reportStatus. intros H.
  repeat case_match; simplify_eq; auto.
Qed.

Lemma reconcile_completed (c : Env) (ns : string)
  (activity : ActivityRecord.t) (job : LighthouseJob.t) :
  completed (ToState (LastReport job)) = true ->
  exists job', reconcile c ns activity job = ([], Ok job')
    /\ LastReport job' = LastReport job.
Proof.
  intros Hdone. exists (updateJobStatusForActivity activity job).
  split; [|reflexivity].
  unfold foghorn.reconcile. apply reportStatus_completed. exact Hdone.
Qed.

Lemma run_completed (steps : list (Env * string * ActivityRecord.t)) :
  forall job : LighthouseJob.t,
    completed (ToState (LastReport job)) = true ->
    report_events steps job = []
    /\ report_states steps job = repeat (LastReport job) (length steps).
Proof.
  induction steps as [|[[c ns] activity] steps IH]; intros job Hdone;
    [split; reflexivity|].
  destruct (reconcile_completed c ns activity job Hdone) as (job' & Hrec & Hsame).
  simpl. rewrite Hrec. rewrite <- Hsame in Hdone.
  destruct (IH job' Hdone) as (Hev & Hst).
  rewrite Hev, Hst, Hsame. split; reflexivity.
Qed.

Lemma arrivals_repeat (s : string) (n : nat) :
  arrivals ToState s (repeat s n) = 0%nat.
Proof.
  induction n as [|n IH]; simpl; [reflexivity|].
  rewrite bool_decide_eq_true_2 by reflexivity. simpl. exact IH.
Qed.

Lemma arrivals_at_most_once (steps : list (Env * string * ActivityRecord.t)) :
  forall job : LighthouseJob.t,
    (arrivals ToState (LastReport job) (report_states steps job) <= 1)%nat.
Proof.
  induction steps as [|[[c ns] activity] steps IH]; intros job; simpl; [lia|].
  destruct (reconcile c ns activity job) as [evs [job'|p]] eqn:Hrec; simpl; [|lia].
  destruct (completed (ToState (LastReport job'))) eqn:Hdone.
  - destruct (run_completed steps job' Hdone) as (_ & ->).
    rewrite arrivals_repeat. destruct (negb _); simpl; lia.
  - rewrite andb_false_r. simpl. apply IH.
Qed.

(** C2 — When [LastReportState] reads as success, failure, error or
    canceled, [reportStatus] makes no call at all (so posts no commit status)
    and returns the job as it was; along any run of reconciliations the
    value then stays what it is and nothing is posted; and along any run,
    from any job, [LastReportState] changes to a completed value at most
    once. *)
Theorem completed_report_is_final (job : LighthouseJob.t) :
  completed (ToState (LastReport job)) = true ->
  (forall (c : Env) (ns : string) (activity : ActivityRecord.t),
      reportStatus c ns activity job = ([], Ok job))
  /\ (forall steps : list (Env * string * ActivityRecord.t),
        report_events steps job = []
        /\ report_states steps job = repeat (LastReport job) (length steps))
  /\ (forall (steps : list (Env * string * ActivityRecord.t))
             (job0 : LighthouseJob.t),
        (arrivals ToState (LastReport job0) (report_states steps job0) <= 1)%nat).
Proof.
  intros Hdone. split; [|split].
  - intros c ns activity. apply reportStatus_completed, Hdone.
  - intros steps. apply run_completed, Hdone.
  - intros steps job0. apply arrivals_at_most_once.
Qed.

Section Sync.

Variable c : Env.
Variable SplitMetaNamespaceKey : string -> option (string * string).

(** C1 (amended) — [updateJobStatusForActivity] leaves the job with the
    status of the activity as its state, whatever the state was; and when
    [syncHandler] has projected the activity of a cached job and returned,
    the cached job has the status of the activity as its state. *)
Theorem job_state_follows_activity :
  (forall (activity : ActivityRecord.t) (job : LighthouseJob.t),
      LighthouseJobStatus.State
        (LighthouseJob.Status (updateJobStatusForActivity activity job))
      = ActivityRecord.Status activity)
  /\ (forall (cache cache' : gmap (string * string) LighthouseJob.t)
             (key namespace name : string) (job : LighthouseJob.t)
             (activity : ActivityRecord.t) (evs : list Event)
             (err : option string),
        SplitMetaNamespaceKey key = Some (namespace, name) ->
        cache !! (namespace, name) = Some job ->
        LighthouseJob.Name job = name ->
        LighthouseJobStatus.Activity (LighthouseJob.Status job) = Some activity ->
        syncHandler c SplitMetaNamespaceKey cache key = (evs, Ok (cache', err)) ->
        exists job',
          cache' !! (namespace, name) = Some job'
          /\ LighthouseJobStatus.State (LighthouseJob.Status job')
             = ActivityRecord.Status activity).
Proof.
  split; [apply updateJobStatusForActivity_state|].
  intros cache cache' key namespace name job activity evs err
    Hkey Hjob Hname Hact Hsync.
  unfold foghorn.syncHandler in Hsync. rewrite Hkey, Hjob, Hact in Hsync.
  destruct (reportStatus c namespace activity
              (updateJobStatusForActivity activity job))
    as [evs0 [jobCopy|p]] eqn:Hrep; [|discriminate].
  destruct (reportStatus_keeps _ _ _ _ _ _ Hrep) as (Hn & Hs).
  rewrite updateJobStatusForActivity_state in Hs.
  change (LighthouseJob.Name (updateJobStatusForActivity activity job))
    with (LighthouseJob.Name job) in Hn.
  rewrite Hn, Hname, Hjob in Hsync.
  case_decide as Hdiff.
  - injection Hsync as <- <- <-.
    eexists. rewrite lookup_insert_eq. split; [reflexivity|exact Hs].
  - injection Hsync as <- <- <-.
    exists job. split; [exact Hjob|].
    destruct (decide (LighthouseJob.Status job = LighthouseJob.Status jobCopy))
      as [->|]; [exact Hs|contradiction].
Qed.

End Sync.

End Reports.

Lemma completed_report_is_final_witness :
  let a := Samples.activity FailureState [] in
  let job := Samples.job SuccessState "success" a in
  completed (Samples.ToState
               (LighthouseJobStatus.LastReportState (LighthouseJob.Status job)))
  = true
  /\ reportStatus Samples.ToState Samples.State_String Samples.RunningStages
       Samples.TrimRight Samples.controller "jx" a job
     = ([], Ok job).
Proof.
  intros a job.
  assert (Hdone :
    completed (Samples.ToState
                 (LighthouseJobStatus.LastReportState (LighthouseJob.Status job)))
    = true) by reflexivity.
  split; [exact Hdone|].
  exact (proj1 (completed_report_is_final Samples.ToState Samples.State_String
                  Samples.RunningStages Samples.TrimRight job Hdone)
           Samples.controller "jx" a).
Defined.

(** A first report of a success: the status is posted once, and a later
    failure of the same pipeline is not reported. *)
Example report_once_sample :
  let steps :=
    [ (Samples.controller, "jx", Samples.activity RunningState []);
      (Samples.controller, "jx", Samples.activity SuccessState []);
      (Samples.controller, "jx", Samples.activity FailureState []) ] in
  let job := Samples.job PendingState "" (Samples.activity PendingState []) in
  report_states Samples.ToState Samples.State_String Samples.RunningStages
    Samples.TrimRight steps job
  = ["running"; "success"; "success"]
  /\ length (filter (fun e => is_CreateStatus e = true)
               (report_events Samples.ToState Samples.State_String
                  Samples.RunningStages Samples.TrimRight steps job))
     = 2%nat.
Proof. split; vm_compute; reflexivity. Qed.

(** C1, as stated, fails: a job in state success whose activity reports
    running is put back to running, by the projection and in the cache
    after [syncHandler]. *)
Lemma terminal_state_overwritten :
  let a := Samples.activity RunningState [] in
  let job := Samples.job SuccessState "success" a in
  let cache : gmap (string * string) LighthouseJob.t :=
    {[ ("jx", "unit-1") := job ]} in
  terminal (LighthouseJobStatus.State (LighthouseJob.Status job)) = true
  /\ terminal (LighthouseJobStatus.State
                 (LighthouseJob.Status (updateJobStatusForActivity a job)))
     = false
  /\ match syncHandler Samples.ToState Samples.State_String
             Samples.RunningStages Samples.TrimRight Samples.controller
             Samples.SplitMetaNamespaceKey cache "jx/unit-1" with
     | (_, Ok (cache', None)) =>
         (fun j => terminal (LighthouseJobStatus.State (LighthouseJob.Status j)))
           <$> cache' !! ("jx", "unit-1")
     | _ => None
     end = Some false.
Proof. repeat split; vm_compute; reflexivity. Qed.

Lemma job_state_follows_activity_witness :
  let a := Samples.activity RunningState [] in
  let job := Samples.job SuccessState "success" a in
  let cache : gmap (string * string) LighthouseJob.t :=
    {[ ("jx", "unit-1") := job ]} in
  let r :=
    syncHandler Samples.ToState Samples.State_String Samples.RunningStages
      Samples.TrimRight Samples.controller Samples.SplitMetaNamespaceKey
      cache "jx/unit-1" in
  let cache' := match r.2 with Ok (m, _) => m | Panic _ => ∅ end in
  r = (r.1, Ok (cache', None))
  /\ exists job',
       cache' !! ("jx", "unit-1") = Some job'
       /\ LighthouseJobStatus.State (LighthouseJob.Status job') = RunningState.
Proof.
  intros a job cache r cache'.
  assert (Hr : r = (r.1, Ok (cache', None))) by (vm_compute; reflexivity).
  split; [exact Hr|].
  exact (proj2 (job_state_follows_activity Samples.ToState Samples.State_String
                  Samples.RunningStages Samples.TrimRight Samples.controller
                  Samples.SplitMetaNamespaceKey)
           cache cache' "jx/unit-1" "jx" "unit-1" job a r.1 None
           eq_refl eq_refl eq_refl eq_refl Hr).
Defined.

End FoghornFacts.

(** ** Package [webhook] *)

Module WebhookFacts.
Import webhook GoFacts.

Lemma prefix_append (p s : string) : String.prefix p (p ++ s)%string = true.
Proof.
  induction p as [|ch p IH]; simpl; [destruct s; reflexivity|].
  destruct (ascii_dec ch ch); [exact IH|contradiction].
Qed.

Lemma Contains_prefix (s substr : string) :
  String.prefix substr s = true -> Contains s substr = true.
Proof. intros H. destruct s; cbn [Contains]; rewrite H; reflexivity. Qed.

Lemma Contains_cons (ch : ascii) (s substr : string) :
  Contains (String ch s) substr
  = String.prefix substr (String ch s) || Contains s substr.
Proof. reflexivity. Qed.

Lemma Contains_append (pre s substr : string) :
  Contains s substr = true -> Contains (pre ++ s)%string substr = true.
Proof.
  intros H. induction pre as [|ch pre IH]; [exact H|].
  change (String ch pre ++ s)%string with (String ch (pre ++ s)%string).
  rewrite Contains_cons, IH. apply orb_true_r.
Qed.

Section FrontDoor.

Variable PluginConfiguration : Type.
Variable ExternalPluginsForEvent :
  option PluginConfiguration -> string -> string -> list string.
Variable serverHandle : Webhook -> list Effect.
Variable e : Env.

(** C4 (amended) — [/ready] answers 204 when [isReady] holds and 503
    otherwise; [isReady] is constantly true, so [/ready] answers 204 in every
    state of the options, also before any configuration was loaded;
    [/health] always answers 204. *)
Theorem ready_always_204 (o : Options PluginConfiguration) (r : Request) :
  ready o fresh r
  = (if isReady o then WriteHeader fresh StatusNoContent
     else WriteHeader fresh StatusServiceUnavailable)
  /\ isReady o = true
  /\ status (ready o fresh r) = 204
  /\ status (health o fresh r) = 204.
Proof. repeat split. Qed.

(** C8 — For a ping, [ProcessWebHook] makes no call and returns the body
    "pong from lighthouse" followed by the version, with a nil error,
    whatever the mode and the configuration: the check of the repository
    against the configuration is not reached. *)
Theorem ping_answers_pong (o : Options PluginConfiguration) (webhook : Webhook) :
  hook webhook = PingHook ->
  ProcessWebHook serverHandle e o webhook
  = ([], ("pong from lighthouse " ++ version_Version e)%string, None)
  /\ HasPrefix (ProcessWebHook serverHandle e o webhook).1.2
       "pong from lighthouse" = true.
Proof.
  intros Hping. unfold ProcessWebHook. rewrite Hping.
  split; [reflexivity|].
  cbn [fst snd]. unfold HasPrefix.
  apply (prefix_append "pong from lighthouse" (String " " (version_Version e))).
Qed.

(** The requests that reach [ProcessWebHook] with the webhook [webhook] and
    credentials for [token]. *)
Lemma handle_reaches_ProcessWebHook (o : Options PluginConfiguration)
  (r : Request) (webhook : Webhook) (token : string) :
  Method r = "POST" -> ReadAll_err r = None -> Close_err r = None ->
  NewClient_err e (gitKind e) (GIT_SERVER e) "" = None ->
  Webhooks_Parse e r (HMAC_TOKEN e) = Parsed webhook ->
  GetGitHubAppSecretDir e <> "" ->
  FindToken e (scm.Repository.Namespace (Repository webhook)) = inr token ->
  GetAPIClients_err e = None ->
  handleWebHookRequests ExternalPluginsForEvent serverHandle e o fresh r
  = (let '(evs, output, err) := ProcessWebHook serverHandle e o webhook in
     let w :=
       match err with
       | Some err =>
           responseHTTPError fresh StatusInternalServerError
             ("500 Internal Server Error: " ++ err)%string
       | None => fresh
       end in
     let external :=
       ExternalPluginsForEvent (Plugins (server o)) (Kind webhook)
         (scm.Repository.FullName (Repository webhook)) in
     ((SetCredentials (GitHubAppGitRemoteUsername e) token
        :: evs
           ++ (if 0 <? Z.of_nat (length external)
               then [CallExternalPluginsWithWebhook external webhook (HMAC_TOKEN e)]
               else []))%list,
      Ok (Write w output))).
Proof.
  intros Hm Hread Hclose Hclient Hparse Happ Htok Hapi.
  unfold handleWebHookRequests, createSCMClient, hmacToken.
  rewrite Hm, Hread, Hclose, Hclient, Hparse, Htok, Hapi.
  rewrite decide_False by (intros H; apply H; reflexivity).
  rewrite decide_True by exact Happ.
  reflexivity.
Qed.

(** C3 (amended) — For a POST whose body is read and parsed into a
    webhook other than a ping, in GitHub-App mode with a loaded configuration
    and a token found for the owner, when the repository of the webhook has
    no presubmit and no postsubmit: [ProcessWebHook] returns the error
    "repository not configured" without calling any handler; among the calls
    of the request there is no handler of the server, hence no internal
    plugin and no job created, whether or not the cluster clients are
    obtained; and when they are obtained the response is a 500 whose body
    contains that text. *)
Theorem unconfigured_repository_is_rejected (o : Options PluginConfiguration)
  (r : Request) (webhook : Webhook) (token : string) (cfg : Config) :
  Method r = "POST" -> ReadAll_err r = None -> Close_err r = None ->
  NewClient_err e (gitKind e) (GIT_SERVER e) "" = None ->
  Webhooks_Parse e r (HMAC_TOKEN e) = Parsed webhook ->
  GetGitHubAppSecretDir e <> "" ->
  FindToken e (scm.Repository.Namespace (Repository webhook)) = inr token ->
  hook webhook <> PingHook ->
  ConfigAgent (server o) = Some (Some cfg) ->
  GetPostsubmits cfg (Repository webhook) = [] ->
  GetPresubmits cfg (Repository webhook) = [] ->
  ProcessWebHook serverHandle e o webhook
  = ([], "",
     Some ("repository not configured: "
           ++ scm.Repository.Link (Repository webhook))%string)
  /\ exists evs res,
       handleWebHookRequests ExternalPluginsForEvent serverHandle e o fresh r
       = (evs, res)
       /\ filter (fun ev => is_internal ev = true) evs = []
       /\ (GetAPIClients_err e = None ->
           exists w,
             res = Ok w
             /\ status w = 500
             /\ Contains (body w) "repository not configured" = true).
Proof.
  intros Hm Hread Hclose Hclient Hparse Happ Htok Hping Hcfg Hpost Hpre.
  assert (Hp : ProcessWebHook serverHandle e o webhook
               = ([], "",
                  Some ("repository not configured: "
                        ++ scm.Repository.Link (Repository webhook))%string)).
  { unfold ProcessWebHook. rewrite Hcfg, Hpost, Hpre.
    rewrite decide_True by exact Happ. simpl.
    destruct (hook webhook); [contradiction| reflexivity..]. }
  split; [exact Hp|].
  destruct (GetAPIClients_err e) as [err|] eqn:Hapi.
  - unfold handleWebHookRequests, createSCMClient, hmacToken.
    rewrite Hm, Hread, Hclose, Hclient, Hparse, Htok, Hapi.
    rewrite decide_False by (intros H; apply H; reflexivity).
    rewrite decide_True by exact Happ.
    eexists _, _. split; [reflexivity|]. split; [reflexivity|discriminate].
  - rewrite (handle_reaches_ProcessWebHook o r webhook token
               Hm Hread Hclose Hclient Hparse Happ Htok Hapi).
    rewrite Hp. eexists _, _. split; [reflexivity|]. split.
    + cbn [app]. rewrite filter_cons_False by (simpl; discriminate).
      case_match; [|reflexivity].
      rewrite filter_cons_False by (simpl; discriminate). reflexivity.
    + intros _. eexists. split; [reflexivity|]. split; [reflexivity|].
      cbn [body Write WriteHeader responseHTTPError http_Error fresh code].
      apply (Contains_append "500 Internal Server Error: ").
      apply Contains_prefix. reflexivity.
Qed.

End FrontDoor.

(** C4, as stated, fails: before any configuration is loaded [/ready]
    answers 204, not 503. *)
Lemma ready_before_any_config_load :
  ConfigAgent (server Samples.unloaded) = Some None
  /\ Plugins (server Samples.unloaded) = None
  /\ status (ready Samples.unloaded fresh (Samples.post "")) = 204
  /\ status (ready Samples.unloaded fresh (Samples.post "")) <> 503.
Proof. repeat split. discriminate. Qed.

Lemma ping_answers_pong_witness :
  hook Samples.ping = PingHook
  /\ GetGitHubAppSecretDir Samples.app <> ""
  /\ GetPostsubmits Samples.config (Repository Samples.ping) = []
  /\ GetPresubmits Samples.config (Repository Samples.ping) = []
  /\ ProcessWebHook Samples.serverHandle Samples.app (Samples.loaded [])
       Samples.ping
     = ([], "pong from lighthouse 0.0.1", None).
Proof.
  split; [reflexivity|]. split; [discriminate|].
  split; [reflexivity|]. split; [reflexivity|].
  exact (proj1 (ping_answers_pong (list string) Samples.serverHandle Samples.app
                  (Samples.loaded []) Samples.ping eq_refl)).
Defined.

Lemma unconfigured_repository_is_rejected_witness :
  ProcessWebHook Samples.serverHandle Samples.app (Samples.loaded ["ext"])
    (Samples.push "unknown")
  = ([], "", Some "repository not configured: https://github.com/org/unknown")
  /\ exists evs res,
       handleWebHookRequests Samples.ExternalPluginsForEvent
         Samples.serverHandle Samples.app (Samples.loaded ["ext"]) fresh
         (Samples.post "unknown")
       = (evs, res)
       /\ filter (fun ev => is_internal ev = true) evs = []
       /\ (GetAPIClients_err Samples.app = None ->
           exists w,
             res = Ok w
             /\ status w = 500
             /\ Contains (body w) "repository not configured" = true).
Proof.
  apply (unconfigured_repository_is_rejected (list string)
           Samples.ExternalPluginsForEvent Samples.serverHandle Samples.app
           (Samples.loaded ["ext"]) (Samples.post "unknown")
           (Samples.push "unknown") "t0ken" Samples.config);
    try reflexivity; discriminate.
Defined.

(** C3, as stated, fails twice: a ping from an unconfigured repository is
    answered 200 with the pong, and a push from an unconfigured repository
    is still handed to the external plugins subscribed to it. *)
Lemma unconfigured_repository_ping_and_external :
  (GetGitHubAppSecretDir Samples.app <> ""
   /\ ConfigAgent (server (Samples.loaded ["ext"])) = Some (Some Samples.config)
   /\ GetPostsubmits Samples.config (Samples.repository "unknown") = []
   /\ GetPresubmits Samples.config (Samples.repository "unknown") = [])
  /\ handleWebHookRequests Samples.ExternalPluginsForEvent Samples.serverHandle
       Samples.app (Samples.loaded []) fresh (Samples.post "ping")
     = ([SetCredentials "x-access-token" "t0ken"],
        Ok {| code := Some 200; body := "pong from lighthouse 0.0.1" |})
  /\ (handleWebHookRequests Samples.ExternalPluginsForEvent Samples.serverHandle
        Samples.app (Samples.loaded ["ext"]) fresh (Samples.post "unknown")).1
     = [SetCredentials "x-access-token" "t0ken";
        CallExternalPluginsWithWebhook ["ext"] (Samples.push "unknown") "s3cret"].
Proof.
  split; [repeat split; discriminate|].
  split; vm_compute; reflexivity.
Qed.

(** A push to a configured repository reaches the handlers. *)
Example configured_repository_sample :
  handleWebHookRequests Samples.ExternalPluginsForEvent Samples.serverHandle
    Samples.app (Samples.loaded []) fresh (Samples.post "repo")
  = ([SetCredentials "x-access-token" "t0ken";
      HandleEvent (Samples.push "repo");
      Internal (PluginHandler "trigger");
      Internal (CreateLighthouseJob "unit")],
     Ok {| code := Some 200; body := "processed push hook" |}).
Proof. vm_compute. reflexivity. Qed.

End WebhookFacts.

(** ** Package [launcher] *)

Module LauncherFacts.
Import v1alpha1 launcher GoFacts.

Section Launch.

Variable PullRef_String : PullRef -> string.
Variable GetEnvVars : LighthouseJobSpec.t -> gmap string string.
Variable ToValidName : string -> string.
Variable BuildNumLabel : string.
Variable e : Env.
Variable namespace : string.

(** What [Launch] logs and submits first. *)
Lemma Launch_starts (request : LighthouseJob.t) (repository : scm.Repository.t)
  (refs : Refs.t) :
  LighthouseJobSpec.Refs (LighthouseJob.Spec request) = Some refs ->
  exists fields param evs res,
    Launch PullRef_String GetEnvVars ToValidName BuildNumLabel e namespace
      request repository
    = (Info fields :: metapipeline_Create param :: evs, res)
    /\ Branch fields = launchBranch (LighthouseJob.Spec request) refs repository
    /\ PipelineKind_ param = launchKind refs.
Proof.
  intros Hrefs. unfold Launch. rewrite Hrefs.
  repeat case_match; eexists _, _, _, _; (split; [reflexivity|]);
    split; reflexivity.
Qed.

Lemma launchBranch_fallback (spec : LighthouseJobSpec.t) (refs : Refs.t)
  (repository : scm.Repository.t) :
  launchBranch spec refs repository
  = (if decide (getBranch spec refs <> "") then getBranch spec refs
     else if decide (scm.Repository.Branch repository <> "")
          then scm.Repository.Branch repository
          else "master").
Proof.
  unfold launchBranch. generalize (getBranch spec refs) as gb. intros gb.
  repeat case_decide; subst; first [reflexivity | contradiction | tauto].
Qed.

Lemma getBranch_without_pulls (spec : LighthouseJobSpec.t) (refs : Refs.t) :
  LighthouseJobSpec.Type_ spec <> BatchJob -> Refs.Pulls refs = [] ->
  getBranch spec refs = Refs.BaseRef refs.
Proof.
  intros Hbatch Hpulls. unfold getBranch. rewrite Hpulls.
  case_decide; [reflexivity|].
  rewrite decide_False by assumption. reflexivity.
Qed.

(** C7 — [Launch] logs the branch and submits the pipeline kind such that:
    the kind is release exactly when the pulls list is empty; the branch is
    the [baseRef] for a postsubmit, "batch" for a batch job, and "PR-n" with
    the number of the first pull for any other spec with pulls; a spec
    without pulls that is not a batch job gets its [baseRef]; and an empty
    result falls back to the branch of the repository and then to
    "master". *)
Theorem launch_branch_and_kind (request : LighthouseJob.t)
  (repository : scm.Repository.t) (refs : Refs.t) :
  LighthouseJobSpec.Refs (LighthouseJob.Spec request) = Some refs ->
  let spec := LighthouseJob.Spec request in
  let type := LighthouseJobSpec.Type_ spec in
  (exists fields param evs res,
      Launch PullRef_String GetEnvVars ToValidName BuildNumLabel e namespace
        request repository
      = (Info fields :: metapipeline_Create param :: evs, res)
      /\ Branch fields = launchBranch spec refs repository
      /\ PipelineKind_ param = launchKind refs)
  /\ (Refs.Pulls refs = [] -> launchKind refs = ReleasePipeline)
  /\ (Refs.Pulls refs <> [] -> launchKind refs = PullRequestPipeline)
  /\ (type = PostsubmitJob -> getBranch spec refs = Refs.BaseRef refs)
  /\ (type = BatchJob -> getBranch spec refs = "batch")
  /\ (type <> PostsubmitJob -> type <> BatchJob ->
      forall p rest, Refs.Pulls refs = p :: rest ->
        getBranch spec refs = ("PR-" ++ Itoa (Number p))%string)
  /\ (type <> BatchJob -> Refs.Pulls refs = [] ->
      getBranch spec refs = Refs.BaseRef refs
      /\ launchBranch spec refs repository
         = (if decide (Refs.BaseRef refs <> "") then Refs.BaseRef refs
            else if decide (scm.Repository.Branch repository <> "")
                 then scm.Repository.Branch repository
                 else "master"))
  /\ launchBranch spec refs repository
     = (if decide (getBranch spec refs <> "") then getBranch spec refs
        else if decide (scm.Repository.Branch repository <> "")
             then scm.Repository.Branch repository
             else "master").
Proof.
  intros Hrefs spec type.
  split; [apply Launch_starts, Hrefs|].
  repeat split; [| | | | | | |apply launchBranch_fallback];
    [| | | | |apply getBranch_without_pulls; assumption
     |rewrite launchBranch_fallback, getBranch_without_pulls by assumption;
      reflexivity];
    unfold launchKind, getBranch; fold spec type.
  - intros ->. reflexivity.
  - intros Hne. destruct (Refs.Pulls refs); [contradiction|reflexivity].
  - intros Ht. rewrite decide_True by exact Ht. reflexivity.
  - intros Ht. rewrite decide_False by (rewrite Ht; discriminate).
    rewrite decide_True by exact Ht. reflexivity.
  - intros Hpost Hbatch p rest ->.
    rewrite !decide_False by assumption. reflexivity.
Qed.

End Launch.

Lemma launch_branch_and_kind_witness :
  let refs := Samples.refs "" [] in
  let request := Samples.request PostsubmitJob refs in
  let repository := Samples.repository "repo" in
  (LighthouseJobSpec.Refs (LighthouseJob.Spec request) = Some refs
   /\ Refs.Pulls refs = []
   /\ LighthouseJobSpec.Type_ (LighthouseJob.Spec request) <> BatchJob)
  /\ launchKind refs = ReleasePipeline
  /\ getBranch (LighthouseJob.Spec request) refs = Refs.BaseRef refs
  /\ launchBranch (LighthouseJob.Spec request) refs repository = "main".
Proof.
  intros refs request repository.
  assert (Hb : LighthouseJobSpec.Type_ (LighthouseJob.Spec request) <> BatchJob)
    by discriminate.
  split; [repeat split; exact Hb|].
  destruct (launch_branch_and_kind Samples.PullRef_String Samples.GetEnvVars
              Samples.ToValidName "build" Samples.engine "jx"
              request repository refs eq_refl)
    as (_ & Hrel & _ & _ & _ & _ & Hbase & _).
  split; [exact (Hrel eq_refl)|].
  destruct (Hbase Hb eq_refl) as (Hget & Hlaunch).
  split; [exact Hget|]. rewrite Hlaunch. reflexivity.
Defined.

Example launch_samples :
  let branch type baseRef pulls repoBranch :=
    launchBranch (Samples.spec_of type (Samples.refs baseRef pulls))
      (Samples.refs baseRef pulls)
      (scm.Repository.mk "1" "org" "repo" "org/repo" repoBranch "" "") in
  branch PostsubmitJob "release-1" [] "main" = "release-1"
  /\ branch PostsubmitJob "" [] "main" = "main"
  /\ branch PostsubmitJob "" [] "" = "master"
  /\ branch PeriodicJob "" [] "" = "master"
  /\ branch BatchJob "master" [Samples.pull 2 "b"; Samples.pull 3 "c"] "main"
     = "batch"
  /\ branch PresubmitJob "master" [Samples.pull 7 "abc"; Samples.pull 9 "x"] "main"
     = "PR-7".
Proof. repeat split; vm_compute; reflexivity. Qed.

Example Launch_sample :
  (Launch Samples.PullRef_String Samples.GetEnvVars Samples.ToValidName
     "build" Samples.engine "jx"
     (Samples.request PresubmitJob (Samples.refs "master" [Samples.pull 7 "abc"]))
     (Samples.repository "repo")).1
  !! 0%nat
  = Some (Info {| Owner := "org"; Name := "repo";
                  SourceURL := "https://github.com/org/repo.git";
                  Branch := "PR-7"; PullRefs := "master:def,7:abc";
                  Job := "unit" |}).
Proof. vm_compute. reflexivity. Qed.

End LauncherFacts.

(** * Further properties *)

(** ** Package [history]: pools, merging *)

Module HistoryMore.
Import v1alpha1 history GoFacts HistoryFacts.
Local Open Scope list_scope.

Lemma toSlice_kept (rl rl' : recordLog) (snap : list Record_) :
  toSlice rl = Ok (snap, rl') -> kept rl' = kept rl.
Proof.
  unfold toSlice. destruct (cachedSlice rl).
  - intros [= _ <-]. reflexivity.
  - destruct (toSlice_loop _ _ _); [|discriminate]. cbn [bind].
    intros [= _ <-]. reflexivity.
Qed.

Lemma omap_some_nonempty {A B : Type} (g : A -> option B) (l : list A)
  (x : A) (y : B) :
  x ∈ l -> g x = Some y -> omap g l <> [].
Proof.
  induction l as [|a l IH]; intros Hin Hg; [inversion Hin|].
  simpl. apply elem_of_cons in Hin as [<-|Hin].
  - rewrite Hg. discriminate.
  - destruct (g a); [discriminate|]. apply IH; assumption.
Qed.

Lemma first_panic_None_inv {A : Type} (m : gmap string (Res A))
  (key : string) (x : Res A) :
  first_panic m = None -> m !! key = Some x -> exists a, x = Ok a.
Proof.
  unfold first_panic. intros Hnone Hx. destruct x as [a|p]; [eauto|].
  exfalso.
  apply (omap_some_nonempty
           (fun kr : string * Res A =>
              match kr.2 with Panic p => Some p | Ok _ => None end)
           (map_to_list m) (key, Panic p) p).
  - apply elem_of_map_to_list. exact Hx.
  - reflexivity.
  - destruct (omap _ (map_to_list m)); [reflexivity|discriminate].
Qed.

Lemma AllRecords_inv (h h' : History) (snap : gmap string (list Record_)) :
  AllRecords h = Ok (snap, h') ->
  logSizeLimit h' = logSizeLimit h /\ path h' = path h
  /\ forall key : string,
       match logs h !! key with
       | Some rl =>
           exists s rl', toSlice rl = Ok (s, rl')
             /\ snap !! key = Some s /\ logs h' !! key = Some rl'
       | None => snap !! key = None /\ logs h' !! key = None
       end.
Proof.
  unfold AllRecords. destruct (first_panic _) eqn:Hfp; [discriminate|].
  intros [= <- <-]. cbn [logSizeLimit path logs].
  split; [reflexivity|]. split; [reflexivity|].
  intros key. rewrite !lookup_omap, lookup_fmap.
  destruct (logs h !! key) as [rl|] eqn:Hk; simpl; [|auto].
  destruct (first_panic_None_inv _ key (toSlice rl) Hfp) as [[s rl'] Hs].
  { rewrite lookup_fmap, Hk. reflexivity. }
  rewrite Hs. simpl. eauto.
Qed.

Lemma addRecord_inv (h h' : History) (poolKey : string) (rec : Record_) :
  addRecord h poolKey rec = Ok h' ->
  logSizeLimit h' = logSizeLimit h /\ path h' = path h
  /\ forall key : string, key <> poolKey -> logs h' !! key = logs h !! key.
Proof.
  unfold addRecord. destruct (add _ rec); [|discriminate]. cbn [bind].
  intros [= <-]. cbn [logSizeLimit path logs].
  split; [reflexivity|]. split; [reflexivity|].
  intros key Hne. apply lookup_insert_ne. congruence.
Qed.

Section Pools.

Variable sort_Sort : list Pull -> list Pull.

(** X1 — A run of [Record] and [AllRecords] calls none of which records
    under the pool [key] leaves the log of that pool as it was: the same
    records in the same slots, the same head and limit (only its cache may
    have been filled), however much is recorded under other pools. *)
Theorem inactive_pool_is_retained (calls : list call) :
  forall (h h' : History) (key : string),
    run sort_Sort h calls = Ok h' ->
    recorded sort_Sort key calls = [] ->
    kept <$> logs h' !! key = kept <$> logs h !! key.
Proof.
  induction calls as [|[t k a b e ts|] calls IH]; intros h h' key Hrun Hrec.
  - injection Hrun as <-. reflexivity.
  - simpl in Hrun.
    destruct (Record sort_Sort h t k a b e ts) as [h1|] eqn:Hr; [|discriminate].
    cbn [bind] in Hrun. unfold recorded in Hrec. simpl in Hrec.
    destruct (decide (k = key)) as [->|Hne]; [discriminate|].
    rewrite (IH h1 h' key Hrun Hrec).
    destruct (addRecord_inv _ _ _ _ Hr) as (_ & _ & Hother).
    rewrite Hother by congruence. reflexivity.
  - simpl in Hrun.
    destruct (AllRecords h) as [[snap h1]|] eqn:Hr; [|discriminate].
    cbn [bind snd] in Hrun.
    rewrite (IH h1 h' key Hrun Hrec).
    destruct (AllRecords_inv _ _ _ Hr) as (_ & _ & Hlogs).
    specialize (Hlogs key). destruct (logs h !! key) as [rl|].
    + destruct Hlogs as (s & rl' & Hts & _ & ->). simpl.
      rewrite (toSlice_kept _ _ _ Hts). reflexivity.
    + destruct Hlogs as (_ & ->). reflexivity.
Qed.

End Pools.

Lemma inactive_pool_is_retained_witness :
  let h :=
    match run insertionSort (New 2 "") (take 4 Samples.calls) with
    | Ok h => h
    | Panic _ => New 2 ""
    end in
  exists h',
    (run insertionSort h (drop 4 Samples.calls) = Ok h'
     /\ recorded insertionSort "org/other:main" (drop 4 Samples.calls) = [])
    /\ is_Some (logs h !! "org/other:main")
    /\ kept <$> logs h' !! "org/other:main"
       = kept <$> logs h !! "org/other:main".
Proof.
  intros h.
  destruct (run insertionSort h (drop 4 Samples.calls)) as [h'|p] eqn:Hrun;
    [|vm_compute in Hrun; discriminate].
  exists h'. split; [split; reflexivity|].
  split; [vm_compute; eauto|].
  exact (inactive_pool_is_retained insertionSort (drop 4 Samples.calls) h h'
           "org/other:main" Hrun eq_refl).
Defined.

(** *** Merging *)

Lemma stores_ext (L : Z) (c c' : string -> list Record_) (h : History) :
  (forall key, c key = c' key) -> stores L c h -> stores L c' h.
Proof.
  intros Heq (Hlim & Hlogs). split; [exact Hlim|].
  intros key. specialize (Hlogs key). rewrite <- Heq. exact Hlogs.
Qed.

Lemma tracks_stores (sort_Sort : list Pull -> list Pull) (L : Z)
  (calls : list call) (h : History) :
  tracks sort_Sort L calls h ->
  stores L (fun key => recorded sort_Sort key calls) h.
Proof. intros Ht. exact Ht. Qed.

Lemma stores_addRecord (L : Z) (c : string -> list Record_) (h : History)
  (poolKey : string) (rec : Record_) :
  1 <= L <= int_max -> stores L c h ->
  exists h', addRecord h poolKey rec = Ok h'
    /\ stores L (fun key => if decide (key = poolKey) then c key ++ [rec]
                            else c key) h'.
Proof.
  intros HL (Hlim & Hlogs). unfold addRecord.
  assert (Hh : holds L (c poolKey)
                 (default (newRecordLog (logSizeLimit h)) (logs h !! poolKey))).
  { specialize (Hlogs poolKey). destruct (logs h !! poolKey) as [rl|]; simpl.
    - apply Hlogs.
    - rewrite Hlogs, Hlim. apply holds_new. lia. }
  destruct (holds_add L _ _ rec HL Hh) as (rl' & Hadd & Hh').
  rewrite Hadd. cbn [bind]. eexists; split; [reflexivity|].
  split; [exact Hlim|]. intros key. cbn [logs].
  destruct (decide (key = poolKey)) as [->|Hne].
  - rewrite lookup_insert_eq. split; [exact Hh'|].
    destruct (c poolKey); discriminate.
  - rewrite lookup_insert_ne by congruence. apply Hlogs.
Qed.

Lemma stores_addRecords (L : Z) (poolKey : string) (new : list Record_) :
  1 <= L <= int_max ->
  forall (c : string -> list Record_) (h : History),
    stores L c h ->
    exists h', addRecords h poolKey new = Ok h'
      /\ stores L (fun key => if decide (key = poolKey) then c key ++ new
                              else c key) h'.
Proof.
  intros HL. induction new as [|rec new IH]; intros c h Hs.
  - exists h. split; [reflexivity|].
    eapply stores_ext; [|exact Hs]. intros key. simpl.
    case_decide; [rewrite app_nil_r|]; reflexivity.
  - destruct (stores_addRecord L c h poolKey rec HL Hs) as (h1 & Hadd & Hs1).
    destruct (IH _ _ Hs1) as (h' & Hrun & Hs').
    exists h'. simpl. rewrite Hadd. cbn [bind]. split; [exact Hrun|].
    eapply stores_ext; [|exact Hs']. intros key. simpl.
    case_decide; [rewrite <- app_assoc|]; reflexivity.
Qed.

Lemma gathered_cons (key k : string) (v : list Record_)
  (pools : list (string * list Record_)) :
  gathered key ((k, v) :: pools)
  = (if decide (k = key) then v else []) ++ gathered key pools.
Proof. unfold gathered. simpl. case_decide; reflexivity. Qed.

Lemma stores_mergePools (L : Z) (pools : list (string * list Record_)) :
  1 <= L <= int_max ->
  forall (c : string -> list Record_) (h : History),
    stores L c h ->
    exists h', mergePools h pools = Ok h'
      /\ stores L (fun key => c key ++ gathered key pools) h'.
Proof.
  intros HL. induction pools as [|[k new] pools IH]; intros c h Hs.
  - exists h. split; [reflexivity|].
    eapply stores_ext; [|exact Hs]. intros key.
    unfold gathered. simpl. rewrite app_nil_r. reflexivity.
  - destruct (stores_addRecords L k new HL c h Hs) as (h1 & Hadd & Hs1).
    destruct (IH _ _ Hs1) as (h' & Hrun & Hs').
    exists h'. simpl. rewrite Hadd. cbn [bind]. split; [exact Hrun|].
    eapply stores_ext; [|exact Hs']. intros key. simpl.
    rewrite gathered_cons.
    destruct (decide (key = k)) as [->|Hne].
    + rewrite decide_True by reflexivity. rewrite app_assoc. reflexivity.
    + rewrite decide_False by congruence. reflexivity.
Qed.

Lemma gathered_absent (key : string) (pools : list (string * list Record_)) :
  key ∉ pools.*1 -> gathered key pools = [].
Proof.
  induction pools as [|[k v] pools IH]; intros Hnot; [reflexivity|].
  simpl in Hnot. apply not_elem_of_cons in Hnot as [Hne Hnot].
  rewrite gathered_cons, decide_False by congruence. apply IH, Hnot.
Qed.

Lemma gathered_unique (key : string) (v : list Record_)
  (pools : list (string * list Record_)) :
  NoDup pools.*1 -> (key, v) ∈ pools -> gathered key pools = v.
Proof.
  induction pools as [|[k w] pools IH]; intros Hnd Hin; [inversion Hin|].
  simpl in Hnd. apply NoDup_cons in Hnd as [Hk Hnd].
  rewrite gathered_cons.
  apply elem_of_cons in Hin as [[= <- <-]|Hin].
  - rewrite decide_True by reflexivity.
    rewrite gathered_absent by exact Hk. apply app_nil_r.
  - rewrite decide_False.
    + apply IH; assumption.
    + intros ->. apply Hk. apply (list_elem_of_fmap_2 fst _ _ Hin).
Qed.

Lemma gathered_map_to_list (key : string) (m : gmap string (list Record_)) :
  gathered key (map_to_list m) = default [] (m !! key).
Proof.
  destruct (m !! key) as [v|] eqn:Hk; simpl.
  - apply gathered_unique; [apply NoDup_fst_map_to_list|].
    apply elem_of_map_to_list. exact Hk.
  - apply gathered_absent. intros Hin.
    apply list_elem_of_fmap in Hin as ([k v] & -> & Hin).
    apply elem_of_map_to_list in Hin. simpl in Hk. congruence.
Qed.

Lemma stores_AllRecords (L : Z) (c : string -> list Record_) (h : History) :
  1 <= L <= 2 ^ 62 -> stores L c h ->
  exists snap h', AllRecords h = Ok (snap, h')
    /\ stores L c h'
    /\ forall key : string,
         snap !! key
         = if decide (c key = []) then None
           else Some (take (Z.to_nat L) (rev (c key))).
Proof.
  intros HL (Hlim & Hlogs). unfold AllRecords.
  rewrite first_panic_None.
  2:{ intros key x Hx. rewrite lookup_fmap in Hx.
      specialize (Hlogs key). destruct (logs h !! key) as [rl|]; [|discriminate].
      destruct (holds_toSlice L _ rl HL (proj1 Hlogs)) as (rl' & Hts & _).
      simpl in Hx. injection Hx as <-. eauto. }
  eexists _, _. split; [reflexivity|]. split.
  - split; [exact Hlim|]. intros key. cbn [logs].
    rewrite lookup_omap, lookup_fmap.
    specialize (Hlogs key). destruct (logs h !! key) as [rl|]; simpl.
    + destruct (holds_toSlice L _ rl HL (proj1 Hlogs)) as (rl' & Hts & Hh').
      rewrite Hts. simpl. split; [exact Hh'|apply Hlogs].
    + exact Hlogs.
  - intros key. rewrite lookup_omap, lookup_fmap.
    specialize (Hlogs key). destruct (logs h !! key) as [rl|]; simpl.
    + destruct (holds_toSlice L _ rl HL (proj1 Hlogs)) as (rl' & Hts & Hh').
      rewrite Hts. simpl. rewrite decide_False by apply Hlogs. reflexivity.
    + rewrite decide_True by exact Hlogs. reflexivity.
Qed.

Lemma stores_Merge (L L2 : Z) (c c2 : string -> list Record_)
  (h other : History) :
  1 <= L <= 2 ^ 62 -> 1 <= L2 <= 2 ^ 62 ->
  stores L c h -> stores L2 c2 other ->
  exists h' other', Merge h other = Ok (h', other')
    /\ stores L2 c2 other'
    /\ stores L (fun key => c key ++ take (Z.to_nat L2) (rev (c2 key))) h'.
Proof.
  intros HL HL2 Hs Hs2. unfold Merge.
  destruct (stores_AllRecords L2 c2 other HL2 Hs2) as (snap & other' & Hall & Hs2' & Hsnap).
  rewrite Hall. cbn [bind fst snd].
  destruct (stores_mergePools L (map_to_list snap) ltac:(unfold int_max; lia) c h Hs)
    as (h' & Hm & Hs').
  rewrite Hm. cbn [bind]. exists h', other'. split; [reflexivity|].
  split; [exact Hs2'|].
  eapply stores_ext; [|exact Hs']. intros key. simpl.
  rewrite gathered_map_to_list, Hsnap.
  destruct (decide (c2 key = [])) as [->|_]; simpl; [|reflexivity].
  rewrite take_nil. reflexivity.
Qed.

Section Merging.

Variable sort_Sort : list Pull -> list Pull.

(** X2 — [Merge] adds to every pool of the history merged into the
    records the other history retains for that pool, in the order
    [AllRecords] lists them, that is newest first.  Reading the merged
    history therefore lists, for each pool, the other history's retained
    records oldest first, followed by the history's own records newest
    first, cut after the capacity. *)
Theorem Merge_appends_newest_first (L L2 : Z) (path path2 : string)
  (calls calls2 : list call) :
  1 <= L < 2 ^ 62 -> 1 <= L2 < 2 ^ 62 ->
  exists h other h' other' snap h'',
    run sort_Sort (New L path) calls = Ok h
    /\ run sort_Sort (New L2 path2) calls2 = Ok other
    /\ Merge h other = Ok (h', other')
    /\ AllRecords h' = Ok (snap, h'')
    /\ forall key : string,
         let own := recorded sort_Sort key calls in
         let theirs :=
           take (Z.to_nat L2) (rev (recorded sort_Sort key calls2)) in
         snap !! key
         = if decide (own = [] /\ theirs = []) then None
           else Some (take (Z.to_nat L) (rev theirs ++ rev own)).
Proof.
  intros HL' HL2'.
  assert (HL : 1 <= L <= 2 ^ 62) by lia.
  assert (HL2 : 1 <= L2 <= 2 ^ 62) by lia.
  destruct (tracks_run sort_Sort L calls HL [] (New L path)
              (tracks_New sort_Sort L path)) as (h & Hrun & Ht).
  destruct (tracks_run sort_Sort L2 calls2 HL2 [] (New L2 path2)
              (tracks_New sort_Sort L2 path2)) as (other & Hrun2 & Ht2).
  simpl in Ht, Ht2.
  destruct (stores_Merge L L2 _ _ h other HL HL2
              (tracks_stores _ _ _ _ Ht) (tracks_stores _ _ _ _ Ht2))
    as (h' & other' & Hm & _ & Hs').
  destruct (stores_AllRecords L _ h' HL Hs') as (snap & h'' & Hall & _ & Hsnap).
  exists h, other, h', other', snap, h''.
  repeat (split; [assumption|]).
  intros key own theirs. rewrite Hsnap. fold own theirs.
  rewrite rev_app_distr.
  destruct (decide (own ++ theirs = [])) as [Hnil|Hne].
  - apply app_eq_nil in Hnil. rewrite decide_True by exact Hnil. reflexivity.
  - rewrite decide_False; [reflexivity|].
    intros [-> ->]. apply Hne. reflexivity.
Qed.

End Merging.

Lemma Merge_appends_newest_first_witness :
  (1 <= 5 < 2 ^ 62 /\ 1 <= 2 < 2 ^ 62)
  /\ exists h other h' other' snap h'',
    run insertionSort (New 5 "") (take 1 Samples.calls) = Ok h
    /\ run insertionSort (New 2 "") (drop 2 Samples.calls) = Ok other
    /\ Merge h other = Ok (h', other')
    /\ AllRecords h' = Ok (snap, h'')
    /\ forall key : string,
         let own := recorded insertionSort key (take 1 Samples.calls) in
         let theirs :=
           take (Z.to_nat 2)
             (rev (recorded insertionSort key (drop 2 Samples.calls))) in
         snap !! key
         = if decide (own = [] /\ theirs = []) then None
           else Some (take (Z.to_nat 5) (rev theirs ++ rev own)).
Proof.
  split; [lia|].
  apply (Merge_appends_newest_first insertionSort 5 2 "" ""
           (take 1 Samples.calls) (drop 2 Samples.calls)); lia.
Defined.

(** *** Reading twice, flushing *)

Lemma toSlice_cached (rl rl' : recordLog) (snap : list Record_) :
  toSlice rl = Ok (snap, rl') -> toSlice rl' = Ok (snap, rl').
Proof.
  unfold toSlice. destruct (cachedSlice rl) eqn:Hc.
  - intros [= <- <-]. rewrite Hc. reflexivity.
  - destruct (toSlice_loop _ _ _); [|discriminate]. cbn [bind].
    intros [= <- <-]. reflexivity.
Qed.

Lemma AllRecords_again (h h' : History) (snap : gmap string (list Record_)) :
  AllRecords h = Ok (snap, h') -> AllRecords h' = Ok (snap, h').
Proof.
  intros Hall. destruct (AllRecords_inv _ _ _ Hall) as (_ & _ & Hlogs).
  assert (Hk : forall key : string,
             match logs h' !! key with
             | Some rl' => exists s, toSlice rl' = Ok (s, rl') /\ snap !! key = Some s
             | None => snap !! key = None
             end).
  { intros key. specialize (Hlogs key). destruct (logs h !! key).
    - destruct Hlogs as (s & rl' & Hts & Hs & ->). exists s.
      split; [exact (toSlice_cached _ _ _ Hts)|exact Hs].
    - destruct Hlogs as (Hs & ->). exact Hs. }
  unfold AllRecords. rewrite first_panic_None.
  2:{ intros key x Hx. rewrite lookup_fmap in Hx. specialize (Hk key).
      destruct (logs h' !! key); [|discriminate].
      destruct Hk as (s & Hts & _). simpl in Hx. injection Hx as <-. eauto. }
  f_equal. f_equal.
  - apply map_eq. intros key. rewrite lookup_omap, lookup_fmap.
    specialize (Hk key). destruct (logs h' !! key); simpl.
    + destruct Hk as (s & -> & ->). reflexivity.
    + symmetry. exact Hk.
  - destruct h' as [lg lim p]. cbn [logs logSizeLimit path] in *. f_equal.
    apply map_eq. intros key. rewrite lookup_omap, lookup_fmap.
    specialize (Hk key). destruct (lg !! key); simpl; [|reflexivity].
    destruct Hk as (s & -> & _). reflexivity.
Qed.

Lemma toSlice_fills (rl rl' : recordLog) (snap : list Record_) :
  toSlice rl = Ok (snap, rl') -> cachedSlice rl' = Some snap.
Proof.
  unfold toSlice. destruct (cachedSlice rl) eqn:Hc.
  - intros [= <- <-]. exact Hc.
  - destruct (toSlice_loop _ _ _); [|discriminate]. cbn [bind].
    intros [= <- <-]. reflexivity.
Qed.

Lemma add_clears_cache (rl rl' : recordLog) (rec : Record_) :
  add rl rec = Ok rl' -> cachedSlice rl' = None.
Proof.
  unfold add. destruct (rem _ _); [|discriminate]. cbn [bind].
  destruct (_ <? _); [intros [= <-]; reflexivity|].
  destruct (assign _ _ _); [|discriminate]. cbn [bind].
  intros [= <-]. reflexivity.
Qed.

(** X11 — The snapshot of [AllRecords] is cached until the next write.
    After a call every log of the history holds, as its cached slice,
    exactly the records the call returned for its pool; a second call right
    after the first returns the same records for every pool and leaves the
    history exactly as the first call left it; and adding a record to a pool
    empties the cache of that pool and of no other. *)
Theorem AllRecords_is_cached (h h' : History)
  (snap : gmap string (list Record_)) :
  AllRecords h = Ok (snap, h') ->
  (forall key : string,
      cachedSlice <$> logs h' !! key = Some <$> snap !! key)
  /\ AllRecords h' = Ok (snap, h')
  /\ forall (key : string) (rec : Record_) (h2 : History),
       addRecord h' key rec = Ok h2 ->
       cachedSlice <$> logs h2 !! key = Some None
       /\ forall k : string, k <> key -> logs h2 !! k = logs h' !! k.
Proof.
  intros Hall. split; [|split; [exact (AllRecords_again _ _ _ Hall)|]].
  - intros key. destruct (AllRecords_inv _ _ _ Hall) as (_ & _ & Hlogs).
    specialize (Hlogs key). destruct (logs h !! key) as [rl|].
    + destruct Hlogs as (s & rl' & Hts & -> & ->). simpl.
      rewrite (toSlice_fills _ _ _ Hts). reflexivity.
    + destruct Hlogs as (-> & ->). reflexivity.
  - intros key rec h2 Hadd. split.
    + unfold addRecord in Hadd.
      destruct (add _ rec) as [rl'|] eqn:Ha; [|discriminate].
      cbn [bind] in Hadd. injection Hadd as <-. cbn [logs].
      rewrite lookup_insert_eq. simpl.
      rewrite (add_clears_cache _ _ _ Ha). reflexivity.
    + destruct (addRecord_inv _ _ _ _ Hadd) as (_ & _ & Hother).
      exact Hother.
Qed.

Lemma AllRecords_is_cached_witness :
  let h :=
    match run insertionSort (New 2 "") Samples.calls with
    | Ok h => h
    | Panic _ => New 2 ""
    end in
  exists snap h',
    AllRecords h = Ok (snap, h')
    /\ length <$> snap !! "org/repo:master" = Some 2%nat
    /\ cachedSlice <$> logs h' !! "org/repo:master"
       = Some <$> snap !! "org/repo:master"
    /\ AllRecords h' = Ok (snap, h').
Proof.
  intros h.
  destruct (AllRecords h) as [[snap h']|p] eqn:Hall;
    [|vm_compute in Hall; discriminate].
  exists snap, h'. split; [reflexivity|].
  split.
  - vm_compute in Hall. injection Hall as <- _. vm_compute. reflexivity.
  - destruct (AllRecords_is_cached h h' snap Hall) as (Hcache & Hagain & _).
    split; [exact (Hcache "org/repo:master")|exact Hagain].
Defined.

Section Flushing.

Variable sort_Sort : list Pull -> list Pull.

(** X12 — [Flush] changes no record and persists none.  On the history
    any run of [Record] and [AllRecords] calls leaves, with a capacity
    within range, [Flush] returns; every pool keeps its records in their
    slots (only the caches may be filled), so the records read after the
    flush are those read before it; and since [writeHistory] writes nothing
    and [readHistory] reads nothing, a history opened anew on the same path
    has no pool at all. *)
Theorem Flush_changes_no_record (L : Z) (path : string) (calls : list call) :
  1 <= L < 2 ^ 62 ->
  exists h h' snap h1 h2,
    run sort_Sort (New L path) calls = Ok h
    /\ Flush h = Ok h'
    /\ AllRecords h = Ok (snap, h1)
    /\ AllRecords h' = Ok (snap, h2)
    /\ (forall key : string, kept <$> logs h' !! key = kept <$> logs h !! key)
    /\ logs (New (logSizeLimit h') (history.path h')) = ∅.
Proof.
  intros HL'. assert (HL : 1 <= L <= 2 ^ 62) by lia.
  destruct (tracks_run sort_Sort L calls HL [] (New L path)
              (tracks_New sort_Sort L path)) as (h & Hrun & Ht).
  simpl in Ht.
  destruct (stores_AllRecords L _ h HL (tracks_stores _ _ _ _ Ht))
    as (snap & h1 & Hall & _ & _).
  assert (Hnew : forall l p, logs (New l p) = ∅)
    by (intros l p; unfold New; case_decide; reflexivity).
  destruct (decide (history.path h = "")) as [Hp|Hp].
  - exists h, h, snap, h1, h1. unfold Flush. rewrite decide_True by exact Hp.
    repeat (split; [first [assumption|reflexivity]|]). apply Hnew.
  - exists h, h1, snap, h1, h1. unfold Flush. rewrite decide_False by exact Hp.
    rewrite Hall. cbn [bind snd].
    repeat (split; [first [assumption|reflexivity]|]).
    split; [exact (AllRecords_again _ _ _ Hall)|].
    split; [|apply Hnew].
    intros key. destruct (AllRecords_inv _ _ _ Hall) as (_ & _ & Hlogs).
    specialize (Hlogs key). destruct (logs h !! key) as [rl|].
    + destruct Hlogs as (s & rl' & Hts & _ & ->). simpl.
      rewrite (toSlice_kept _ _ _ Hts). reflexivity.
    + destruct Hlogs as (_ & ->). reflexivity.
Qed.

End Flushing.

Lemma Flush_changes_no_record_witness :
  1 <= 2 < 2 ^ 62
  /\ exists h h' snap h1 h2,
    run insertionSort (New 2 "gs://bucket/history.json") Samples.calls = Ok h
    /\ Flush h = Ok h'
    /\ AllRecords h = Ok (snap, h1)
    /\ AllRecords h' = Ok (snap, h2)
    /\ (forall key : string, kept <$> logs h' !! key = kept <$> logs h !! key)
    /\ logs (New (logSizeLimit h') (history.path h')) = ∅.
Proof.
  split; [lia|].
  apply (Flush_changes_no_record insertionSort 2 "gs://bucket/history.json"
           Samples.calls); lia.
Defined.

Example Merge_sample :
  (let! h := run insertionSort (New 5 "") (take 1 Samples.calls) in
   let! other := run insertionSort (New 2 "") (drop 2 Samples.calls) in
   let! m := Merge h other in
   let! r := AllRecords m.1 in
   Ok (map Time_ <$> r.1 !! "org/repo:master",
       map Time_ <$> r.1 !! "org/other:main"))
  = Ok (Some [2; 4; 1], Some [3]).
Proof. vm_compute. reflexivity. Qed.

End HistoryMore.

(** ** Package [foghorn]: what is reported, and when *)

Module FoghornMore.
Import v1alpha1 foghorn GoFacts FoghornFacts.

Lemma description_at_most_63 (RunningStages : ActivityRecord.t -> list string)
  (activity : ActivityRecord.t) (gitKind : string) :
  (String.length
     (description
        (toScmStatusDescriptionRunningStages RunningStages activity gitKind))
   <= 63)%nat.
Proof.
  unfold toScmStatusDescriptionRunningStages.
  destruct (_ && _).
  - cbn [description].
    destruct (Z.ltb_spec 63
                (Z.of_nat (String.length
                   ("Pipeline running stage(s): "
                    ++ Join (RunningStages activity) ", ")%string))).
    + rewrite length_append. unfold slice_to.
      rewrite length_substring_0 by lia. simpl. lia.
    + lia.
  - repeat case_decide; cbn [description]; simpl; lia.
Qed.

(** The statuses that are reported at all. *)
Lemma scmStatus_known (RunningStages : ActivityRecord.t -> list string)
  (activity : ActivityRecord.t) (gitKind : string) :
  scmStatus (toScmStatusDescriptionRunningStages RunningStages activity gitKind)
  <> scm.StateUnknown ->
  ActivityRecord.Status activity
  ∈ [SuccessState; RunningState; PendingState; AbortedState; FailureState].
Proof.
  unfold toScmStatusDescriptionRunningStages.
  assert (Hin : forall st : PipelineState,
    (if decide (st = SuccessState) then scm.StateSuccess
     else if decide (st = RunningState \/ st = PendingState) then scm.StateRunning
     else if decide (st = AbortedState) then scm.StateError
     else if decide (st = FailureState) then scm.StateFailure
     else scm.StateUnknown) <> scm.StateUnknown ->
    st ∈ [SuccessState; RunningState; PendingState; AbortedState; FailureState]).
  { intros st. repeat case_decide; intros Hne; try contradiction;
      rewrite !elem_of_cons; intuition auto. }
  intros Hne. apply Hin.
  destruct (_ && _); cbn [scmStatus] in Hne;
    repeat case_decide; cbn [scmStatus] in Hne; first [exact Hne | contradiction].
Qed.

Section Reporting.

Variable ToState : string -> scm.State.
Variable State_String : scm.State -> string.
Variable RunningStages : ActivityRecord.t -> list string.
Variable TrimRight : string -> string -> string.
Variable c : Env.

Abbreviation reportStatus :=
  (reportStatus ToState State_String RunningStages TrimRight c).
Abbreviation info activity :=
  (toScmStatusDescriptionRunningStages RunningStages activity (gitKind c)).
Abbreviation LastReport job :=
  (LighthouseJobStatus.LastReportState (LighthouseJob.Status job)).

(** The ways [reportStatus] ends. *)
Lemma reportStatus_shape (ns : string) (activity : ActivityRecord.t)
  (job : LighthouseJob.t) (evs : list Event) (r : Res LighthouseJob.t) :
  reportStatus ns activity job = (evs, r) ->
  (evs = [] /\ r = Ok job)
  \/ ((ActivityRecord.GitURL activity <> ""
       /\ ActivityRecord.LastCommitSHA activity <> ""
       /\ ActivityRecord.Owner activity <> ""
       /\ ActivityRecord.Repo activity <> ""
       /\ scmStatus (info activity) <> scm.StateUnknown
       /\ completed (ToState (LastReport job)) = false
       /\ ~ (ToState (LastReport job) = scmStatus (info activity)
             /\ LighthouseJobStatus.Description (LighthouseJob.Status job)
                = description (info activity)))
      /\ exists (ext : list Event) (input : scm.StatusInput.t),
           (ext = []
            \/ exists plugins,
                 ext = [CallExternalPluginsWithActivityRecord plugins activity])
           /\ scm.StatusInput.State input = scmStatus (info activity)
           /\ scm.StatusInput.Label input
              = (if decide (ActivityRecord.Context activity = "")
                 then "jenkins-x" else ActivityRecord.Context activity)
           /\ scm.StatusInput.Desc input = description (info activity)
           /\ (scm.StatusInput.Target input = ""
               \/ HasPrefix (scm.StatusInput.Target input) "http://" = true
               \/ HasPrefix (scm.StatusInput.Target input) "https://" = true)
           /\ let post :=
                CreateStatus (ActivityRecord.Owner activity)
                  (ActivityRecord.Repo activity)
                  (ActivityRecord.LastCommitSHA activity) input in
              ((evs = ext /\ r = Ok job)
               \/ (evs = (ext ++ [post])%list
                   /\ (r = Ok job \/ r = Panic NilDereference))
               \/ (exists template,
                     evs = (ext ++ [post; Report template job])%list
                     /\ CreateStatus_ok c (ActivityRecord.Owner activity)
                          (ActivityRecord.Repo activity)
                          (ActivityRecord.LastCommitSHA activity) input = true
                     /\ r = Ok (recordReport State_String job
                                  (scm.StatusInput.Target input)
                                  (info activity))))).
Proof.
  unfold foghorn.reportStatus.
  repeat (case_decide; [intros [= <- <-]; left; auto|]).
  destruct (completed _) eqn:Hdone; [intros [= <- <-]; left; auto|].
  case_decide as Hsame; [intros [= <- <-]; left; auto|].
  intros Hres. right. split; [repeat split; assumption|].
  match type of Hres with
  | context [scm.StatusInput.mk ?s ?l ?d ?t] =>
      set (input := scm.StatusInput.mk s l d t) in *
  end.
  match type of Hres with
  | context [if 0 <? ?n then ?a else ?b] => set (ext := if 0 <? n then a else b) in *
  end.
  exists ext, input.
  split; [subst ext; destruct (0 <? _); eauto|].
  split; [reflexivity|]. split; [reflexivity|]. split; [reflexivity|].
  split.
  { subst input. cbn [scm.StatusInput.Target]. cbv zeta.
    destruct (decide (getReportURLBase c <> "")); [|left; reflexivity].
    match goal with
    | |- context [if ?b1 || ?b2 then _ else ""] =>
        destruct b1 eqn:Hhttp;
          [right; left; exact Hhttp
          |destruct b2 eqn:Hhttps;
             [right; right; exact Hhttps|left; reflexivity]]
    end. }
  cbn zeta.
  destruct (createSCMClient c _); cbn [negb] in Hres;
    [|injection Hres as <- <-; left; auto].
  destruct (CreateStatus_ok c _ _ _ _) eqn:Hok; cbn [negb] in Hres;
    [|injection Hres as <- <-; right; left; auto].
  destruct (jobConfig_Config c) as [template|].
  - injection Hres as <- <-. right. right. exists template.
    rewrite <- app_assoc. split; [reflexivity|]. split; reflexivity.
  - injection Hres as <- <-. right. left. auto.
Qed.

(** X3 — [reportStatus] does nothing at all (no call, the job as it was)
    unless the activity has a git URL, a commit SHA, an owner and a
    repository, its status is success, running, pending, aborted or failure,
    and the last report does not read as completed.  In particular an
    activity in state triggered or error is never reported. *)
Theorem report_needs_coordinates_and_known_status (ns : string)
  (activity : ActivityRecord.t) (job : LighthouseJob.t) (evs : list Event)
  (r : Res LighthouseJob.t) :
  reportStatus ns activity job = (evs, r) ->
  evs <> [] \/ r <> Ok job ->
  ActivityRecord.GitURL activity <> ""
  /\ ActivityRecord.LastCommitSHA activity <> ""
  /\ ActivityRecord.Owner activity <> ""
  /\ ActivityRecord.Repo activity <> ""
  /\ ActivityRecord.Status activity
     ∈ [SuccessState; RunningState; PendingState; AbortedState; FailureState]
  /\ completed (ToState (LastReport job)) = false.
Proof.
  intros Hres Hacts.
  destruct (reportStatus_shape ns activity job evs r Hres)
    as [[-> ->]|[(Hurl & Hsha & Howner & Hrepo & Hknown & Hdone & _) _]].
  - destruct Hacts as [H|H]; contradiction.
  - repeat (split; [assumption|]). split; [|exact Hdone].
    eapply scmStatus_known, Hknown.
Qed.

(** X4 — [reportStatus] posts at most one commit status, and the one it
    posts is for the owner, repository and SHA of the activity, carries the
    state mapped from the activity's status (never unknown), the activity's
    context as label ("jenkins-x" when that is empty, so never an empty
    label), a description of at most 63 bytes, and a target URL that is
    either empty or begins with http:// or https://. *)
Theorem posted_status_is_well_formed (ns : string)
  (activity : ActivityRecord.t) (job : LighthouseJob.t) (evs : list Event)
  (r : Res LighthouseJob.t) :
  reportStatus ns activity job = (evs, r) ->
  (length (filter (fun ev => is_CreateStatus ev = true) evs) <= 1)%nat
  /\ forall (owner repo sha : string) (input : scm.StatusInput.t),
       CreateStatus owner repo sha input ∈ evs ->
       (owner = ActivityRecord.Owner activity
        /\ repo = ActivityRecord.Repo activity
        /\ sha = ActivityRecord.LastCommitSHA activity)
       /\ (owner <> "" /\ repo <> "" /\ sha <> "")
       /\ scm.StatusInput.State input = scmStatus (info activity)
       /\ scm.StatusInput.State input <> scm.StateUnknown
       /\ scm.StatusInput.Label input
          = (if decide (ActivityRecord.Context activity = "")
             then "jenkins-x" else ActivityRecord.Context activity)
       /\ scm.StatusInput.Label input <> ""
       /\ scm.StatusInput.Desc input = description (info activity)
       /\ (String.length (scm.StatusInput.Desc input) <= 63)%nat
       /\ (scm.StatusInput.Target input = ""
           \/ HasPrefix (scm.StatusInput.Target input) "http://" = true
           \/ HasPrefix (scm.StatusInput.Target input) "https://" = true).
Proof.
  intros Hres.
  destruct (reportStatus_shape ns activity job evs r Hres)
    as [[-> _]|[(Hurl & Hsha & Howner & Hrepo & Hknown & _)
                 (ext & input & Hext & Hstate & Hlabel & Hdesc & Htarget & Hend)]].
  { split; [simpl; lia|]. intros ? ? ? ? Hin. inversion Hin. }
  cbn zeta in Hend.
  assert (Hfilter : filter (fun ev => is_CreateStatus ev = true) ext = []).
  { destruct Hext as [->|[plugins ->]]; reflexivity. }
  assert (Hnot : forall o p q i, CreateStatus o p q i ∉ ext).
  { intros o p q i Hin. destruct Hext as [->|[plugins ->]].
    - inversion Hin.
    - apply list_elem_of_singleton in Hin. discriminate. }
  assert (Hevs : exists tail,
    evs = (ext ++ tail)%list
    /\ (length (filter (fun ev => is_CreateStatus ev = true) tail) <= 1)%nat
    /\ forall o p q i, CreateStatus o p q i ∈ tail ->
         o = ActivityRecord.Owner activity /\ p = ActivityRecord.Repo activity
         /\ q = ActivityRecord.LastCommitSHA activity /\ i = input).
  { destruct Hend as [[-> _]|[[-> _]|(template & -> & _)]].
    - exists []. rewrite app_nil_r. split; [reflexivity|]. split; [simpl; lia|].
      intros ? ? ? ? Hin. inversion Hin.
    - eexists. split; [reflexivity|]. split; [simpl; lia|].
      intros o p q i Hin. apply list_elem_of_singleton in Hin.
      injection Hin as -> -> -> ->. auto.
    - eexists. split; [reflexivity|]. split; [simpl; lia|].
      intros o p q i Hin. apply elem_of_cons in Hin as [Hin|Hin].
      + injection Hin as -> -> -> ->. auto.
      + apply list_elem_of_singleton in Hin. discriminate. }
  destruct Hevs as (tail & -> & Hone & Htail).
  split; [rewrite filter_app, Hfilter; exact Hone|].
  intros owner repo sha i Hin.
  apply elem_of_app in Hin as [Hin|Hin]; [exfalso; exact (Hnot _ _ _ _ Hin)|].
  destruct (Htail _ _ _ _ Hin) as (-> & -> & -> & ->).
  split; [auto|]. split; [auto|]. split; [exact Hstate|].
  split; [rewrite Hstate; exact Hknown|]. split; [exact Hlabel|].
  split; [rewrite Hlabel; case_decide; [discriminate|assumption]|].
  split; [exact Hdesc|].
  split; [rewrite Hdesc; apply description_at_most_63|exact Htarget].
Qed.

(** X5 — [reportStatus] changes the job only after the SCM provider has
    accepted the status: the job it returns is the one it was given unless
    the status was posted and accepted, and then only [LastReportState],
    [Description] and [ReportURL] differ, holding the state and the
    description just posted. *)
Theorem report_recorded_only_when_posted (ns : string)
  (activity : ActivityRecord.t) (job job' : LighthouseJob.t)
  (evs : list Event) :
  reportStatus ns activity job = (evs, Ok job') ->
  job' = job
  \/ exists input : scm.StatusInput.t,
       CreateStatus (ActivityRecord.Owner activity) (ActivityRecord.Repo activity)
         (ActivityRecord.LastCommitSHA activity) input ∈ evs
       /\ CreateStatus_ok c (ActivityRecord.Owner activity)
            (ActivityRecord.Repo activity)
            (ActivityRecord.LastCommitSHA activity) input = true
       /\ job' = recordReport State_String job (scm.StatusInput.Target input)
                   (info activity)
       /\ LastReport job' = State_String (scm.StatusInput.State input)
       /\ LighthouseJobStatus.Description (LighthouseJob.Status job')
          = scm.StatusInput.Desc input
       /\ (LighthouseJob.Name job', LighthouseJob.Labels job',
           LighthouseJob.Spec job')
          = (LighthouseJob.Name job, LighthouseJob.Labels job,
             LighthouseJob.Spec job)
       /\ (let s := LighthouseJob.Status job in
           let s' := LighthouseJob.Status job' in
           LighthouseJobStatus.State s' = LighthouseJobStatus.State s
           /\ LighthouseJobStatus.ActivityName s'
              = LighthouseJobStatus.ActivityName s
           /\ LighthouseJobStatus.StartTime s' = LighthouseJobStatus.StartTime s
           /\ LighthouseJobStatus.CompletionTime s'
              = LighthouseJobStatus.CompletionTime s
           /\ LighthouseJobStatus.LastCommitSHA s'
              = LighthouseJobStatus.LastCommitSHA s
           /\ LighthouseJobStatus.Activity s' = LighthouseJobStatus.Activity s).
Proof.
  intros Hres.
  destruct (reportStatus_shape ns activity job evs (Ok job') Hres)
    as [[_ [= ->]]|[_ (ext & input & _ & Hstate & _ & Hdesc & _ & Hend)]];
    [left; reflexivity|].
  cbn zeta in Hend.
  destruct Hend as [[_ [= ->]]|[[_ [[= ->]|?]]|(template & -> & Hok & [= ->])]];
    [left; reflexivity|left; reflexivity|discriminate|].
  right. exists input.
  split; [apply elem_of_app; right; left|].
  split; [exact Hok|]. split; [reflexivity|].
  cbn. rewrite Hstate, Hdesc. repeat split.
Qed.

Lemma reportStatus_again (ns : string) (activity : ActivityRecord.t)
  (job job' : LighthouseJob.t) (evs : list Event) :
  (forall st : scm.State, ToState (State_String st) = st) ->
  reportStatus ns activity job = (evs, Ok job') ->
  (exists template j, Report template j ∈ evs) ->
  reportStatus ns activity job' = ([], Ok job').
Proof.
  intros Hround Hres (template & j & Hin).
  destruct (reportStatus_shape ns activity job evs (Ok job') Hres)
    as [[-> _]|[_ (ext & input & Hext & _ & _ & _ & _ & Hend)]];
    [inversion Hin|].
  cbn zeta in Hend.
  assert (Hnot : forall t0 j0, Report t0 j0 ∉ ext).
  { intros t0 j0 H. destruct Hext as [->|[plugins ->]].
    - inversion H.
    - apply list_elem_of_singleton in H. discriminate. }
  destruct Hend as [[-> _]|[[-> _]|(template' & _ & _ & [= ->])]].
  - exfalso. exact (Hnot _ _ Hin).
  - exfalso. apply elem_of_app in Hin as [Hin|Hin]; [exact (Hnot _ _ Hin)|].
    apply list_elem_of_singleton in Hin. discriminate.
  - unfold foghorn.reportStatus.
    repeat (case_decide; [reflexivity|]).
    destruct (completed _); [reflexivity|].
    rewrite decide_True; [reflexivity|].
    cbn. rewrite Hround. split; reflexivity.
Qed.

(** X6 — When the SCM library reads back the states it prints, a report
    that went through is not repeated: calling [reportStatus] again with the
    same activity on the job it returned makes no call and returns that
    job. *)
Theorem second_report_is_silent (ns : string) (activity : ActivityRecord.t)
  (job job' : LighthouseJob.t) (evs : list Event) :
  (forall st : scm.State, ToState (State_String st) = st) ->
  reportStatus ns activity job = (evs, Ok job') ->
  (exists template j, Report template j ∈ evs) ->
  reportStatus ns activity job' = ([], Ok job').
Proof. apply reportStatus_again. Qed.

Lemma reportStatus_no_UpdateStatus (ns : string) (activity : ActivityRecord.t)
  (job : LighthouseJob.t) (evs : list Event) (r : Res LighthouseJob.t) :
  reportStatus ns activity job = (evs, r) ->
  forall ns' j, UpdateStatus ns' j ∉ evs.
Proof.
  intros Hres ns' j Hin.
  destruct (reportStatus_shape ns activity job evs r Hres)
    as [[-> _]|[_ (ext & input & Hext & _ & _ & _ & _ & Hend)]];
    [inversion Hin|].
  cbn zeta in Hend.
  assert (Hnot : UpdateStatus ns' j ∉ ext).
  { intros H. destruct Hext as [->|[plugins ->]].
    - inversion H.
    - apply list_elem_of_singleton in H. discriminate. }
  destruct Hend as [[-> _]|[[-> _]|(template & -> & _)]].
  - exact (Hnot Hin).
  - apply elem_of_app in Hin as [Hin|Hin]; [exact (Hnot Hin)|].
    apply list_elem_of_singleton in Hin. discriminate.
  - apply elem_of_app in Hin as [Hin|Hin]; [exact (Hnot Hin)|].
    apply elem_of_cons in Hin as [Hin|Hin]; [discriminate|].
    apply list_elem_of_singleton in Hin. discriminate.
Qed.

Lemma updateJobStatusForActivity_fix (activity : ActivityRecord.t)
  (job : LighthouseJob.t) :
  LighthouseJobStatus.State (LighthouseJob.Status job)
  = ActivityRecord.Status activity ->
  LighthouseJobStatus.LastCommitSHA (LighthouseJob.Status job)
  = ActivityRecord.LastCommitSHA activity ->
  (forall t, ActivityRecord.CompletionTime activity = Some t ->
             LighthouseJobStatus.CompletionTime (LighthouseJob.Status job)
             = Some t) ->
  updateJobStatusForActivity activity job = job.
Proof.
  destruct job as [n l sp [st an stt ct sha lrs d ru act]].
  unfold updateJobStatusForActivity. cbn. intros -> -> Hct.
  rewrite !decide_False by (intros H; apply H; reflexivity).
  destruct (ActivityRecord.CompletionTime activity) as [t|];
    [rewrite (Hct t eq_refl)|]; reflexivity.
Qed.

(** X7 — Projecting an activity twice is the same as projecting it once;
    the projection sets the state and the commit SHA of the job to those of
    the activity, takes the completion time of the activity when it has one
    and keeps the job's own completion time, unchanged, otherwise (so a
    completion time is never erased), and leaves everything else as it was:
    what was last reported, the activity name, the start time, the activity,
    and the name, labels and spec of the job. *)
Theorem projection_is_idempotent (activity : ActivityRecord.t)
  (job : LighthouseJob.t) :
  let job' := updateJobStatusForActivity activity job in
  let s := LighthouseJob.Status job in
  let s' := LighthouseJob.Status job' in
  updateJobStatusForActivity activity job' = job'
  /\ LighthouseJobStatus.State s' = ActivityRecord.Status activity
  /\ LighthouseJobStatus.LastCommitSHA s' = ActivityRecord.LastCommitSHA activity
  /\ (is_Some (LighthouseJobStatus.CompletionTime s) ->
      is_Some (LighthouseJobStatus.CompletionTime s'))
  /\ (is_Some (ActivityRecord.CompletionTime activity) ->
      LighthouseJobStatus.CompletionTime s'
      = ActivityRecord.CompletionTime activity)
  /\ (ActivityRecord.CompletionTime activity = None ->
      LighthouseJobStatus.CompletionTime s'
      = LighthouseJobStatus.CompletionTime s)
  /\ (LighthouseJobStatus.LastReportState s',
      LighthouseJobStatus.Description s', LighthouseJobStatus.ReportURL s')
     = (LighthouseJobStatus.LastReportState s,
        LighthouseJobStatus.Description s, LighthouseJobStatus.ReportURL s)
  /\ (LighthouseJobStatus.ActivityName s', LighthouseJobStatus.StartTime s',
      LighthouseJobStatus.Activity s')
     = (LighthouseJobStatus.ActivityName s, LighthouseJobStatus.StartTime s,
        LighthouseJobStatus.Activity s)
  /\ (LighthouseJob.Name job', LighthouseJob.Labels job',
      LighthouseJob.Spec job')
     = (LighthouseJob.Name job, LighthouseJob.Labels job,
        LighthouseJob.Spec job).
Proof.
  intros job' s s'.
  assert (Hsha : LighthouseJobStatus.LastCommitSHA s'
                 = ActivityRecord.LastCommitSHA activity).
  { subst s' job'. unfold updateJobStatusForActivity. cbn.
    case_decide as Hne; [reflexivity|].
    destruct (decide (ActivityRecord.LastCommitSHA activity
                      = LighthouseJobStatus.LastCommitSHA (LighthouseJob.Status job)));
      [congruence|contradiction]. }
  split; [|split; [apply updateJobStatusForActivity_state
                  |split; [exact Hsha|]]].
  - apply updateJobStatusForActivity_fix.
    + apply updateJobStatusForActivity_state.
    + exact Hsha.
    + intros t Ht. subst job'. unfold updateJobStatusForActivity. cbn.
      rewrite Ht. reflexivity.
  - subst s s' job'. unfold updateJobStatusForActivity. cbn.
    split; [|split; [|split; [|repeat split]]].
    + intros Hsome. destruct (ActivityRecord.CompletionTime activity); eauto.
    + intros [t Ht]. rewrite Ht. reflexivity.
    + intros ->. reflexivity.
Qed.

End Reporting.

Section Syncing.

Variable ToState : string -> scm.State.
Variable State_String : scm.State -> string.
Variable RunningStages : ActivityRecord.t -> list string.
Variable TrimRight : string -> string -> string.
Variable c : Env.
Variable SplitMetaNamespaceKey : string -> option (string * string).

Abbreviation reportStatus' :=
  (foghorn.reportStatus ToState State_String RunningStages TrimRight c).
Abbreviation syncHandler :=
  (syncHandler ToState State_String RunningStages TrimRight c
     SplitMetaNamespaceKey).

(** The ways [syncHandler] returns. *)
Lemma syncHandler_shape (cache cache' : gmap (string * string) LighthouseJob.t)
  (key : string) (evs : list Event) (err : option string) :
  syncHandler cache key = (evs, Ok (cache', err)) ->
  (evs = [] /\ cache' = cache /\ err = None)
  \/ exists namespace name job activity jobCopy evs0,
       SplitMetaNamespaceKey key = Some (namespace, name)
       /\ cache !! (namespace, name) = Some job
       /\ LighthouseJobStatus.Activity (LighthouseJob.Status job) = Some activity
       /\ reportStatus' namespace activity
            (updateJobStatusForActivity activity job) = (evs0, Ok jobCopy)
       /\ ((cache !! (namespace, LighthouseJob.Name jobCopy) = None
            /\ evs = evs0 /\ cache' = cache /\ err <> None)
           \/ exists currentJob,
                cache !! (namespace, LighthouseJob.Name jobCopy) = Some currentJob
                /\ ((LighthouseJob.Status currentJob = LighthouseJob.Status jobCopy
                     /\ evs = evs0 /\ cache' = cache /\ err = None)
                    \/ (LighthouseJob.Status currentJob
                        <> LighthouseJob.Status jobCopy
                        /\ let updated :=
                             LighthouseJob.mk (LighthouseJob.Name currentJob)
                               (LighthouseJob.Labels currentJob)
                               (LighthouseJob.Spec currentJob)
                               (LighthouseJob.Status jobCopy) in
                           evs = (evs0 ++ [UpdateStatus namespace updated])%list
                           /\ cache'
                              = <[(namespace, LighthouseJob.Name jobCopy) := updated]>
                                  cache
                           /\ (err = None <-> UpdateStatus_ok c updated = true)))).
Proof.
  unfold foghorn.syncHandler.
  destruct (SplitMetaNamespaceKey key) as [[namespace name]|];
    [|intros [= <- <- <-]; left; auto].
  destruct (cache !! (namespace, name)) as [job|] eqn:Hjob;
    [|intros [= <- <- <-]; left; auto].
  destruct (LighthouseJobStatus.Activity (LighthouseJob.Status job))
    as [activity|] eqn:Hact; [|intros [= <- <- <-]; left; auto].
  destruct (reportStatus' namespace activity
              (updateJobStatusForActivity activity job))
    as [evs0 [jobCopy|p]] eqn:Hrep; [|discriminate].
  intros Hres. right. exists namespace, name, job, activity, jobCopy, evs0.
  repeat (split; [reflexivity || assumption|]).
  destruct (cache !! (namespace, LighthouseJob.Name jobCopy)) as [currentJob|].
  - right. exists currentJob. split; [reflexivity|].
    destruct (decide (LighthouseJob.Status currentJob
                      <> LighthouseJob.Status jobCopy)) as [Hne|Heq].
    + right. split; [exact Hne|]. cbn zeta.
      injection Hres as <- <- <-. split; [reflexivity|]. split; [reflexivity|].
      destruct (UpdateStatus_ok c _); split; intros; congruence.
    + left. injection Hres as <- <- <-.
      destruct (decide (LighthouseJob.Status currentJob
                        = LighthouseJob.Status jobCopy)); [auto|contradiction].
  - left. injection Hres as <- <- <-. repeat split. discriminate.
Qed.

(** X8 — [syncHandler] rewrites at most the status of one cached job: the
    cache keeps the same keys, and under every key the name, the labels and
    the spec of the job are what they were. *)
Theorem syncHandler_touches_status_only
  (cache cache' : gmap (string * string) LighthouseJob.t) (key : string)
  (evs : list Event) (err : option string) :
  syncHandler cache key = (evs, Ok (cache', err)) ->
  forall k : string * string,
    (fun j => (LighthouseJob.Name j, LighthouseJob.Labels j, LighthouseJob.Spec j))
      <$> cache' !! k
    = (fun j => (LighthouseJob.Name j, LighthouseJob.Labels j, LighthouseJob.Spec j))
        <$> cache !! k.
Proof.
  intros Hres k.
  destruct (syncHandler_shape _ _ _ _ _ Hres)
    as [(_ & -> & _)
       |(namespace & name & job & activity & jobCopy & evs0 & _ & _ & _ & _ &
         [(_ & _ & -> & _)|(currentJob & Hcur &
            [(_ & _ & -> & _)|(_ & _ & -> & _)])])];
    try reflexivity.
  destruct (decide (k = (namespace, LighthouseJob.Name jobCopy))) as [->|Hne].
  - rewrite lookup_insert_eq, Hcur. reflexivity.
  - rewrite lookup_insert_ne by congruence. reflexivity.
Qed.

(** X9 — [syncHandler] sends [UpdateStatus] only for a status that
    differs from the cached one, with the cached job's name, labels and
    spec; the cache then holds exactly the job sent, and the error returned
    is nil exactly when the update was accepted.  When nothing is sent the
    cache is unchanged. *)
Theorem syncHandler_updates_only_on_change
  (cache cache' : gmap (string * string) LighthouseJob.t) (key : string)
  (evs : list Event) (err : option string) :
  syncHandler cache key = (evs, Ok (cache', err)) ->
  (forall ns j,
      UpdateStatus ns j ∈ evs ->
      exists k old,
        cache !! k = Some old
        /\ LighthouseJob.Status old <> LighthouseJob.Status j
        /\ (LighthouseJob.Name j, LighthouseJob.Labels j, LighthouseJob.Spec j)
           = (LighthouseJob.Name old, LighthouseJob.Labels old,
              LighthouseJob.Spec old)
        /\ cache' = <[k := j]> cache
        /\ (err = None <-> UpdateStatus_ok c j = true))
  /\ ((forall ns j, UpdateStatus ns j ∉ evs) -> cache' = cache).
Proof.
  intros Hres.
  destruct (syncHandler_shape _ _ _ _ _ Hres)
    as [(-> & -> & _)
       |(namespace & name & job & activity & jobCopy & evs0 & _ & _ & _ & Hrep &
         [(_ & -> & -> & _)|(currentJob & Hcur &
            [(_ & -> & -> & _)|(Hne & Hupd)])])].
  - split; [intros ns j Hin; inversion Hin|reflexivity].
  - split; [|reflexivity]. intros ns j Hin.
    exfalso. exact (reportStatus_no_UpdateStatus _ _ _ _ _ _ _ _ _ _ Hrep _ _ Hin).
  - split; [|reflexivity]. intros ns j Hin.
    exfalso. exact (reportStatus_no_UpdateStatus _ _ _ _ _ _ _ _ _ _ Hrep _ _ Hin).
  - cbn zeta in Hupd. destruct Hupd as (-> & -> & Herr). split.
    + intros ns j Hin. apply elem_of_app in Hin as [Hin|Hin].
      { exfalso.
        exact (reportStatus_no_UpdateStatus _ _ _ _ _ _ _ _ _ _ Hrep _ _ Hin). }
      apply list_elem_of_singleton in Hin. injection Hin as -> ->.
      exists (namespace, LighthouseJob.Name jobCopy), currentJob.
      repeat split; auto; apply Herr.
    + intros Hnone. exfalso. eapply Hnone, elem_of_app. right. left.
Qed.

(** X10 — When the SCM library reads back the states it prints, a
    reconciliation that reported is a fixed point: running [syncHandler]
    again on the cache it left, for the same key, makes no call, changes
    nothing and returns nil. *)
Theorem syncHandler_settles
  (cache cache' : gmap (string * string) LighthouseJob.t)
  (key namespace name : string) (job : LighthouseJob.t) (evs : list Event)
  (err : option string) :
  (forall st : scm.State, ToState (State_String st) = st) ->
  SplitMetaNamespaceKey key = Some (namespace, name) ->
  cache !! (namespace, name) = Some job ->
  LighthouseJob.Name job = name ->
  syncHandler cache key = (evs, Ok (cache', err)) ->
  (exists template j, Report template j ∈ evs) ->
  syncHandler cache' key = ([], Ok (cache', None)).
Proof.
  intros Hround Hkey Hjob Hname Hres (template & j & Hin).
  destruct (syncHandler_shape _ _ _ _ _ Hres)
    as [(-> & _)|(ns' & name' & job' & activity & jobCopy & evs0 & Hkey' & Hjob'
                  & Hact & Hrep & Hend)]; [inversion Hin|].
  rewrite Hkey in Hkey'. injection Hkey' as <- <-.
  rewrite Hjob in Hjob'. injection Hjob' as <-.
  assert (Hin0 : Report template j ∈ evs0).
  { destruct Hend as [(_ & -> & _)|(cur & _ & [(_ & -> & _)|(_ & Hupd)])];
      try exact Hin.
    cbn zeta in Hupd. destruct Hupd as (-> & _).
    apply elem_of_app in Hin as [Hin|Hin]; [exact Hin|].
    apply list_elem_of_singleton in Hin. discriminate. }
  pose proof (reportStatus_again ToState State_String RunningStages TrimRight c
                _ _ _ _ _ Hround Hrep (ex_intro _ template (ex_intro _ j Hin0)))
    as Hsilent.
  destruct (reportStatus_shape _ _ _ _ _ _ _ _ _ _ Hrep)
    as [[-> _]|[_ (ext & input & Hext & _ & _ & _ & _ & Hshape)]];
    [inversion Hin0|].
  assert (Hcopy : jobCopy
    = recordReport State_String (updateJobStatusForActivity activity job)
        (scm.StatusInput.Target input)
        (toScmStatusDescriptionRunningStages RunningStages activity (gitKind c))).
  { cbn zeta in Hshape.
    destruct Hshape as [[-> _]|[[-> _]|(template' & _ & _ & [= ->])]];
      [| |reflexivity]; exfalso.
    - destruct Hext as [->|[plugins ->]];
        [inversion Hin0|apply list_elem_of_singleton in Hin0; discriminate].
    - apply elem_of_app in Hin0 as [Hin0|Hin0].
      + destruct Hext as [->|[plugins ->]];
          [inversion Hin0|apply list_elem_of_singleton in Hin0; discriminate].
      + apply list_elem_of_singleton in Hin0. discriminate. }
  assert (Hn : LighthouseJob.Name jobCopy = name) by (rewrite Hcopy; exact Hname).
  assert (Hstored : cache' !! (namespace, name) = Some jobCopy).
  { rewrite Hn, Hjob in Hend.
    destruct Hend as [(? & _)|(cur & [= <-] & [(Hsame & _ & -> & _)|(_ & Hupd)])];
      [discriminate| |].
    - rewrite Hjob. f_equal.
      assert (Hj : jobCopy
                   = LighthouseJob.mk (LighthouseJob.Name job)
                       (LighthouseJob.Labels job) (LighthouseJob.Spec job)
                       (LighthouseJob.Status jobCopy))
        by (rewrite Hcopy; reflexivity).
      rewrite Hj, <- Hsame. destruct job; reflexivity.
    - cbn zeta in Hupd. destruct Hupd as (_ & -> & _).
      rewrite lookup_insert_eq. f_equal. rewrite Hcopy. reflexivity. }
  assert (Hfix : updateJobStatusForActivity activity jobCopy = jobCopy).
  { rewrite Hcopy. apply updateJobStatusForActivity_fix.
    - cbn. apply updateJobStatusForActivity_state.
    - cbn. case_decide as Hne; [reflexivity|].
      destruct (decide (ActivityRecord.LastCommitSHA activity
                        = LighthouseJobStatus.LastCommitSHA
                            (LighthouseJob.Status job)));
        [congruence|contradiction].
    - intros t Ht. cbn. rewrite Ht. reflexivity. }
  assert (Hact' : LighthouseJobStatus.Activity (LighthouseJob.Status jobCopy)
                  = Some activity) by (rewrite Hcopy; exact Hact).
  unfold foghorn.syncHandler.
  rewrite Hkey, Hstored, Hact', Hfix, Hsilent, Hn, Hstored.
  rewrite decide_False by (intros H; apply H; reflexivity).
  reflexivity.
Qed.

End Syncing.

Lemma sample_round_trip (st : scm.State) :
  Samples.ToState (Samples.State_String st) = st.
Proof. destruct st; reflexivity. Qed.

Lemma report_needs_coordinates_and_known_status_witness :
  let a := Samples.activity RunningState [] in
  let job := Samples.job PendingState "" a in
  let r :=
    foghorn.reportStatus Samples.ToState Samples.State_String
      Samples.RunningStages Samples.TrimRight Samples.controller "jx" a job in
  r.1 <> []
  /\ ActivityRecord.GitURL a <> ""
  /\ ActivityRecord.Status a
     ∈ [SuccessState; RunningState; PendingState; AbortedState; FailureState].
Proof.
  intros a job r.
  assert (H1 : r.1 <> []) by (vm_compute; discriminate).
  split; [exact H1|].
  destruct (report_needs_coordinates_and_known_status Samples.ToState
              Samples.State_String Samples.RunningStages Samples.TrimRight
              Samples.controller "jx" a job r.1 r.2
              (surjective_pairing r) (or_introl H1))
    as (Hurl & _ & _ & _ & Hst & _).
  split; assumption.
Defined.

Lemma posted_status_is_well_formed_witness :
  let a := Samples.activity RunningState ["build"; "test"] in
  let job := Samples.job PendingState "" a in
  let r :=
    foghorn.reportStatus Samples.ToState Samples.State_String
      Samples.RunningStages Samples.TrimRight Samples.controller "jx" a job in
  (exists input, CreateStatus "org" "repo" "abc" input ∈ r.1)
  /\ (length (filter (fun ev => is_CreateStatus ev = true) r.1) <= 1)%nat.
Proof.
  intros a job r.
  split; [eexists; vm_compute; left|].
  exact (proj1 (posted_status_is_well_formed Samples.ToState
                  Samples.State_String Samples.RunningStages Samples.TrimRight
                  Samples.controller "jx" a job r.1 r.2 (surjective_pairing r))).
Defined.

Lemma report_recorded_only_when_posted_witness :
  let a := Samples.activity SuccessState [] in
  let job := Samples.job RunningState "running" a in
  let r :=
    foghorn.reportStatus Samples.ToState Samples.State_String
      Samples.RunningStages Samples.TrimRight Samples.controller "jx" a job in
  let job' := match r.2 with Ok j => j | Panic _ => job end in
  r = (r.1, Ok job')
  /\ (job' = job
      \/ exists input : scm.StatusInput.t,
           CreateStatus "org" "repo" "abc" input ∈ r.1
           /\ LighthouseJobStatus.LastReportState (LighthouseJob.Status job')
              = Samples.State_String (scm.StatusInput.State input)).
Proof.
  intros a job r job'.
  assert (Hr : r = (r.1, Ok job')) by (vm_compute; reflexivity).
  split; [exact Hr|].
  destruct (report_recorded_only_when_posted Samples.ToState
              Samples.State_String Samples.RunningStages Samples.TrimRight
              Samples.controller "jx" a job job' r.1 Hr)
    as [Hsame|(input & Hin & _ & _ & Hlast & _)].
  - left. exact Hsame.
  - right. exists input. split; [exact Hin|exact Hlast].
Defined.

Lemma second_report_is_silent_witness :
  let a := Samples.activity SuccessState [] in
  let job := Samples.job RunningState "running" a in
  let r :=
    foghorn.reportStatus Samples.ToState Samples.State_String
      Samples.RunningStages Samples.TrimRight Samples.controller "jx" a job in
  let job' := match r.2 with Ok j => j | Panic _ => job end in
  (r = (r.1, Ok job') /\ exists template j, Report template j ∈ r.1)
  /\ foghorn.reportStatus Samples.ToState Samples.State_String
       Samples.RunningStages Samples.TrimRight Samples.controller "jx" a job'
     = ([], Ok job').
Proof.
  intros a job r job'.
  assert (Hr : r = (r.1, Ok job')) by (vm_compute; reflexivity).
  assert (Hin : exists template j, Report template j ∈ r.1)
    by (eexists _, _; vm_compute; right; left).
  split; [split; assumption|].
  exact (second_report_is_silent Samples.ToState Samples.State_String
           Samples.RunningStages Samples.TrimRight Samples.controller "jx"
           a job job' r.1 sample_round_trip Hr Hin).
Defined.

Lemma syncHandler_touches_status_only_witness :
  let a := Samples.activity SuccessState [] in
  let job := Samples.job RunningState "running" a in
  let cache : gmap (string * string) LighthouseJob.t :=
    {[ ("jx", "unit-1") := job ]} in
  let r :=
    foghorn.syncHandler Samples.ToState Samples.State_String
      Samples.RunningStages Samples.TrimRight Samples.controller
      Samples.SplitMetaNamespaceKey cache "jx/unit-1" in
  let cache' := match r.2 with Ok (m, _) => m | Panic _ => ∅ end in
  r = (r.1, Ok (cache', None))
  /\ (fun j => (LighthouseJob.Name j, LighthouseJob.Labels j, LighthouseJob.Spec j))
       <$> cache' !! ("jx", "unit-1")
     = (fun j => (LighthouseJob.Name j, LighthouseJob.Labels j, LighthouseJob.Spec j))
         <$> cache !! ("jx", "unit-1").
Proof.
  intros a job cache r cache'.
  assert (Hr : r = (r.1, Ok (cache', None))) by (vm_compute; reflexivity).
  split; [exact Hr|].
  exact (syncHandler_touches_status_only Samples.ToState
           Samples.State_String Samples.RunningStages Samples.TrimRight
           Samples.controller Samples.SplitMetaNamespaceKey
           cache cache' "jx/unit-1" r.1 None Hr ("jx", "unit-1")).
Defined.

Lemma syncHandler_updates_only_on_change_witness :
  let a := Samples.activity SuccessState [] in
  let job := Samples.job RunningState "running" a in
  let cache : gmap (string * string) LighthouseJob.t :=
    {[ ("jx", "unit-1") := job ]} in
  let r :=
    foghorn.syncHandler Samples.ToState Samples.State_String
      Samples.RunningStages Samples.TrimRight Samples.controller
      Samples.SplitMetaNamespaceKey cache "jx/unit-1" in
  let cache' := match r.2 with Ok (m, _) => m | Panic _ => ∅ end in
  r = (r.1, Ok (cache', None))
  /\ exists ns j,
       UpdateStatus ns j ∈ r.1
       /\ LighthouseJobStatus.State (LighthouseJob.Status j) = SuccessState
       /\ exists k old,
            cache !! k = Some old
            /\ LighthouseJob.Status old <> LighthouseJob.Status j
            /\ cache' = <[k := j]> cache
            /\ UpdateStatus_ok Samples.controller j = true.
Proof.
  intros a job cache r cache'.
  assert (Hr : r = (r.1, Ok (cache', None))) by (vm_compute; reflexivity).
  split; [exact Hr|].
  assert (Hevs : exists ev1 ev2 ns j,
             r.1 = [ev1; ev2; UpdateStatus ns j]
             /\ LighthouseJobStatus.State (LighthouseJob.Status j)
                = SuccessState)
    by (vm_compute; eexists _, _, _, _; split; reflexivity).
  destruct Hevs as (ev1 & ev2 & ns & j & Hevs & Hstate).
  assert (Hin : UpdateStatus ns j ∈ r.1)
    by (rewrite Hevs; apply list_elem_of_In; simpl; tauto).
  exists ns, j. split; [exact Hin|]. split; [exact Hstate|].
  destruct (proj1 (syncHandler_updates_only_on_change Samples.ToState
                     Samples.State_String Samples.RunningStages
                     Samples.TrimRight Samples.controller
                     Samples.SplitMetaNamespaceKey
                     cache cache' "jx/unit-1" r.1 None Hr) ns j Hin)
    as (k & old & Hk & Hne & _ & Hc & Hok).
  exists k, old. split; [exact Hk|]. split; [exact Hne|].
  split; [exact Hc|]. apply Hok. reflexivity.
Defined.

Lemma syncHandler_settles_witness :
  let a := Samples.activity SuccessState [] in
  let job := Samples.job RunningState "running" a in
  let cache : gmap (string * string) LighthouseJob.t :=
    {[ ("jx", "unit-1") := job ]} in
  let r :=
    foghorn.syncHandler Samples.ToState Samples.State_String
      Samples.RunningStages Samples.TrimRight Samples.controller
      Samples.SplitMetaNamespaceKey cache "jx/unit-1" in
  let cache' := match r.2 with Ok (m, _) => m | Panic _ => ∅ end in
  (r = (r.1, Ok (cache', None)) /\ exists template j, Report template j ∈ r.1)
  /\ foghorn.syncHandler Samples.ToState Samples.State_String
       Samples.RunningStages Samples.TrimRight Samples.controller
       Samples.SplitMetaNamespaceKey cache' "jx/unit-1"
     = ([], Ok (cache', None)).
Proof.
  intros a job cache r cache'.
  assert (Hr : r = (r.1, Ok (cache', None))) by (vm_compute; reflexivity).
  assert (Hin : exists template j, Report template j ∈ r.1)
    by (eexists _, _; vm_compute; right; left).
  split; [split; assumption|].
  exact (syncHandler_settles Samples.ToState Samples.State_String
           Samples.RunningStages Samples.TrimRight Samples.controller
           Samples.SplitMetaNamespaceKey cache cache' "jx/unit-1" "jx" "unit-1"
           job r.1 None sample_round_trip eq_refl eq_refl eq_refl Hr Hin).
Defined.

Example sync_twice_sample :
  let a := Samples.activity SuccessState [] in
  let cache : gmap (string * string) LighthouseJob.t :=
    {[ ("jx", "unit-1") := Samples.job RunningState "running" a ]} in
  let sync :=
    foghorn.syncHandler Samples.ToState Samples.State_String
      Samples.RunningStages Samples.TrimRight Samples.controller
      Samples.SplitMetaNamespaceKey in
  match sync cache "jx/unit-1" with
  | (evs, Ok (cache', None)) =>
      (length evs, (sync cache' "jx/unit-1").1,
       LighthouseJobStatus.LastReportState <$>
         (LighthouseJob.Status <$> cache' !! ("jx", "unit-1")))
  | _ => (0%nat, [], None)
  end
  = (3%nat, [], Some "success").
Proof. vm_compute. reflexivity. Qed.

(** *** The worker *)

Section Working.

Variable ToState : string -> scm.State.
Variable State_String : scm.State -> string.
Variable RunningStages : ActivityRecord.t -> list string.
Variable TrimRight : string -> string -> string.
Variable c : Env.
Variable SplitMetaNamespaceKey : string -> option (string * string).

Abbreviation sync :=
  (foghorn.syncHandler ToState State_String RunningStages TrimRight c
     SplitMetaNamespaceKey).
Abbreviation processNextWorkItem :=
  (foghorn.processNextWorkItem ToState State_String RunningStages TrimRight c
     SplitMetaNamespaceKey).
Abbreviation runWorker :=
  (foghorn.runWorker ToState State_String RunningStages TrimRight c
     SplitMetaNamespaceKey).

(** The ways [processNextWorkItem] ends for an item. *)
Lemma processNextWorkItem_shape
  (cache : gmap (string * string) LighthouseJob.t) (obj : Item)
  (evs : list Event) (ops : list QueueOp)
  (res : Res (gmap (string * string) LighthouseJob.t * bool)) :
  processNextWorkItem cache (Some obj) = (evs, ops, res) ->
  (obj = item_other /\ evs = []
   /\ ops = [queue_Forget obj; queue_Done obj] /\ res = Ok (cache, true))
  \/ exists key,
       obj = item_key key
       /\ ((exists p, sync cache key = (evs, Panic p)
                      /\ ops = [queue_Done obj] /\ res = Panic p)
           \/ (exists cache' err,
                 sync cache key = (evs, Ok (cache', Some err))
                 /\ ops = [queue_AddRateLimited key; queue_Done obj]
                 /\ res = Ok (cache', true))
           \/ (exists cache',
                 sync cache key = (evs, Ok (cache', None))
                 /\ ops = [queue_Forget obj; queue_Done obj]
                 /\ res = Ok (cache', true))).
Proof.
  unfold foghorn.processNextWorkItem. destruct obj as [key|].
  - destruct (sync cache key) as [evs0 [[cache' [err|]]|p]] eqn:Hs;
      intros [= <- <- <-]; right; exists key; (split; [reflexivity|]);
      [right; left; exists cache', err
      |right; right; exists cache'
      |left; exists p]; repeat split; exact Hs.
  - intros [= <- <- <-]. left. auto.
Qed.

(** X27 — [processNextWorkItem] stops the worker only when the queue is
    shut down, and then touches nothing.  For an item it calls [Done]
    exactly once and last, also when the reconciliation panics; a key is put
    back on the queue exactly when [syncHandler] returned an error for it,
    and forgotten exactly when [syncHandler] returned nil; an item that is
    no key is forgotten without any reconciliation. *)
Theorem failed_sync_is_requeued
  (cache : gmap (string * string) LighthouseJob.t) (got : option Item)
  (evs : list Event) (ops : list QueueOp)
  (res : Res (gmap (string * string) LighthouseJob.t * bool)) :
  processNextWorkItem cache got = (evs, ops, res) ->
  (got = None -> evs = [] /\ ops = [] /\ res = Ok (cache, false))
  /\ (forall cache' continue,
        res = Ok (cache', continue) -> (continue = false <-> got = None))
  /\ (forall obj,
        got = Some obj ->
        omap done_of ops = [obj] /\ last ops = Some (queue_Done obj))
  /\ (forall key,
        got = Some (item_key key) ->
        (queue_AddRateLimited key ∈ ops
         <-> exists cache' err, (sync cache key).2 = Ok (cache', Some err))
        /\ (queue_Forget (item_key key) ∈ ops
            <-> exists cache', (sync cache key).2 = Ok (cache', None)))
  /\ (got = Some item_other ->
      evs = [] /\ ops = [queue_Forget item_other; queue_Done item_other]).
Proof.
  intros H. destruct got as [obj|].
  2:{ injection H as <- <- <-. split; [auto|].
      split; [intros c1 continue [= _ <-]; split; reflexivity|].
      split; [discriminate|]. split; discriminate. }
  split; [discriminate|].
  destruct (processNextWorkItem_shape _ _ _ _ _ H)
    as [(-> & -> & -> & ->)
       |(key & -> &
         [(p & Hs & -> & ->)
         |[(cache' & err & Hs & -> & ->)|(cache' & Hs & -> & ->)]])].
  - split; [intros ? ? [= _ <-]; split; discriminate|].
    split; [intros obj [= <-]; split; reflexivity|].
    split; [discriminate|]. auto.
  - split; [discriminate|].
    split; [intros obj [= <-]; split; reflexivity|].
    split; [|discriminate]. intros k [= <-]. rewrite Hs. cbn [snd].
    split; (split; [intros Hin; apply list_elem_of_singleton in Hin;
                    discriminate Hin|]).
    + intros (? & ? & [=]).
    + intros (? & [=]).
  - split; [intros ? ? [= _ <-]; split; discriminate|].
    split; [intros obj [= <-]; split; reflexivity|].
    split; [|discriminate]. intros k [= <-]. rewrite Hs. cbn [snd]. split.
    + split; [eauto|]. intros _. apply list_elem_of_In. simpl. tauto.
    + split; [|intros (? & [=])]. intros Hin.
      apply elem_of_cons in Hin as [Hin|Hin]; [discriminate Hin|].
      apply list_elem_of_singleton in Hin. discriminate Hin.
  - split; [intros ? ? [= _ <-]; split; discriminate|].
    split; [intros obj [= <-]; split; reflexivity|].
    split; [|discriminate]. intros k [= <-]. rewrite Hs. cbn [snd]. split.
    + split; [|intros (? & ? & [=])]. intros Hin.
      apply elem_of_cons in Hin as [Hin|Hin]; [discriminate Hin|].
      apply list_elem_of_singleton in Hin. discriminate Hin.
    + split; [eauto|]. intros _. apply list_elem_of_In. simpl. tauto.
Qed.

(** X28 — A worker that does not panic takes the items off the queue
    one after the other until the queue shuts down, and marks every item it
    took as done exactly once, in the order taken, whether the
    reconciliation of the item failed or not: a failure does not stop the
    worker.  It makes exactly two calls on the queue per item, requeues only
    keys it took, and takes nothing after the shutdown. *)
Theorem worker_marks_every_item_done (gets : list (option Item)) :
  forall (cache cache' : gmap (string * string) LighthouseJob.t)
         (evs : list Event) (ops : list QueueOp),
    runWorker cache gets = (evs, ops, Ok cache') ->
    omap done_of ops = before_shutdown gets
    /\ length ops = (2 * length (before_shutdown gets))%nat
    /\ forall key,
         queue_AddRateLimited key ∈ ops ->
         item_key key ∈ before_shutdown gets.
Proof.
  induction gets as [|got gets IH]; intros cache cache' evs ops H.
  - injection H as <- <- <-. repeat split. intros key Hin. inversion Hin.
  - cbn [foghorn.runWorker] in H.
    destruct (processNextWorkItem cache got) as [[evs0 ops0] res0] eqn:Hp.
    destruct got as [obj|].
    2:{ injection Hp as <- <- <-. injection H as <- <- <-.
        repeat split. intros key Hin. inversion Hin. }
    destruct (processNextWorkItem_shape _ _ _ _ _ Hp)
      as [(-> & -> & -> & ->)
         |(key & -> &
           [(p & Hs & -> & ->)
           |[(cache1 & err & Hs & -> & ->)|(cache1 & Hs & -> & ->)]])];
      try discriminate H;
      revert H;
      match goal with
      | |- context [foghorn.runWorker ?a1 ?a2 ?a3 ?a4 ?a5 ?a6 ?c1 gets] =>
          destruct (foghorn.runWorker a1 a2 a3 a4 a5 a6 c1 gets)
            as [[evs1 ops1] r1] eqn:Hrun
      end;
      intros H; injection H as <- <- ->;
      destruct (IH _ _ _ _ Hrun) as (Hdone & Hlen & Hkeys);
      cbn [app omap done_of before_shutdown length];
      (split; [rewrite <- Hdone; reflexivity|]);
      (split; [cbn [length] in *; lia|]);
      intros k Hin;
      repeat (apply elem_of_cons in Hin as [Hin|Hin];
              [first [discriminate Hin
                     |injection Hin as ->; apply elem_of_cons; left; reflexivity]
              |]);
      apply elem_of_cons; right; apply Hkeys; exact Hin.
Qed.

End Working.

Lemma failed_sync_is_requeued_witness :
  let a := Samples.activity SuccessState [] in
  let cache : gmap (string * string) LighthouseJob.t :=
    {[ ("jx", "unit-1") := Samples.job RunningState "running" a ]} in
  let r :=
    foghorn.processNextWorkItem Samples.ToState Samples.State_String
      Samples.RunningStages Samples.TrimRight Samples.refused
      Samples.SplitMetaNamespaceKey cache (Some (item_key "jx/unit-1")) in
  r.1.2 = [queue_AddRateLimited "jx/unit-1"; queue_Done (item_key "jx/unit-1")]
  /\ (queue_AddRateLimited "jx/unit-1" ∈ r.1.2
      <-> exists cache' err,
            (foghorn.syncHandler Samples.ToState Samples.State_String
               Samples.RunningStages Samples.TrimRight Samples.refused
               Samples.SplitMetaNamespaceKey cache "jx/unit-1").2
            = Ok (cache', Some err)).
Proof.
  intros a cache r. split; [vm_compute; reflexivity|].
  assert (Hr : r = (r.1.1, r.1.2, r.2)) by (vm_compute; reflexivity).
  exact (proj1 (proj1 (proj2 (proj2 (proj2
           (failed_sync_is_requeued Samples.ToState Samples.State_String
              Samples.RunningStages Samples.TrimRight Samples.refused
              Samples.SplitMetaNamespaceKey cache (Some (item_key "jx/unit-1"))
              r.1.1 r.1.2 r.2 Hr))))
           "jx/unit-1" eq_refl)).
Defined.

Lemma worker_marks_every_item_done_witness :
  let a := Samples.activity SuccessState [] in
  let cache : gmap (string * string) LighthouseJob.t :=
    {[ ("jx", "unit-1") := Samples.job RunningState "running" a ]} in
  let gets :=
    [Some (item_key "jx/unit-1"); Some item_other; Some (item_key "jx/unit-1");
     None; Some (item_key "jx/unit-1")] in
  let r :=
    foghorn.runWorker Samples.ToState Samples.State_String
      Samples.RunningStages Samples.TrimRight Samples.refused
      Samples.SplitMetaNamespaceKey cache gets in
  let cache' := match r.2 with Ok m => m | Panic _ => cache end in
  r = (r.1.1, r.1.2, Ok cache')
  /\ omap done_of r.1.2
     = [item_key "jx/unit-1"; item_other; item_key "jx/unit-1"]
  /\ length r.1.2 = 6%nat.
Proof.
  intros a cache gets r cache'.
  assert (Hr : r = (r.1.1, r.1.2, Ok cache')) by (vm_compute; reflexivity).
  split; [exact Hr|].
  destruct (worker_marks_every_item_done Samples.ToState Samples.State_String
              Samples.RunningStages Samples.TrimRight Samples.refused
              Samples.SplitMetaNamespaceKey gets cache cache' r.1.1 r.1.2 Hr)
    as (Hdone & Hlen & _).
  split; [exact Hdone|exact Hlen].
Defined.

End FoghornMore.

(** ** Decimal conversions *)

Module GoMore.

Lemma digits_digit (k : Z) (ch : ascii) (s : string) (acc : Z) :
  Z.of_nat (nat_of_ascii ch) - 48 = k -> 0 <= k <= 9 ->
  digits (String ch s) acc = digits s (10 * acc + k).
Proof.
  intros Hk Hr. cbn [digits]. cbv zeta. rewrite Hk.
  replace ((0 <=? k) && (k <=? 9)) with true; [reflexivity|].
  symmetry. apply andb_true_iff. split; apply Z.leb_le; lia.
Qed.

Lemma digits_of_uint_acc (u : Decimal.uint) :
  forall p : positive,
    digits (NilEmpty.string_of_uint u) (Z.pos p)
    = Some (Z.pos (Pos.of_uint_acc u p)).
Proof.
  induction u as [|u IH|u IH|u IH|u IH|u IH|u IH|u IH|u IH|u IH|u IH];
    intros p; cbn [NilEmpty.string_of_uint Pos.of_uint_acc];
    [reflexivity|..].
  - rewrite (digits_digit 0) by (first [reflexivity|lia]).
    rewrite <- IH. f_equal; lia.
  - rewrite (digits_digit 1) by (first [reflexivity|lia]).
    rewrite <- IH. f_equal; lia.
  - rewrite (digits_digit 2) by (first [reflexivity|lia]).
    rewrite <- IH. f_equal; lia.
  - rewrite (digits_digit 3) by (first [reflexivity|lia]).
    rewrite <- IH. f_equal; lia.
  - rewrite (digits_digit 4) by (first [reflexivity|lia]).
    rewrite <- IH. f_equal; lia.
  - rewrite (digits_digit 5) by (first [reflexivity|lia]).
    rewrite <- IH. f_equal; lia.
  - rewrite (digits_digit 6) by (first [reflexivity|lia]).
    rewrite <- IH. f_equal; lia.
  - rewrite (digits_digit 7) by (first [reflexivity|lia]).
    rewrite <- IH. f_equal; lia.
  - rewrite (digits_digit 8) by (first [reflexivity|lia]).
    rewrite <- IH. f_equal; lia.
  - rewrite (digits_digit 9) by (first [reflexivity|lia]).
    rewrite <- IH. f_equal; lia.
Qed.

Lemma digits_of_uint (u : Decimal.uint) :
  digits (NilEmpty.string_of_uint u) 0 = Some (Z.of_N (Pos.of_uint u)).
Proof.
  induction u as [|u IH|u IH|u IH|u IH|u IH|u IH|u IH|u IH|u IH|u IH];
    cbn [NilEmpty.string_of_uint Pos.of_uint]; [reflexivity|..].
  - rewrite (digits_digit 0) by (first [reflexivity|lia]). exact IH.
  - rewrite (digits_digit 1) by (first [reflexivity|lia]).
    apply (digits_of_uint_acc u 1).
  - rewrite (digits_digit 2) by (first [reflexivity|lia]).
    apply (digits_of_uint_acc u 2).
  - rewrite (digits_digit 3) by (first [reflexivity|lia]).
    apply (digits_of_uint_acc u 3).
  - rewrite (digits_digit 4) by (first [reflexivity|lia]).
    apply (digits_of_uint_acc u 4).
  - rewrite (digits_digit 5) by (first [reflexivity|lia]).
    apply (digits_of_uint_acc u 5).
  - rewrite (digits_digit 6) by (first [reflexivity|lia]).
    apply (digits_of_uint_acc u 6).
  - rewrite (digits_digit 7) by (first [reflexivity|lia]).
    apply (digits_of_uint_acc u 7).
  - rewrite (digits_digit 8) by (first [reflexivity|lia]).
    apply (digits_of_uint_acc u 8).
  - rewrite (digits_digit 9) by (first [reflexivity|lia]).
    apply (digits_of_uint_acc u 9).
Qed.

(** The decimal rendering of a positive number: some digits, the first of
    which is no sign. *)
Lemma string_of_pos (p : positive) :
  exists (ch : ascii) (s : string),
    NilZero.string_of_uint (Pos.to_uint p) = String ch s
    /\ Ascii.eqb ch "-" = false /\ Ascii.eqb ch "+" = false
    /\ digits (String ch s) 0 = Some (Z.pos p).
Proof.
  pose proof (Unsigned.to_uint_nonnil p) as Hnil.
  pose proof (digits_of_uint (Pos.to_uint p)) as Hd.
  rewrite Unsigned.of_to in Hd. cbn [Z.of_N] in Hd.
  destruct (Pos.to_uint p) as [|u|u|u|u|u|u|u|u|u|u]; [contradiction|..];
    eexists _, _; (split; [reflexivity|]); repeat split; exact Hd.
Qed.

Lemma Atoi_Itoa (n : Z) : int_min <= n <= int_max -> Atoi (Itoa n) = Some n.
Proof.
  intros Hn. unfold Itoa. destruct n as [|p|p]; [reflexivity|..];
    cbn [Z.to_int NilZero.string_of_int];
    destruct (string_of_pos p) as (ch & s & -> & Hm & Hp & Hd);
    unfold Atoi.
  - rewrite Hm, Hp, Hd.
    replace ((int_min <=? Z.pos p) && (Z.pos p <=? int_max)) with true;
      [reflexivity|].
    symmetry. apply andb_true_iff. split; apply Z.leb_le; lia.
  - change (Ascii.eqb "-" "-") with true. cbv iota. rewrite Hd.
    replace ((int_min <=? - Z.pos p) && (- Z.pos p <=? int_max)) with true;
      [reflexivity|].
    symmetry. apply andb_true_iff. split; apply Z.leb_le; lia.
Qed.

Lemma Itoa_nonempty (n : Z) : Itoa n <> "".
Proof.
  unfold Itoa. destruct n as [|p|p]; [discriminate| |discriminate].
  cbn [Z.to_int NilZero.string_of_int].
  destruct (string_of_pos p) as (ch & s & -> & _). discriminate.
Qed.

Lemma substring_all (s : string) : substring 0 (String.length s) s = s.
Proof. induction s as [|ch s IH]; [reflexivity|]. simpl. rewrite IH. reflexivity. Qed.

Lemma prefix_app_same (p s : string) : String.prefix p (p ++ s)%string = true.
Proof.
  induction p as [|ch p IH]; simpl; [destruct s; reflexivity|].
  destruct (ascii_dec ch ch); [exact IH|contradiction].
Qed.

Lemma TrimPrefix_app (p s : string) : TrimPrefix (p ++ s) p = s.
Proof.
  unfold TrimPrefix. rewrite prefix_app_same.
  induction p as [|ch p IH].
  - simpl. rewrite Nat.sub_0_r. apply substring_all.
  - simpl. exact IH.
Qed.

End GoMore.

(** ** Package [webhook]: answers of the front door *)

Module WebhookMore.
Import webhook GoFacts.

Lemma prefix_app (p s t : string) :
  String.prefix p s = true -> String.prefix p (s ++ t)%string = true.
Proof.
  revert s. induction p as [|ch p IH]; intros s H;
    [destruct (s ++ t)%string; reflexivity|].
  destruct s as [|b s]; [discriminate|]. simpl in *.
  destruct (ascii_dec ch b); [apply IH; exact H|discriminate].
Qed.

Lemma error_body_prefix (msg : string) :
  HasPrefix
    (body (responseHTTPError fresh StatusInternalServerError
             ("500 Internal Server Error: " ++ msg)%string))
    "500 Internal Server Error: " = true.
Proof.
  unfold HasPrefix.
  change (body _)
    with ((("500 Internal Server Error: " ++ msg) ++ String "010"%char "")%string).
  apply prefix_app, (prefix_app _ "500 Internal Server Error: "). reflexivity.
Qed.

Lemma error_body_prefix_Write (msg output : string) :
  HasPrefix
    (body (Write (responseHTTPError fresh StatusInternalServerError
                    ("500 Internal Server Error: " ++ msg)%string) output))
    "500 Internal Server Error: " = true.
Proof.
  unfold HasPrefix.
  change (body _)
    with (((("500 Internal Server Error: " ++ msg) ++ String "010"%char "")
           ++ output)%string).
  apply prefix_app, prefix_app, (prefix_app _ "500 Internal Server Error: ").
  reflexivity.
Qed.

Section Answers.

Variable PluginConfiguration : Type.
Variable ExternalPluginsForEvent :
  option PluginConfiguration -> string -> string -> list string.
Variable serverHandle : Webhook -> list Effect.
Variable e : Env.

(** The repository of the webhook has no job in a loaded configuration, in
    GitHub-App mode. *)
Abbreviation unconfigured o webhook :=
  (GetGitHubAppSecretDir e <> ""
   /\ exists cfg,
        ConfigAgent (server o) = Some (Some cfg)
        /\ GetPostsubmits cfg (Repository webhook) = []
        /\ GetPresubmits cfg (Repository webhook) = []).

Lemma unconfigured_spec (o : Options PluginConfiguration) (webhook : Webhook) :
  (if decide (GetGitHubAppSecretDir e <> "") then
     match ConfigAgent (server o) with
     | Some (Some cfg) =>
         (Z.of_nat (length (GetPostsubmits cfg (Repository webhook))) =? 0)
         && (Z.of_nat (length (GetPresubmits cfg (Repository webhook))) =? 0)
     | _ => false
     end
   else false) = true
  <-> unconfigured o webhook.
Proof.
  case_decide as Happ.
  - destruct (ConfigAgent (server o)) as [[cfg|]|].
    + rewrite andb_true_iff, !Z.eqb_eq. split.
      * intros [H1 H2]. split; [exact Happ|]. exists cfg.
        split; [reflexivity|].
        split; [destruct (GetPostsubmits _ _)|destruct (GetPresubmits _ _)];
          first [reflexivity | simpl in *; lia].
      * intros (_ & cfg' & [= <-] & -> & ->). split; reflexivity.
    + split; [discriminate|]. intros (_ & cfg & [=] & _).
    + split; [discriminate|]. intros (_ & cfg & [=] & _).
  - split; [discriminate|]. intros (H & _). contradiction.
Qed.

(** X13 — [ProcessWebHook] returns an error in one case only: a webhook
    other than a ping, in GitHub-App mode, for a repository that has neither
    a presubmit nor a postsubmit in the loaded configuration; it then calls
    nothing and returns an empty output.  It calls a handler of the server
    exactly for the six kinds of hook it knows (push, pull request, branch,
    issue comment, pull request comment, review) when the repository is not
    rejected, and then calls the one handler of that hook and nothing
    else. *)
Theorem ProcessWebHook_fails_only_when_unconfigured
  (o : Options PluginConfiguration) (webhook : Webhook) :
  let handled :=
    hook webhook ∈ [PushHook; PullRequestHook; BranchHook; IssueCommentHook;
                    PullRequestCommentHook; ReviewHook] in
  let '(evs, output, err) := ProcessWebHook serverHandle e o webhook in
  (err <> None <-> hook webhook <> PingHook /\ unconfigured o webhook)
  /\ (err <> None -> evs = [] /\ output = "")
  /\ (evs <> [] <-> handled /\ ~ unconfigured o webhook)
  /\ (evs <> [] ->
      evs = HandleEvent webhook :: map Internal (serverHandle webhook)).
Proof.
  pose proof (unconfigured_spec o webhook) as Hu.
  unfold ProcessWebHook, dispatch. cbv zeta.
  destruct (hook webhook) eqn:Hh; cbv iota;
    rewrite ?elem_of_cons, ?elem_of_nil.
  1:{ repeat split; intros; try congruence.
      - destruct H as [H _]. congruence.
      - destruct H as [H _]. intuition discriminate. }
  all: match goal with
       | |- context [if ?u then _ else _] => destruct u
       end;
    [pose proof (proj1 Hu eq_refl) as HU
    |assert (HU : ~ unconfigured o webhook)
       by (intros H; apply Hu in H; discriminate H)];
    repeat split; intros; try congruence; try tauto;
    try (intuition discriminate);
    try (rewrite !elem_of_cons; tauto);
    try (exfalso;
         match goal with
         | H : _ ∈ _ /\ _ |- _ =>
             rewrite !elem_of_cons, elem_of_nil in H; intuition discriminate
         end).
Qed.

Lemma ProcessWebHook_cases (o : Options PluginConfiguration)
  (webhook : Webhook) (evs : list Event) (output : string)
  (err : option string) :
  ProcessWebHook serverHandle e o webhook = (evs, output, err) ->
  (err = None /\ forall ev, ev ∈ evs -> is_internal ev = true)
  \/ (evs = [] /\ output = "" /\ exists msg, err = Some msg).
Proof.
  unfold ProcessWebHook, dispatch. cbv zeta.
  assert (Hd : forall ev,
             ev ∈ HandleEvent webhook :: map Internal (serverHandle webhook) ->
             is_internal ev = true).
  { intros ev H. apply elem_of_cons in H as [->|H]; [reflexivity|].
    apply list_elem_of_In, in_map_iff in H as (x & <- & _). reflexivity. }
  assert (Hn : forall ev : Event, ev ∈ [] -> is_internal ev = true)
    by (intros ev H; inversion H).
  destruct (hook webhook); cbv iota;
    try match goal with
        | |- context [if ?u then _ else _] => destruct u
        end;
    intros [= <- <- <-]; eauto 6.
Qed.

(** The ways [handleWebHookRequests] ends. *)
Lemma handle_shape (o : Options PluginConfiguration) (r : Request)
  (evs : list Event) (res : Res ResponseWriter) :
  handleWebHookRequests ExternalPluginsForEvent serverHandle e o fresh r
  = (evs, res) ->
  (Method r <> "POST" /\ evs = [] /\ res = Ok fresh)
  \/ (Method r = "POST" /\ evs = []
      /\ exists msg,
           res = Ok (responseHTTPError fresh StatusInternalServerError
                       ("500 Internal Server Error: " ++ msg)%string))
  \/ (Method r = "POST"
      /\ exists webhook user token,
           Webhooks_Parse e r (hmacToken e) = Parsed webhook
           /\ (if decide (GetGitHubAppSecretDir e <> "")
               then user = GitHubAppGitRemoteUsername e
                    /\ FindToken e (scm.Repository.Namespace (Repository webhook))
                       = inr token
               else user = GetBotName e
                    /\ createSCMToken e (gitKind e) = inr token)
           /\ ((GetAPIClients_err e <> None
                /\ evs = [SetCredentials user token]
                /\ res = Panic NilDereference)
               \/ (GetAPIClients_err e = None
                   /\ exists evs0 output err ext,
                        ProcessWebHook serverHandle e o webhook
                        = (evs0, output, err)
                        /\ evs = (SetCredentials user token :: evs0 ++ ext)%list
                        /\ (forall ev, ev ∈ ext ->
                              exists external token',
                                ev = CallExternalPluginsWithWebhook external
                                       webhook token')
                        /\ res
                           = Ok (Write
                                   match err with
                                   | Some err =>
                                       responseHTTPError fresh
                                         StatusInternalServerError
                                         ("500 Internal Server Error: " ++ err)%string
                                   | None => fresh
                                   end output)))).
Proof.
  intros H. unfold handleWebHookRequests in H. cbv zeta in H.
  destruct (decide (Method r <> "POST")) as [Hm|Hm];
    [injection H as <- <-; left; auto|].
  assert (Hpost : Method r = "POST")
    by (destruct (decide (Method r = "POST")); [assumption|contradiction]).
  right.
  destruct (ReadAll_err r) as [err|]; [injection H as <- <-; left; eauto 6|].
  destruct (Close_err r) as [err|]; [injection H as <- <-; left; eauto 6|].
  destruct (createSCMClient e) as [err|serverURL];
    [injection H as <- <-; left; eauto 6|].
  destruct (Webhooks_Parse e r (hmacToken e)) as [err| |webhook] eqn:Hparse;
    [injection H as <- <-; left; eauto 6..|].
  assert (Hcred :
    match
      (if decide (GetGitHubAppSecretDir e <> "") then
         match FindToken e (scm.Repository.Namespace (Repository webhook)) with
         | inl err =>
             inl ("500 Internal Server Error: " ++ "failed to read owner token: "
                  ++ err)%string
         | inr token => inr (GitHubAppGitRemoteUsername e, token)
         end
       else
         match createSCMToken e (gitKind e) with
         | inl err =>
             inl ("500 Internal Server Error: " ++ "no scm token specified: "
                  ++ err)%string
         | inr token => inr (GetBotName e, token)
         end)
    with
    | inl response => exists msg, response = ("500 Internal Server Error: " ++ msg)%string
    | inr (user, token) =>
        if decide (GetGitHubAppSecretDir e <> "")
        then user = GitHubAppGitRemoteUsername e
             /\ FindToken e (scm.Repository.Namespace (Repository webhook))
                = inr token
        else user = GetBotName e /\ createSCMToken e (gitKind e) = inr token
    end).
  { destruct (decide (GetGitHubAppSecretDir e <> "")).
    - destruct (FindToken e _); [eexists; reflexivity|auto].
    - destruct (createSCMToken e _); [eexists; reflexivity|auto]. }
  match type of H with
  | match ?c with _ => _ end = _ => destruct c as [response|[user token]]
  end.
  { destruct Hcred as [msg ->]. injection H as <- <-. left. eauto 6. }
  right. split; [exact Hpost|]. exists webhook, user, token.
  split; [reflexivity|]. split; [exact Hcred|].
  destruct (GetAPIClients_err e) as [err|];
    [injection H as <- <-; left; repeat split; discriminate|].
  right. split; [reflexivity|].
  destruct (ProcessWebHook serverHandle e o webhook) as [[evs0 output] err].
  injection H as <- <-. eexists _, _, _, _.
  split; [reflexivity|]. split; [reflexivity|]. split; [|reflexivity].
  intros ev Hin. destruct (0 <? _); [|inversion Hin].
  apply list_elem_of_singleton in Hin as ->. eauto.
Qed.

(** X14 — A webhook request answered with a fresh response writer ends
    with status 200 or 500.  A 500 has a body that starts with "500 Internal
    Server Error: ", and no handler of the server ran for it; a request whose
    method is not POST is answered 200 with an empty body and nothing is
    called; a POST answered 200 had its credentials set first. *)
Theorem failed_request_runs_no_handler (o : Options PluginConfiguration)
  (r : Request) (evs : list Event) (w : ResponseWriter) :
  handleWebHookRequests ExternalPluginsForEvent serverHandle e o fresh r
  = (evs, Ok w) ->
  (status w = 200 \/ status w = 500)
  /\ (status w = 500 ->
      HasPrefix (body w) "500 Internal Server Error: " = true
      /\ forall ev, ev ∈ evs -> is_internal ev = false)
  /\ (Method r <> "POST" -> evs = [] /\ w = fresh)
  /\ (Method r = "POST" -> status w = 200 ->
      exists user token rest, evs = SetCredentials user token :: rest).
Proof.
  intros H.
  destruct (handle_shape _ _ _ _ H)
    as [(Hm & -> & [= ->])
       |[(Hm & -> & msg & [= ->])
        |(Hm & webhook & user & token & _ & _ &
          [(_ & _ & [=])
          |(_ & evs0 & output & err & ext & Hp & -> & Hext & [= ->])])]].
  - split; [left; reflexivity|]. split; [discriminate|].
    split; [auto|]. intros Hpost. contradiction.
  - split; [right; reflexivity|].
    split; [intros _; split; [apply error_body_prefix
                             |intros ev Hin; inversion Hin]|].
    split; [intros Hne; contradiction|]. intros _ Hs. discriminate Hs.
  - assert (Hx : forall ev, ev ∈ ext -> is_internal ev = false)
      by (intros ev Hin; destruct (Hext ev Hin) as (x & t & ->); reflexivity).
    destruct (ProcessWebHook_cases _ _ _ _ _ Hp)
      as [(-> & Hint)|(-> & -> & msg & ->)].
    + split; [left; reflexivity|]. split; [discriminate|].
      split; [intros Hne; contradiction|]. intros _ _. eauto.
    + split; [right; reflexivity|].
      split; [intros _; split; [apply error_body_prefix_Write|]|].
      * intros ev Hin. apply elem_of_cons in Hin as [->|Hin]; [reflexivity|].
        apply Hx. exact Hin.
      * split; [intros Hne; contradiction|]. intros _ Hs. discriminate Hs.
Qed.

(** X15 — The credentials a webhook request sets follow the mode.  In
    GitHub-App mode the user is the fixed remote user name of the app and the
    token is the one found for the owner of the repository of the webhook;
    otherwise the user is the bot name, which is never empty, and the token
    is the non-empty value of GIT_TOKEN.  They are set once, before anything
    else is called. *)
Theorem credentials_follow_the_mode (o : Options PluginConfiguration)
  (r : Request) (evs : list Event) (res : Res ResponseWriter)
  (user token : string) :
  handleWebHookRequests ExternalPluginsForEvent serverHandle e o fresh r
  = (evs, res) ->
  SetCredentials user token ∈ evs ->
  (exists rest,
      evs = SetCredentials user token :: rest
      /\ forall u t, SetCredentials u t ∉ rest)
  /\ if decide (GetGitHubAppSecretDir e <> "")
     then user = GitHubAppGitRemoteUsername e
          /\ exists webhook,
               Webhooks_Parse e r (HMAC_TOKEN e) = Parsed webhook
               /\ FindToken e (scm.Repository.Namespace (Repository webhook))
                  = inr token
     else user = GetBotName e /\ user <> ""
          /\ token = GIT_TOKEN e /\ token <> "".
Proof.
  intros H Hin.
  assert (Hbot : GetBotName e <> "").
  { unfold GetBotName.
    repeat first [case_decide | case_match]; subst; try assumption;
      discriminate. }
  destruct (handle_shape _ _ _ _ H)
    as [(_ & -> & _)
       |[(_ & -> & _)
        |(_ & webhook & user' & token' & Hparse & Hcred & Hend)]];
    [inversion Hin..|].
  assert (Hrest : exists rest,
             evs = SetCredentials user' token' :: rest
             /\ forall u t, SetCredentials u t ∉ rest).
  { destruct Hend as [(_ & -> & _)
                     |(_ & evs0 & output & err & ext & Hp & -> & Hext & _)].
    - exists []. split; [reflexivity|]. intros u t Hu. inversion Hu.
    - eexists. split; [reflexivity|]. intros u t Hu.
      apply elem_of_app in Hu as [Hu|Hu].
      + destruct (ProcessWebHook_cases _ _ _ _ _ Hp)
          as [(_ & Hint)|(-> & _)]; [|inversion Hu].
        specialize (Hint _ Hu). discriminate Hint.
      + destruct (Hext _ Hu) as (x & t' & [=]). }
  destruct Hrest as (rest & -> & Hrest).
  apply elem_of_cons in Hin as [[= -> ->]|Hin]; [|destruct (Hrest _ _ Hin)].
  split; [eauto|].
  destruct (decide (GetGitHubAppSecretDir e <> "")).
  - destruct Hcred as (-> & Htok). split; [reflexivity|eauto].
  - destruct Hcred as (-> & Htok). split; [reflexivity|].
    split; [exact Hbot|].
    unfold createSCMToken in Htok. case_decide; [discriminate|].
    injection Htok as <-. auto.
Qed.

(** X16 — [GetBotName] never answers the empty name.  It is the API
    user of the GitHub App when the app is configured and that user is read
    without error and is not empty; in every other case (no app configured,
    the user unreadable, or the user empty) it is GIT_USER, or
    "jenkins-x-bot" when that is unset. *)
Theorem GetBotName_never_empty :
  let fallback :=
    if decide (GIT_USER e = "") then "jenkins-x-bot" else GIT_USER e in
  GetBotName e <> ""
  /\ (GetGitHubAppSecretDir e = "" -> GetBotName e = fallback)
  /\ (forall ghaBotName,
        GetGitHubAppSecretDir e <> "" ->
        GetGitHubAppAPIUser e = inr ghaBotName -> ghaBotName <> "" ->
        GetBotName e = ghaBotName)
  /\ ((exists err, GetGitHubAppAPIUser e = inl err)
      \/ GetGitHubAppAPIUser e = inr "" ->
      GetBotName e = fallback).
Proof.
  intros fallback. subst fallback. unfold GetBotName. cbv zeta.
  split; [|split; [|split]].
  - repeat first [case_decide | case_match]; subst; try assumption;
      discriminate.
  - intros ->. reflexivity.
  - intros ghaBotName Happ -> Hne.
    rewrite decide_True by exact Happ. rewrite decide_True by exact Hne.
    reflexivity.
  - intros [[err ->]| ->];
      destruct (decide (GetGitHubAppSecretDir e <> "")); reflexivity.
Qed.

(** X17 — Behind [defaultHandler], only a POST on the hook path (the
    path itself or a path below it) calls anything; a request is answered
    404 exactly when its path is off the hook path and is neither the root
    nor index.html, and with 200, 404 or 500 in all. *)
Theorem only_posts_on_hook_path_have_effects
  (o : Options PluginConfiguration) (r : Request) (evs : list Event)
  (res : Res ResponseWriter) :
  defaultHandler ExternalPluginsForEvent serverHandle e o fresh r
  = (evs, res) ->
  let on_hook_path :=
    URL_Path r = Path o
    \/ HasPrefix (URL_Path r) (Path o ++ "/")%string = true in
  let path := TrimPrefix (URL_Path r) "/" in
  (evs <> [] -> Method r = "POST" /\ on_hook_path)
  /\ (forall w, res = Ok w ->
        (status w = 200 \/ status w = 404 \/ status w = 500)
        /\ (status w = 404
            <-> ~ on_hook_path /\ path <> "" /\ path <> "index.html"))
  /\ (~ on_hook_path -> exists w, res = Ok w).
Proof.
  intros H on_hook_path path. unfold defaultHandler in H. cbv zeta in H.
  fold path in H.
  destruct (bool_decide (URL_Path r = Path o)
            || HasPrefix (URL_Path r) (Path o ++ "/")%string) eqn:Hon.
  - assert (Hp : on_hook_path).
    { apply orb_true_iff in Hon as [Hon|Hon];
        [left; apply bool_decide_eq_true in Hon; exact Hon|right; exact Hon]. }
    split; [|split; [|intros Hoff; contradiction]].
    + intros Hne. split; [|exact Hp].
      destruct (handle_shape _ _ _ _ H)
        as [(_ & -> & _)|[(_ & -> & _)|(Hm & _)]];
        [contradiction..|exact Hm].
    + intros w ->.
      destruct (handle_shape _ _ _ _ H)
        as [(Hm & _ & [= ->])
           |[(Hm & _ & msg & [= ->])
            |(Hm & webhook & user & token & _ & _ &
              [(_ & _ & [=])
              |(_ & evs0 & output & err & ext & Hp' & _ & _ & [= ->])])]].
      * split; [left; reflexivity|]. split; [discriminate|tauto].
      * split; [right; right; reflexivity|]. split; [discriminate|tauto].
      * destruct err; (split; [auto|]; split; [discriminate|tauto]).
  - assert (Hp : ~ on_hook_path).
    { apply orb_false_iff in Hon as [Hon1 Hon2].
      apply bool_decide_eq_false in Hon1. intros [Hp|Hp]; congruence. }
    destruct (bool_decide (path = "") || bool_decide (path = "index.html"))
      eqn:Hroot; injection H as <- <-.
    + split; [intros Hne; contradiction|]. split; [|eauto].
      intros w [= <-]. split; [left; reflexivity|].
      split; [discriminate|]. intros (_ & H1 & H2).
      apply orb_true_iff in Hroot as [Hr|Hr];
        apply bool_decide_eq_true in Hr; contradiction.
    + split; [intros Hne; contradiction|]. split; [|eauto].
      intros w [= <-]. split; [right; left; reflexivity|].
      split; [|reflexivity]. intros _.
      apply orb_false_iff in Hroot as [H1 H2].
      apply bool_decide_eq_false in H1, H2. auto.
Qed.

End Answers.

Lemma failed_request_runs_no_handler_witness :
  let r :=
    handleWebHookRequests Samples.ExternalPluginsForEvent Samples.serverHandle
      Samples.app (Samples.loaded ["ext"]) fresh (Samples.post "unknown") in
  let w := match r.2 with Ok w => w | Panic _ => fresh end in
  r = (r.1, Ok w)
  /\ status w = 500
  /\ HasPrefix (body w) "500 Internal Server Error: " = true
  /\ forall ev, ev ∈ r.1 -> is_internal ev = false.
Proof.
  intros r w.
  assert (Hr : r = (r.1, Ok w)) by (vm_compute; reflexivity).
  split; [exact Hr|]. split; [reflexivity|].
  exact (proj1 (proj2 (failed_request_runs_no_handler (list string)
                         Samples.ExternalPluginsForEvent Samples.serverHandle
                         Samples.app (Samples.loaded ["ext"])
                         (Samples.post "unknown") r.1 w Hr)) eq_refl).
Defined.

Lemma credentials_follow_the_mode_witness :
  let r :=
    handleWebHookRequests Samples.ExternalPluginsForEvent Samples.serverHandle
      Samples.bot (Samples.loaded []) fresh (Samples.post "repo") in
  SetCredentials "jenkins-x-bot" "t0ken" ∈ r.1
  /\ GetGitHubAppSecretDir Samples.bot = ""
  /\ exists rest,
       r.1 = SetCredentials "jenkins-x-bot" "t0ken" :: rest
       /\ forall u t, SetCredentials u t ∉ rest.
Proof.
  intros r.
  assert (Hin : SetCredentials "jenkins-x-bot" "t0ken" ∈ r.1)
    by (vm_compute; left).
  split; [exact Hin|]. split; [reflexivity|].
  exact (proj1 (credentials_follow_the_mode (list string)
                  Samples.ExternalPluginsForEvent Samples.serverHandle
                  Samples.bot (Samples.loaded []) (Samples.post "repo")
                  r.1 r.2 "jenkins-x-bot" "t0ken"
                  (surjective_pairing r) Hin)).
Defined.

Lemma only_posts_on_hook_path_have_effects_witness :
  let r :=
    defaultHandler Samples.ExternalPluginsForEvent Samples.serverHandle
      Samples.app (Samples.loaded []) fresh (Samples.get "/favicon.ico") in
  r = ([], Ok {| code := Some 404;
                 body := "unknown path favicon.ico" ++ String "010"%char "" |})
  /\ forall w, r.2 = Ok w ->
       status w = 200 \/ status w = 404 \/ status w = 500.
Proof.
  intros r. split; [vm_compute; reflexivity|].
  intros w Hw.
  exact (proj1 (proj1 (proj2 (only_posts_on_hook_path_have_effects
                                (list string) Samples.ExternalPluginsForEvent
                                Samples.serverHandle Samples.app
                                (Samples.loaded []) (Samples.get "/favicon.ico")
                                r.1 r.2 (surjective_pairing r))) w Hw)).
Defined.

Example front_door_samples :
  let answer env o r :=
    match defaultHandler Samples.ExternalPluginsForEvent Samples.serverHandle
            env o fresh r with
    | (evs, Ok w) => Some (length evs, status w)
    | (_, Panic _) => None
    end in
  answer Samples.app (Samples.loaded []) (Samples.get "/") = Some (0%nat, 200)
  /\ answer Samples.app (Samples.loaded []) (Samples.get "/index.html")
     = Some (0%nat, 200)
  /\ answer Samples.app (Samples.loaded []) (Samples.get "/hook")
     = Some (0%nat, 200)
  /\ answer Samples.app (Samples.loaded []) (Samples.get "/hooks")
     = Some (0%nat, 404)
  /\ answer Samples.app (Samples.loaded []) (Samples.post "repo")
     = Some (4%nat, 200)
  /\ answer Samples.bot Samples.unloaded (Samples.post "unknown")
     = Some (4%nat, 200)
  /\ answer Samples.app (Samples.loaded []) (Samples.post "unknown")
     = Some (1%nat, 500).
Proof. repeat split; vm_compute; reflexivity. Qed.

End WebhookMore.

(** ** Package [launcher]: what [Launch] calls, and conversions *)

Module LauncherMore.
Import v1alpha1 launcher GoFacts GoMore.

Ltac split_in H :=
  repeat (apply elem_of_cons in H; destruct H as [H|H]);
  try (apply elem_of_nil in H; contradiction);
  try discriminate H.

Lemma launchBranch_nonempty (spec : LighthouseJobSpec.t) (refs : Refs.t)
  (repository : scm.Repository.t) :
  launchBranch spec refs repository <> "".
Proof.
  unfold launchBranch. cbv zeta.
  repeat case_decide; first [assumption | discriminate | congruence].
Qed.

Section Launching.

Variable PullRef_String : PullRef -> string.
Variable GetEnvVars : LighthouseJobSpec.t -> gmap string string.
Variable ToValidName : string -> string.
Variable BuildNumLabel : string.
Variable e : Env.
Variable namespace : string.

Abbreviation Launch' :=
  (Launch PullRef_String GetEnvVars ToValidName BuildNumLabel e namespace).

(** X18 — [Launch] returns either a job or an error, never both and
    never neither.  It returns a job only after three calls succeeded, in
    this order: the pipeline was created in the engine, the job record was
    created in the cluster, and the pipeline was applied; the job returned is
    the one the cluster answered with.  The job record submitted carries the
    name and the spec of the request, the build number of the activity key
    under the build label, the state pending, the activity name derived from
    the key, and the current time as its start. *)
Theorem job_returned_only_after_all_calls (request : LighthouseJob.t)
  (repository : scm.Repository.t) (evs : list Event)
  (job : option LighthouseJob.t) (err : option string) :
  Launch' request repository = (evs, Ok (job, err)) ->
  (job = None <-> err <> None)
  /\ forall applied : LighthouseJob.t,
       job = Some applied ->
       exists fields param key submitted labels,
         evs = [Info fields; metapipeline_Create param;
                WriteFile ("/tmp/lhj-" ++ LighthouseJob.Name request
                           ++ "-no-status.yaml")%string submitted;
                LighthouseJobs_Create namespace submitted;
                metapipeline_Apply key]
         /\ Create e param = inr key
         /\ Create_job e submitted = inr applied
         /\ Apply_err e key = None
         /\ LighthouseJob.Name submitted = LighthouseJob.Name request
         /\ LighthouseJob.Spec submitted = LighthouseJob.Spec request
         /\ LighthouseJob.Labels request = Some labels
         /\ LighthouseJob.Labels submitted
            = Some (<[BuildNumLabel := KeyBuild key]> labels)
         /\ LighthouseJobStatus.State (LighthouseJob.Status submitted)
            = PendingState
         /\ LighthouseJobStatus.ActivityName (LighthouseJob.Status submitted)
            = ToValidName (KeyName key)
         /\ LighthouseJobStatus.StartTime (LighthouseJob.Status submitted)
            = Some (Now e).
Proof.
  intros H. unfold Launch in H.
  destruct (LighthouseJobSpec.Refs (LighthouseJob.Spec request)) as [refs|];
    [|discriminate]. cbv zeta in H.
  destruct (Create e _) as [err1|key] eqn:Hc.
  { injection H as <- <- <-. split; [split; [discriminate|reflexivity]|].
    discriminate. }
  destruct (LighthouseJob.Labels request) as [labels|] eqn:Hl; [|discriminate].
  destruct (Create_job e _) as [err2|appliedJob] eqn:Hj.
  { injection H as <- <- <-. split; [split; [discriminate|reflexivity]|].
    discriminate. }
  destruct (Apply_err e key) as [err3|] eqn:Ha; injection H as <- <- <-.
  { split; [split; [discriminate|reflexivity]|]. discriminate. }
  split; [split; [discriminate|intros Hne; contradiction]|].
  intros applied [= <-]. eexists _, _, key, _, labels.
  split; [reflexivity|]. split; [exact Hc|]. split; [exact Hj|].
  split; [exact Ha|]. repeat split.
Qed.

(** X19 — [Launch] stops at the first call that fails and undoes
    nothing.  The job record is created only when the engine created the
    pipeline, and the pipeline is applied only when the cluster created the
    job record.  An error names the call that failed: when the engine cannot
    create the pipeline no job record is written; when the cluster refuses
    the job record the pipeline is not applied; and when applying the
    pipeline fails the job record has already been created, and stays. *)
Theorem launch_stops_at_first_failure (request : LighthouseJob.t)
  (repository : scm.Repository.t) (evs : list Event)
  (res : Res (option LighthouseJob.t * option string)) :
  Launch' request repository = (evs, res) ->
  (forall ns j,
      LighthouseJobs_Create ns j ∈ evs ->
      ns = namespace
      /\ exists param key,
           metapipeline_Create param ∈ evs /\ Create e param = inr key)
  /\ (forall key,
        metapipeline_Apply key ∈ evs ->
        exists j applied,
          LighthouseJobs_Create namespace j ∈ evs
          /\ Create_job e j = inr applied)
  /\ (forall msg,
        res = Ok (None, Some msg) ->
        (exists param err,
            msg = ("unable to create Tekton CRDs: " ++ err)%string
            /\ Create e param = inl err
            /\ forall ns j, LighthouseJobs_Create ns j ∉ evs)
        \/ (exists j err,
              msg = ("unable to apply LighthouseJob: " ++ err)%string
              /\ Create_job e j = inl err
              /\ LighthouseJobs_Create namespace j ∈ evs
              /\ forall key, metapipeline_Apply key ∉ evs)
        \/ (exists key j err,
              msg = ("unable to apply Tekton CRDs: " ++ err)%string
              /\ Apply_err e key = Some err
              /\ metapipeline_Apply key ∈ evs
              /\ LighthouseJobs_Create namespace j ∈ evs)).
Proof.
  intros H. unfold Launch in H.
  destruct (LighthouseJobSpec.Refs (LighthouseJob.Spec request)) as [refs|].
  2:{ injection H as <- <-. split; [intros ns j Hin; inversion Hin|].
      split; [intros key Hin; inversion Hin|]. intros msg [=]. }
  cbv zeta in H.
  destruct (Create e _) as [err1|key] eqn:Hc.
  { injection H as <- <-. split; [intros ns j Hin; split_in Hin|].
    split; [intros k Hin; split_in Hin|].
    intros msg [= <-]. left. eexists _, _. split; [reflexivity|].
    split; [exact Hc|]. intros ns j Hin. split_in Hin. }
  destruct (LighthouseJob.Labels request) as [labels|] eqn:Hl.
  2:{ injection H as <- <-. split; [intros ns j Hin; split_in Hin|].
      split; [intros k Hin; split_in Hin|]. intros msg [=]. }
  destruct (Create_job e _) as [err2|appliedJob] eqn:Hj.
  { injection H as <- <-. cbn [app].
    split.
    { intros ns j Hin. split_in Hin. injection Hin as -> ->.
      split; [reflexivity|]. eexists _, _.
      split; [|exact Hc]. apply list_elem_of_In. simpl. tauto. }
    split; [intros k Hin; split_in Hin|].
    intros msg [= <-]. right. left. eexists _, _. split; [reflexivity|].
    split; [exact Hj|].
    split; [apply list_elem_of_In; simpl; tauto|].
    intros k Hin. split_in Hin. }
  destruct (Apply_err e key) as [err3|] eqn:Ha; injection H as <- <-;
    cbn [app];
    (split;
     [intros ns j Hin; split_in Hin; injection Hin as -> ->;
      split; [reflexivity|]; eexists _, _;
      split; [|exact Hc]; apply list_elem_of_In; simpl; tauto|]);
    (split;
     [intros k Hin; split_in Hin; injection Hin as ->; eexists _, _;
      split; [|exact Hj]; apply list_elem_of_In; simpl; tauto|]).
  - intros msg [= <-]. right. right. eexists key, _, _.
    split; [reflexivity|]. split; [exact Ha|].
    split; apply list_elem_of_In; simpl; tauto.
  - intros msg [=].
Qed.

(** X20 — [Launch] panics in two cases only: for a request whose spec
    has no refs, before anything is called; and for a request without
    labels, at the assignment of the build number, after the engine has
    created the pipeline and before any job record is written. *)
Theorem Launch_panics_without_refs_or_labels (request : LighthouseJob.t)
  (repository : scm.Repository.t) (evs : list Event) (p : panic) :
  Launch' request repository = (evs, Panic p) ->
  (LighthouseJobSpec.Refs (LighthouseJob.Spec request) = None
   /\ evs = [] /\ p = NilDereference)
  \/ (LighthouseJob.Labels request = None
      /\ p = NilMapAssignment
      /\ exists fields param key,
           evs = [Info fields; metapipeline_Create param]
           /\ Create e param = inr key).
Proof.
  intros H. unfold Launch in H.
  destruct (LighthouseJobSpec.Refs (LighthouseJob.Spec request)) as [refs|];
    [|injection H as <- <-; left; auto].
  cbv zeta in H.
  destruct (Create e _) as [err1|key] eqn:Hc; [discriminate|].
  destruct (LighthouseJob.Labels request) as [labels|] eqn:Hl.
  - destruct (Create_job e _); [discriminate|].
    destruct (Apply_err e key); discriminate.
  - injection H as <- <-. right. split; [reflexivity|].
    split; [reflexivity|]. eexists _, _, key. split; [reflexivity|exact Hc].
Qed.

(** X21 — What [Launch] logs and submits is well formed: the branch and
    the pull refs of the log entry are never empty, the service account of
    the pipeline is never empty, the pull requests of its pull ref are those
    of the refs of the spec, in order, each with its number in decimal and
    its SHA, and its kind is the pull-request kind exactly when it has pull
    requests. *)
Theorem launch_submits_well_formed_pipeline (request : LighthouseJob.t)
  (repository : scm.Repository.t) (refs : Refs.t) (evs : list Event)
  (res : Res (option LighthouseJob.t * option string)) :
  LighthouseJobSpec.Refs (LighthouseJob.Spec request) = Some refs ->
  Launch' request repository = (evs, res) ->
  (forall fields, Info fields ∈ evs ->
     Branch fields <> "" /\ PullRefs fields <> "")
  /\ (forall param, metapipeline_Create param ∈ evs ->
        ServiceAccount param <> ""
        /\ pullRequests (PullRef_ param)
           = map (fun pull => {| ID := Itoa (Number pull); MergeSHA := SHA pull |})
                 (Refs.Pulls refs)
        /\ baseBranch (PullRef_ param) = Refs.BaseRef refs
        /\ baseSHA (PullRef_ param) = Refs.BaseSHA refs
        /\ sourceURL (PullRef_ param) = scm.Repository.Clone repository
        /\ (PipelineKind_ param = PullRequestPipeline
            <-> pullRequests (PullRef_ param) <> [])).
Proof.
  intros Hrefs H. unfold Launch in H. rewrite Hrefs in H. cbv zeta in H.
  assert (Hfields : forall fields param rest,
            evs = Info fields :: metapipeline_Create param :: rest ->
            (forall ev, ev ∈ rest ->
               match ev with
               | Info _ | metapipeline_Create _ => False
               | _ => True
               end) ->
            (forall f, Info f ∈ evs -> f = fields)
            /\ (forall q, metapipeline_Create q ∈ evs -> q = param)).
  { intros fields param rest -> Hrest. split.
    - intros f Hin. apply elem_of_cons in Hin as [[= ->]|Hin]; [reflexivity|].
      apply elem_of_cons in Hin as [[=]|Hin]. destruct (Hrest _ Hin).
    - intros q Hin. apply elem_of_cons in Hin as [[=]|Hin].
      apply elem_of_cons in Hin as [[= ->]|Hin]; [reflexivity|].
      destruct (Hrest _ Hin). }
  assert (Hshape : exists rest,
             evs = Info
                     {| Owner := scm.Repository.Namespace repository;
                        Name := scm.Repository.Name repository;
                        SourceURL := scm.Repository.Clone repository;
                        Branch := launchBranch (LighthouseJob.Spec request)
                                    refs repository;
                        PullRefs :=
                          (let pullRefs :=
                             if 0 <? Z.of_nat (length (Refs.Pulls refs))
                             then PullRef_String
                                    (getPullRefs (scm.Repository.Clone repository)
                                       (LighthouseJob.Spec request) refs)
                             else "" in
                           if decide (pullRefs = "")
                           then (launchBranch (LighthouseJob.Spec request)
                                   refs repository ++ ":")%string
                           else pullRefs);
                        Job := LighthouseJobSpec.Job
                                 (LighthouseJob.Spec request) |}
                   :: metapipeline_Create
                        {| PullRef_ :=
                             getPullRefs (scm.Repository.Clone repository)
                               (LighthouseJob.Spec request) refs;
                           PipelineKind_ := launchKind refs;
                           Context :=
                             LighthouseJobSpec.Context
                               (LighthouseJob.Spec request);
                           ServiceAccount :=
                             (if decide (JX_SERVICE_ACCOUNT e = "")
                              then "tekton-bot" else JX_SERVICE_ACCOUNT e);
                           DefaultImage := "";
                           EnvVariables :=
                             GetEnvVars (LighthouseJob.Spec request) |}
                   :: rest
             /\ forall ev, ev ∈ rest ->
                  match ev with
                  | Info _ | metapipeline_Create _ => False
                  | _ => True
                  end).
  { destruct (Create e _) as [err1|key];
      [injection H as <- _; exists []; split;
       [reflexivity|intros ev Hin; inversion Hin]|].
    destruct (LighthouseJob.Labels request) as [labels|];
      [|injection H as <- _; exists []; split;
        [reflexivity|intros ev Hin; inversion Hin]].
    destruct (Create_job e _) as [err2|appliedJob];
      [injection H as <- _; eexists; split;
       [reflexivity|intros ev Hin; split_in Hin; subst ev; exact I]|].
    destruct (Apply_err e key); injection H as <- _; eexists;
      (split; [reflexivity|intros ev Hin; split_in Hin; subst ev; exact I]). }
  destruct Hshape as (rest & Hevs & Hrest). clear H.
  destruct (Hfields _ _ _ Hevs Hrest) as [Hf Hq].
  split.
  - intros fields Hin. rewrite (Hf _ Hin). cbn [Branch PullRefs].
    split; [apply launchBranch_nonempty|].
    cbv zeta.
    match goal with
    | |- (if ?d then _ else _) <> _ => destruct d as [Hp|Hp]
    end; [|exact Hp].
    pose proof (launchBranch_nonempty (LighthouseJob.Spec request) refs
                  repository) as Hb.
    destruct (launchBranch _ _ _); [contradiction|discriminate].
  - intros param Hin. rewrite (Hq _ Hin).
    cbn [ServiceAccount PullRef_ PipelineKind_].
    split;
      [match goal with
       | |- (if ?d then _ else _) <> _ => destruct d
       end; [discriminate|assumption]|].
    unfold getPullRefs, launchKind.
    destruct (Refs.Pulls refs) as [|pull pulls]; cbn; repeat split;
      try discriminate; try contradiction; intros; congruence.
Qed.

End Launching.

Section Converting.

Variable ToPipelineState : string -> PipelineState.

Abbreviation ToLighthouseJob' := (ToLighthouseJob ToPipelineState).

(** X22 — The branch [getBranch] gives a pull request is read back by
    [ToLighthouseJob]: an activity on branch "PR-n", for n in the range of
    an int, that comprises no other pull requests, becomes a presubmit job
    with the single pull number n and the ref pull/n/head, for which
    [getBranch] gives "PR-n" again. *)
Theorem pull_request_branch_round_trips (activity : PipelineActivity) (n : Z) :
  int_min <= n <= int_max ->
  GitBranch activity = ("PR-" ++ Itoa n)%string ->
  ComprisingPulLRequests activity = [] ->
  let spec := LighthouseJob.Spec (ToLighthouseJob' activity) in
  exists refs,
    LighthouseJobSpec.Refs spec = Some refs
    /\ LighthouseJobSpec.Type_ spec = PresubmitJob
    /\ Refs.Pulls refs
       = [ {| Number := n; SHA := LastCommitSHA activity;
              Title := PullTitle activity;
              Ref := ("pull/" ++ Itoa n ++ "/head")%string;
              Link := ""; AuthorLogin := "";
              CommitLink := LastCommitURL activity |} ]
    /\ getBranch spec refs = GitBranch activity.
Proof.
  intros Hn Hb Hc spec. subst spec. unfold ToLighthouseJob.
  rewrite Hb, Hc. cbv zeta.
  rewrite (decide_False (P := ("PR-" ++ Itoa n)%string = "master"))
    by discriminate.
  unfold HasPrefix. rewrite (prefix_app_same "PR-" (Itoa n)).
  rewrite (TrimPrefix_app "PR-" (Itoa n)).
  rewrite (decide_True (P := Itoa n <> "")) by apply Itoa_nonempty.
  rewrite (Atoi_Itoa n Hn).
  eexists. split; [reflexivity|]. split; [reflexivity|].
  split; [reflexivity|]. reflexivity.
Qed.

(** X23 — What [ToLighthouseJob] keeps of the branch.  The job it makes
    always has the base ref "master" and at most one pull, is a postsubmit
    exactly for the branch "master", and is never periodic.  It has a pull
    only for a branch "PR-" followed by a number that [strconv.Atoi] reads.
    An activity on any other branch that comprises no pull requests becomes
    a presubmit job without pulls, for which [getBranch] gives "master": the
    branch of the activity is lost. *)
Theorem converted_job_is_based_on_master (activity : PipelineActivity) :
  let spec := LighthouseJob.Spec (ToLighthouseJob' activity) in
  exists refs,
    LighthouseJobSpec.Refs spec = Some refs
    /\ Refs.BaseRef refs = "master"
    /\ (length (Refs.Pulls refs) <= 1)%nat
    /\ (LighthouseJobSpec.Type_ spec = PostsubmitJob
        <-> GitBranch activity = "master")
    /\ LighthouseJobSpec.Type_ spec <> PeriodicJob
    /\ (forall pull, pull ∈ Refs.Pulls refs ->
          HasPrefix (GitBranch activity) "PR-" = true
          /\ Atoi (TrimPrefix (GitBranch activity) "PR-") = Some (Number pull))
    /\ (GitBranch activity <> "master" ->
        HasPrefix (GitBranch activity) "PR-" = false ->
        ComprisingPulLRequests activity = [] ->
        LighthouseJobSpec.Type_ spec = PresubmitJob
        /\ Refs.Pulls refs = []
        /\ getBranch spec refs = "master").
Proof.
  intros spec. subst spec. unfold ToLighthouseJob. cbv zeta.
  eexists. split; [reflexivity|].
  cbn [Refs.BaseRef Refs.Pulls LighthouseJob.Spec LighthouseJobSpec.Type_].
  split; [reflexivity|]. split.
  { repeat case_match; simpl; lia. }
  split.
  { case_decide as Hm; [tauto|].
    split; [|contradiction]. case_match; discriminate. }
  split.
  { case_decide; [discriminate|]. case_match; discriminate. }
  split.
  { intros pull Hin. destruct (HasPrefix _ _); [|inversion Hin].
    case_decide; [|inversion Hin].
    destruct (Atoi _) as [m|]; [|inversion Hin].
    apply list_elem_of_singleton in Hin as ->. auto. }
  intros Hm Hp Hc. rewrite Hp, Hc. rewrite decide_False by exact Hm.
  split; [reflexivity|]. split; [reflexivity|]. reflexivity.
Qed.

End Converting.

Lemma job_returned_only_after_all_calls_witness :
  let request :=
    Samples.request PresubmitJob (Samples.refs "master" [Samples.pull 7 "abc"]) in
  let r :=
    Launch Samples.PullRef_String Samples.GetEnvVars Samples.ToValidName
      "build" Samples.engine "jx" request (Samples.repository "repo") in
  let job := match r.2 with Ok (Some j, _) => j | _ => request end in
  r = (r.1, Ok (Some job, None))
  /\ exists submitted key,
       LighthouseJobs_Create "jx" submitted ∈ r.1
       /\ Create_job Samples.engine submitted = inr job
       /\ LighthouseJob.Labels submitted
          = Some (<["build" := KeyBuild key]> ∅)
       /\ LighthouseJobStatus.State (LighthouseJob.Status submitted)
          = PendingState.
Proof.
  intros request r job.
  assert (Hr : r = (r.1, Ok (Some job, None))) by (vm_compute; reflexivity).
  split; [exact Hr|].
  destruct (proj2 (job_returned_only_after_all_calls Samples.PullRef_String
                     Samples.GetEnvVars Samples.ToValidName "build"
                     Samples.engine "jx" request (Samples.repository "repo")
                     r.1 (Some job) None Hr) job eq_refl)
    as (fields & param & key & submitted & labels & Hevs & _ & Hj & _ & _ & _
        & Hl & Hl' & Hst & _).
  exists submitted, key. rewrite Hevs.
  split; [apply list_elem_of_In; simpl; tauto|].
  split; [exact Hj|]. split; [|exact Hst].
  rewrite Hl'. injection Hl as <-. reflexivity.
Defined.

Lemma launch_stops_at_first_failure_witness :
  let request :=
    Samples.request PresubmitJob (Samples.refs "master" [Samples.pull 7 "abc"]) in
  let r :=
    Launch Samples.PullRef_String Samples.GetEnvVars Samples.ToValidName
      "build" Samples.stalled "jx" request (Samples.repository "repo") in
  r.2 = Ok (None, Some "unable to apply Tekton CRDs: timeout")
  /\ exists key j,
       metapipeline_Apply key ∈ r.1 /\ LighthouseJobs_Create "jx" j ∈ r.1.
Proof.
  intros request r.
  assert (Hr : r.2 = Ok (None, Some "unable to apply Tekton CRDs: timeout"))
    by (vm_compute; reflexivity).
  split; [exact Hr|].
  destruct (proj2 (proj2 (launch_stops_at_first_failure Samples.PullRef_String
                            Samples.GetEnvVars Samples.ToValidName "build"
                            Samples.stalled "jx" request
                            (Samples.repository "repo") r.1 r.2
                            (surjective_pairing r))) _ Hr)
    as [(param & err & _ & Hc & _)
       |[(j & err & _ & Hj & _)
        |(key & j & err & _ & _ & Hin & Hin')]].
  - vm_compute in Hc. discriminate Hc.
  - vm_compute in Hj. discriminate Hj.
  - exists key, j. split; assumption.
Defined.

Lemma Launch_panics_without_refs_or_labels_witness :
  let request :=
    LighthouseJob.mk "unit-1" None
      (Samples.spec_of PresubmitJob
         (Samples.refs "master" [Samples.pull 7 "abc"]))
      (LighthouseJobStatus.mk "" "" None None "" "" "" "" None) in
  let r :=
    Launch Samples.PullRef_String Samples.GetEnvVars Samples.ToValidName
      "build" Samples.engine "jx" request (Samples.repository "repo") in
  r = (r.1, Panic NilMapAssignment)
  /\ exists fields param key,
       r.1 = [Info fields; metapipeline_Create param]
       /\ Create Samples.engine param = inr key.
Proof.
  intros request r.
  assert (Hr : r = (r.1, Panic NilMapAssignment)) by (vm_compute; reflexivity).
  split; [exact Hr|].
  destruct (Launch_panics_without_refs_or_labels Samples.PullRef_String
              Samples.GetEnvVars Samples.ToValidName "build" Samples.engine
              "jx" request (Samples.repository "repo") r.1 NilMapAssignment Hr)
    as [(Hrefs & _)|(_ & _ & Hevs)]; [discriminate Hrefs|exact Hevs].
Defined.

Lemma launch_submits_well_formed_pipeline_witness :
  let refs := Samples.refs "master" [Samples.pull 7 "abc"; Samples.pull 9 "x"] in
  let request := Samples.request BatchJob refs in
  let r :=
    Launch Samples.PullRef_String Samples.GetEnvVars Samples.ToValidName
      "build" Samples.engine "jx" request (Samples.repository "repo") in
  exists param,
    metapipeline_Create param ∈ r.1
    /\ ServiceAccount param <> ""
    /\ pullRequests (PullRef_ param)
       = [ {| ID := "7"; MergeSHA := "abc" |}; {| ID := "9"; MergeSHA := "x" |} ].
Proof.
  intros refs request r.
  assert (Hin : exists param, metapipeline_Create param ∈ r.1)
    by (eexists; vm_compute; right; left).
  destruct Hin as [param Hin]. exists param. split; [exact Hin|].
  destruct (proj2 (launch_submits_well_formed_pipeline Samples.PullRef_String
                     Samples.GetEnvVars Samples.ToValidName "build"
                     Samples.engine "jx" request (Samples.repository "repo")
                     refs r.1 r.2 eq_refl (surjective_pairing r)) param Hin)
    as (Hsa & Hprs & _).
  split; [exact Hsa|exact Hprs].
Defined.

Lemma pull_request_branch_round_trips_witness :
  let activity := Samples.pipelineActivity "PR-7" in
  let spec :=
    LighthouseJob.Spec (ToLighthouseJob Samples.ToPipelineState activity) in
  (int_min <= 7 <= int_max /\ GitBranch activity = ("PR-" ++ Itoa 7)%string)
  /\ exists refs,
       LighthouseJobSpec.Refs spec = Some refs
       /\ Number <$> Refs.Pulls refs = [7]
       /\ getBranch spec refs = "PR-7".
Proof.
  intros activity spec.
  assert (Hn : int_min <= 7 <= int_max) by (unfold int_min, int_max; lia).
  split; [split; [exact Hn|reflexivity]|].
  destruct (pull_request_branch_round_trips Samples.ToPipelineState activity 7
              Hn eq_refl eq_refl) as (refs & Hrefs & _ & Hpulls & Hb).
  exists refs. split; [exact Hrefs|]. split; [|exact Hb].
  rewrite Hpulls. reflexivity.
Defined.

Example ToLighthouseJob_samples :
  let converted branch :=
    let spec :=
      LighthouseJob.Spec
        (ToLighthouseJob Samples.ToPipelineState
           (Samples.pipelineActivity branch)) in
    (LighthouseJobSpec.Type_ spec,
     Number <$> default [] (Refs.Pulls <$> LighthouseJobSpec.Refs spec),
     default "" (getBranch spec <$> LighthouseJobSpec.Refs spec)) in
  converted "master" = (PostsubmitJob, [], "master")
  /\ converted "PR-7" = (PresubmitJob, [7], "PR-7")
  /\ converted "PR-007" = (PresubmitJob, [7], "PR-7")
  /\ converted "PR-x" = (PresubmitJob, [], "master")
  /\ converted "PR-" = (PresubmitJob, [], "master")
  /\ converted "release-1" = (PresubmitJob, [], "master").
Proof. repeat split; vm_compute; reflexivity. Qed.

End LauncherMore.

(** ** Package [scmprovider]: paged listings *)

Module ScmproviderMore.
Import scmprovider GoFacts.
Local Open Scope list_scope.

Lemma wrap_succ (page : Z) :
  int_min <= page < int_max -> wrap (page + 1) = page + 1.
Proof. intros H. apply wrap_id. unfold int_min, int_max in *. lia. Qed.

Lemma seqZ_first (m : Z) (k : nat) :
  seqZ m (Z.of_nat (S k)) = m :: seqZ (m + 1) (Z.of_nat k).
Proof.
  rewrite seqZ_cons by lia. f_equal. f_equal; lia.
Qed.

Section Listing.

Variable A : Type.
Variable list_page : Z -> string + (list A * option Response).
Variable items : Z -> list A.

(** The pages [page], ..., [stop - 1] answer with their items and a
    response that announces a further page. *)
Abbreviation more_pages page stop :=
  (forall p : Z,
      page <= p < stop ->
      exists r : Response,
        list_page p = inr (items p, Some r) /\ p + 1 <= Page_Last r).

Lemma ListReviews_loop_pages (k : nat) :
  forall (page : Z) (firstRun : bool) (resp : option Response)
         (all : list A) (fuel : nat),
    int_min <= page -> page + Z.of_nat k < int_max ->
    more_pages page (page + Z.of_nat k) ->
    negb firstRun
    || match resp with Some r => page <=? Page_Last r | None => false end
    = true ->
    (S k <= fuel)%nat ->
    (forall resp',
        list_page (page + Z.of_nat k) = inr (items (page + Z.of_nat k), resp') ->
        match resp' with
        | Some r => Page_Last r <= page + Z.of_nat k
        | None => True
        end ->
        ListReviews_loop A list_page fuel page firstRun resp all
        = Some (inr (all ++ concat (items <$> seqZ page (Z.of_nat (S k))))))
    /\ (forall err,
          list_page (page + Z.of_nat k) = inl err ->
          ListReviews_loop A list_page fuel page firstRun resp all
          = Some (inl err)).
Proof.
  induction k as [|k IH]; intros page firstRun resp all fuel Hlo Hhi Hmore
    Henter Hfuel; (destruct fuel as [|fuel]; [lia|]); cbn [ListReviews_loop];
    rewrite Henter.
  - rewrite Z.add_0_r. split.
    + intros resp' Hlast Hend. rewrite Hlast.
      assert (Hw : wrap (page + 1) = page + 1)
        by (apply wrap_succ; lia).
      rewrite Hw. destruct fuel; cbn [ListReviews_loop negb orb];
        (replace (match resp' with
                  | Some r => page + 1 <=? Page_Last r
                  | None => false
                  end) with false
          by (destruct resp'; [symmetry; apply Z.leb_gt; lia
                              |reflexivity]));
        cbn [seqZ]; rewrite seqZ_first; simpl; rewrite app_nil_r; reflexivity.
    + intros err ->. reflexivity.
  - destruct (Hmore page ltac:(lia)) as (r & Hpage & Hnext).
    rewrite Hpage.
    assert (Hw : wrap (page + 1) = page + 1) by (apply wrap_succ; lia).
    rewrite Hw.
    assert (Hk : page + 1 + Z.of_nat k = page + Z.of_nat (S k)) by lia.
    destruct (IH (page + 1) true (Some r) (all ++ items page) fuel
                ltac:(lia) ltac:(lia)) as [Hok Herr].
    { intros p Hp. apply Hmore. lia. }
    { cbn [negb orb]. apply Z.leb_le. exact Hnext. }
    { lia. }
    rewrite Hk in Hok, Herr. split.
    + intros resp' Hlast Hend. rewrite (Hok resp' Hlast Hend).
      rewrite (seqZ_first page (S k)). rewrite fmap_cons. cbn [concat].
      rewrite <- app_assoc. reflexivity.
    + intros err Hlast. exact (Herr err Hlast).
Qed.

Lemma ListAllPullRequests_loop_pages (k : nat) :
  forall (page : Z) (resp : option Response) (all : list A) (fuel : nat),
    int_min <= page -> page + Z.of_nat k < int_max ->
    more_pages page (page + Z.of_nat k) ->
    match resp with Some r => page <=? Page_Last r | None => true end = true ->
    (S k <= fuel)%nat ->
    (forall r,
        list_page (page + Z.of_nat k)
        = inr (items (page + Z.of_nat k), Some r) ->
        Page_Last r <= page + Z.of_nat k ->
        ListAllPullRequests_loop A list_page fuel page resp all
        = Some (inr (all ++ concat (items <$> seqZ page (Z.of_nat (S k))))))
    /\ (forall err,
          list_page (page + Z.of_nat k) = inl err ->
          ListAllPullRequests_loop A list_page fuel page resp all
          = Some (inl err)).
Proof.
  induction k as [|k IH]; intros page resp all fuel Hlo Hhi Hmore
    Henter Hfuel; (destruct fuel as [|fuel]; [lia|]);
    cbn [ListAllPullRequests_loop]; rewrite Henter.
  - rewrite Z.add_0_r. split.
    + intros r Hlast Hend. rewrite Hlast.
      assert (Hw : wrap (page + 1) = page + 1)
        by (apply wrap_succ; lia).
      rewrite Hw. destruct fuel; cbn [ListAllPullRequests_loop];
        (replace (page + 1 <=? Page_Last r) with false
          by (symmetry; apply Z.leb_gt; lia));
        rewrite seqZ_first; simpl; rewrite app_nil_r; reflexivity.
    + intros err ->. reflexivity.
  - destruct (Hmore page ltac:(lia)) as (r & Hpage & Hnext).
    rewrite Hpage.
    assert (Hw : wrap (page + 1) = page + 1) by (apply wrap_succ; lia).
    rewrite Hw.
    assert (Hk : page + 1 + Z.of_nat k = page + Z.of_nat (S k)) by lia.
    destruct (IH (page + 1) (Some r) (all ++ items page) fuel
                ltac:(lia) ltac:(lia)) as [Hok Herr].
    { intros p Hp. apply Hmore. lia. }
    { apply Z.leb_le. exact Hnext. }
    { lia. }
    rewrite Hk in Hok, Herr. split.
    + intros r' Hlast Hend. rewrite (Hok r' Hlast Hend).
      rewrite (seqZ_first page (S k)). rewrite fmap_cons. cbn [concat].
      rewrite <- app_assoc. reflexivity.
    + intros err Hlast. exact (Herr err Hlast).
Qed.

(** X24 — [ListReviews] asks for page 1 and then for every page the
    last response announced, and returns the reviews of all of them in the
    order of the pages; it stops after a page whose response is nil or names
    a last page that is not beyond it, so that at least page 1 is asked for.
    When a page fails, the error is returned and the reviews gathered so far
    are dropped. *)
Theorem ListReviews_gathers_pages (stop : Z) (fuel : nat) :
  1 <= stop < int_max ->
  more_pages 1 stop ->
  (Z.to_nat stop <= fuel)%nat ->
  (forall resp,
      list_page stop = inr (items stop, resp) ->
      match resp with Some r => Page_Last r <= stop | None => True end ->
      ListReviews A list_page fuel
      = Some (inr (concat (items <$> seqZ 1 stop))))
  /\ (forall err,
        list_page stop = inl err ->
        ListReviews A list_page fuel = Some (inl err)).
Proof.
  intros Hstop Hmore Hfuel. unfold ListReviews.
  assert (Hk : 1 + Z.of_nat (Z.to_nat (stop - 1)) = stop) by lia.
  destruct (ListReviews_loop_pages (Z.to_nat (stop - 1)) 1 false None [] fuel)
    as [Hok Herr].
  - unfold int_min. lia.
  - lia.
  - rewrite Hk. exact Hmore.
  - reflexivity.
  - lia.
  - rewrite Hk in Hok, Herr. split; [|exact Herr].
    intros resp Hlast Hend. rewrite (Hok resp Hlast Hend). cbn [app].
    replace (Z.of_nat (S (Z.to_nat (stop - 1)))) with stop by lia.
    reflexivity.
Qed.

(** X25 — [ListAllPullRequestsForFullNameRepo] starts at the page the
    caller passes in the options, not at page 1, and then asks for every
    page up to the last page the latest response names; it returns the pull
    requests of these pages in order.  When a page fails, the error is
    returned and the pull requests gathered so far are dropped. *)
Theorem ListAllPullRequests_gathers_pages (first stop : Z) (fuel : nat) :
  int_min <= first <= stop -> stop < int_max ->
  more_pages first stop ->
  (Z.to_nat (stop - first + 1) <= fuel)%nat ->
  (forall r,
      list_page stop = inr (items stop, Some r) ->
      Page_Last r <= stop ->
      ListAllPullRequestsForFullNameRepo A list_page fuel first
      = Some (inr (concat (items <$> seqZ first (stop - first + 1)))))
  /\ (forall err,
        list_page stop = inl err ->
        ListAllPullRequestsForFullNameRepo A list_page fuel first
        = Some (inl err)).
Proof.
  intros Hfirst Hstop Hmore Hfuel. unfold ListAllPullRequestsForFullNameRepo.
  assert (Hk : first + Z.of_nat (Z.to_nat (stop - first)) = stop) by lia.
  destruct (ListAllPullRequests_loop_pages (Z.to_nat (stop - first)) first
              None [] fuel) as [Hok Herr].
  - lia.
  - lia.
  - rewrite Hk. exact Hmore.
  - reflexivity.
  - lia.
  - rewrite Hk in Hok, Herr. split; [|exact Herr].
    intros r Hlast Hend. rewrite (Hok r Hlast Hend). cbn [app].
    replace (Z.of_nat (S (Z.to_nat (stop - first)))) with (stop - first + 1)
      by lia.
    reflexivity.
Qed.

Lemma ListAllPullRequests_loop_unpaged (fuel : nat) :
  (forall p : Z, exists l, list_page p = inr (l, None)) ->
  forall (page : Z) (all : list A),
    ListAllPullRequests_loop A list_page fuel page None all = None.
Proof.
  intros Hnil. induction fuel as [|fuel IH]; intros page all; [reflexivity|].
  cbn [ListAllPullRequests_loop].
  destruct (Hnil page) as (l & ->). apply IH.
Qed.

(** X26 — A client that answers every page with a nil response and no
    error ends [ListReviews] after the first page, but never ends
    [ListAllPullRequestsForFullNameRepo]: its loop goes on for as long as the
    response is nil, whatever the number of turns allowed. *)
Theorem nil_response_never_ends_pull_request_listing :
  (forall p : Z, exists l, list_page p = inr (l, None)) ->
  (forall (fuel : nat) (page : Z),
      ListAllPullRequestsForFullNameRepo A list_page fuel page = None)
  /\ (forall fuel : nat,
        exists l, list_page 1 = inr (l, None)
          /\ ListReviews A list_page (S fuel) = Some (inr l)).
Proof.
  intros Hnil. split.
  - intros fuel page. apply ListAllPullRequests_loop_unpaged. exact Hnil.
  - intros fuel. destruct (Hnil 1) as (l & Hl). exists l.
    split; [exact Hl|]. unfold ListReviews. cbn [ListReviews_loop negb orb].
    rewrite Hl. destruct fuel; reflexivity.
Qed.

End Listing.

Lemma ListReviews_gathers_pages_witness :
  (1 <= 3 < int_max /\ (Z.to_nat 3 <= 5)%nat)
  /\ ListReviews Z Samples.pages 5 = Some (inr [1; 2; 3])
  /\ ListReviews Z Samples.broken 5 = Some (inl "timeout").
Proof.
  assert (H3 : 1 <= 3 < int_max) by (unfold int_max; lia).
  assert (H2 : 1 <= 2 < int_max) by (unfold int_max; lia).
  split; [split; [exact H3|simpl; lia]|]. split.
  - refine (proj1 (ListReviews_gathers_pages Z Samples.pages (fun p => [p]) 3 5
                     H3 _ _) (Some {| Page_Last := 3 |}) eq_refl _).
    + intros p Hp. exists {| Page_Last := 3 |}.
      split; [reflexivity|simpl; lia].
    + simpl. lia.
    + simpl. lia.
  - refine (proj2 (ListReviews_gathers_pages Z Samples.broken (fun p => [p]) 2 5
                     H2 _ _) "timeout" eq_refl).
    + intros p Hp. exists {| Page_Last := 3 |}. split; [|simpl; lia].
      unfold Samples.broken. rewrite decide_False by lia. reflexivity.
    + simpl. lia.
Defined.

Lemma ListAllPullRequests_gathers_pages_witness :
  (int_min <= 0 <= 3 /\ 3 < int_max /\ (Z.to_nat (3 - 0 + 1) <= 4)%nat)
  /\ ListAllPullRequestsForFullNameRepo Z Samples.pages 4 0
     = Some (inr [0; 1; 2; 3])
  /\ ListAllPullRequestsForFullNameRepo Z Samples.broken 4 0
     = Some (inl "timeout").
Proof.
  assert (H0 : int_min <= 0 <= 3) by (unfold int_min; lia).
  assert (H0' : int_min <= 0 <= 2) by (unfold int_min; lia).
  assert (H3 : 3 < int_max) by (unfold int_max; lia).
  assert (H2 : 2 < int_max) by (unfold int_max; lia).
  split; [split; [exact H0|split; [exact H3|simpl; lia]]|]. split.
  - refine (proj1 (ListAllPullRequests_gathers_pages Z Samples.pages
                     (fun p => [p]) 0 3 4 H0 H3 _ _)
              {| Page_Last := 3 |} eq_refl _).
    + intros p Hp. exists {| Page_Last := 3 |}.
      split; [reflexivity|simpl; lia].
    + simpl. lia.
    + simpl. lia.
  - refine (proj2 (ListAllPullRequests_gathers_pages Z Samples.broken
                     (fun p => [p]) 0 2 4 H0' H2 _ _) "timeout" eq_refl).
    + intros p Hp. exists {| Page_Last := 3 |}. split; [|simpl; lia].
      unfold Samples.broken. rewrite decide_False by lia. reflexivity.
    + simpl. lia.
Defined.

Lemma nil_response_never_ends_pull_request_listing_witness :
  (forall p : Z, exists l, Samples.unpaged p = inr (l, None))
  /\ ListAllPullRequestsForFullNameRepo Z Samples.unpaged 1000 1 = None
  /\ ListReviews Z Samples.unpaged 1 = Some (inr [1]).
Proof.
  assert (Hnil : forall p : Z, exists l, Samples.unpaged p = inr (l, None))
    by (intros p; eexists; reflexivity).
  split; [exact Hnil|]. split.
  - exact (proj1 (nil_response_never_ends_pull_request_listing Z
                    Samples.unpaged Hnil) 1000%nat 1).
  - reflexivity.
Defined.

End ScmproviderMore.
